(** * FINE / spagat: grouping utilities

    A shallow embedding of [FINE/spagat/grouping_utils.py] and the
    properties of its distance and modularity computations.

    Conventions of the embedding.
    - A NumPy [float64] is a value of [num]: an exact rational ([Qc]), one of
      the two infinities, or NaN.  Arithmetic on finite values is exact;
      rounding, overflow and the sign of zero are not represented.  A
      theorem that states a property of the source for finite results
      carries the hypothesis that they stay in the range of [float64]
      ([float64_max], [weight_bound]) where the source could overflow, and
      claims of a result only what IEEE 754 arithmetic yields exactly; the
      lemmas behind it work in exact arithmetic.  The
      special values follow IEEE 754 ([x/0], [inf - inf], [0 * inf], NaN
      propagation, [NaN == NaN] false), because the source relies on them
      (missing values are NaN, divisions are unguarded).
    - A 2-d [ndarray] is a list of rows; a Python [dict] that is iterated is
      an association list in insertion order; the weight mapping, which is
      only ever indexed, is a [gmap].
    - A Python exception is a value [Raise e] of the [result] monad.
    - An in-place update of an argument is explicit state passing: the
      function returns the new contents of the caller's array. *)

From Stdlib Require Import ZArith QArith Qcanon Lia.
From stdpp Require Import base numbers list strings gmap.

Local Open Scope Z_scope.
Local Open Scope list_scope.

(** ** Exceptions *)

Inductive exn := KeyError | IndexError | ValueError.

Inductive result (A : Type) :=
| Ok (a : A)
| Raise (e : exn).
Arguments Ok {A} a.
Arguments Raise {A} e.

Definition bind {A B} (m : result A) (k : A -> result B) : result B :=
  match m with
  | Ok a => k a
  | Raise e => Raise e
  end.

Notation "'let*' x ':=' m 'in' k" := (bind m (fun x => k))
  (at level 10, x pattern, m at level 100, k at level 200).

(** [for x in l: s = body x s], stopping at the first exception. *)
Fixpoint for_each {A S} (body : A -> S -> result S) (l : list A) (s : S)
  : result S :=
  match l with
  | [] => Ok s
  | a :: l' => let* s' := body a s in for_each body l' s'
  end.

(** [[f x for x in l]], stopping at the first exception. *)
Fixpoint map_result {A B} (f : A -> result B) (l : list A) : result (list B) :=
  match l with
  | [] => Ok []
  | a :: l' => let* b := f a in let* bs := map_result f l' in Ok (b :: bs)
  end.

(** [range(lo, hi)] *)
Definition range (lo hi : nat) : list nat := seq lo (hi - lo).

(** [l[i]] for a Python or NumPy sequence and a signed index. *)
Definition py_index {A} (l : list A) (i : Z) : result A :=
  let n := Z.of_nat (length l) in
  let j := if i <? 0 then i + n else i in
  if (0 <=? j) && (j <? n)
  then match l !! Z.to_nat j with Some a => Ok a | None => Raise IndexError end
  else Raise IndexError.

(** ** Numbers *)

Inductive num :=
| Fin (q : Qc)
| PInf
| NInf
| NaN.

Definition num_of_Z (z : Z) : num := Fin (Qc_of_Z z).

Definition isnan (a : num) : bool :=
  match a with NaN => true | _ => false end.

Definition isfinite (a : num) : bool :=
  match a with Fin _ => true | _ => false end.

Definition sign_inf (c : comparison) : num :=
  match c with Gt => PInf | Lt => NInf | Eq => NaN end.

Definition num_opp (a : num) : num :=
  match a with
  | Fin q => Fin (- q)%Qc
  | PInf => NInf
  | NInf => PInf
  | NaN => NaN
  end.

Definition num_add (a b : num) : num :=
  match a, b with
  | NaN, _ | _, NaN => NaN
  | Fin p, Fin q => Fin (p + q)%Qc
  | PInf, NInf | NInf, PInf => NaN
  | PInf, _ | _, PInf => PInf
  | NInf, _ | _, NInf => NInf
  end.

Definition num_sub (a b : num) : num := num_add a (num_opp b).

Definition num_mul (a b : num) : num :=
  match a, b with
  | NaN, _ | _, NaN => NaN
  | Fin p, Fin q => Fin (p * q)%Qc
  | Fin p, PInf | PInf, Fin p => sign_inf (p ?= 0)%Qc
  | Fin p, NInf | NInf, Fin p => sign_inf (0 ?= p)%Qc
  | PInf, PInf | NInf, NInf => PInf
  | PInf, NInf | NInf, PInf => NInf
  end.

(** NumPy division: dividing by zero is not an exception, it yields NaN or
    an infinity (and a warning). *)
Definition num_div (a b : num) : num :=
  match a, b with
  | NaN, _ | _, NaN => NaN
  | Fin p, Fin q =>
      if bool_decide (q = 0%Qc) then sign_inf (p ?= 0)%Qc else Fin (p / q)%Qc
  | Fin _, _ => Fin 0%Qc
  | PInf, Fin q => if bool_decide (q < 0)%Qc then NInf else PInf
  | NInf, Fin q => if bool_decide (q < 0)%Qc then PInf else NInf
  | _, _ => NaN
  end.

(** [a == b] *)
Definition num_eqb (a b : num) : bool :=
  match a, b with
  | Fin p, Fin q => bool_decide (p = q)
  | PInf, PInf | NInf, NInf => true
  | _, _ => false
  end.

(** [a < b] *)
Definition num_ltb (a b : num) : bool :=
  match a, b with
  | NaN, _ | _, NaN => false
  | Fin p, Fin q => bool_decide (p < q)%Qc
  | NInf, NInf | PInf, _ | _, NInf => false
  | _, _ => true
  end.

Declare Scope num_scope.
Delimit Scope num_scope with num.
Bind Scope num_scope with num.
Infix "+" := num_add : num_scope.
Infix "-" := num_sub : num_scope.
Infix "*" := num_mul : num_scope.
Infix "/" := num_div : num_scope.
Notation "0" := (Fin 0%Qc) : num_scope.
Notation "1" := (Fin 1%Qc) : num_scope.
Notation "2" := (Fin 2%Qc) : num_scope.

Abbreviation matrix := (list (list num)).

(** [np.sum] of a 1-d array, and Python's [sum], both starting from 0. *)
Definition np_sum (l : list num) : num := foldl num_add 0%num l.

(** [np.max] and [np.min] propagate NaN and reject an empty array. *)
Definition max2 (a b : num) : num :=
  if isnan a then a else if isnan b then b else if num_ltb a b then b else a.

Definition min2 (a b : num) : num :=
  if isnan a then a else if isnan b then b else if num_ltb b a then b else a.

Definition np_max (l : list num) : result num :=
  match l with
  | [] => Raise ValueError
  | a :: l' => Ok (foldl max2 a l')
  end.

Definition np_min (l : list num) : result num :=
  match l with
  | [] => Raise ValueError
  | a :: l' => Ok (foldl min2 a l')
  end.

(** ** matrix_MinMaxScaler *)

Definition matrix_MinMaxScaler (m : matrix) (scaled_min scaled_max : num)
  : result matrix :=
  let* mx := np_max (concat m) in
  let* mn := np_min (concat m) in
  if num_eqb mx mn then Ok m
  else Ok (map (map (fun v =>
         ((v - mn) / (mx - mn)) * (scaled_max - scaled_min) + scaled_min)%num) m).

(** ** Array helpers *)

(** [m.T] for an array of shape [(len m, ncols)]. *)
Fixpoint transpose {A} (ncols : nat) (m : list (list A)) : list (list A) :=
  match m with
  | [] => replicate ncols []
  | r :: rs => zip_with cons r (transpose ncols rs)
  end.

Definition ncols {A} (m : list (list A)) : nat :=
  match m with
  | [] => 0%nat
  | r :: _ => length r
  end.

Definition np_T {A} (m : list (list A)) : list (list A) := transpose (ncols m) m.

(** [np.concatenate((a, b), axis=1)] *)
Definition hconcat (a b : matrix) : result matrix :=
  if (length a =? length b)%nat then Ok (zip_with app a b)
  else Raise ValueError.

(** [np.delete(m, 0, 1)] *)
Definition delete_col0 (m : matrix) : matrix := map (drop 1) m.

(** [np.zeros((r, c))] *)
Definition np_zeros (r c : nat) : matrix := replicate r (replicate c 0%num).

(** [m * w] for a scalar [w] *)
Definition scale_matrix (m : matrix) (w : num) : matrix :=
  map (map (fun v => (v * w)%num)) m.

(** [a + b] for arrays of one shape *)
Definition matrix_add (a b : matrix) : result matrix :=
  if (length a =? length b)%nat
     && forallb (fun p => (length p.1 =? length p.2)%nat) (zip a b)
  then Ok (zip_with (zip_with num_add) a b)
  else Raise ValueError.

(** The mean of xarray, which skips missing values and is NaN when there is
    none left. *)
Definition nanmean (l : list num) : num :=
  let xs := filter (fun v => isnan v = false) l in
  (np_sum xs / num_of_Z (Z.of_nat (length xs)))%num.

(** The rows of the data frame that pairs every component mean with its
    position, [var_mean_df['component_id'] = np.array(range(n_components))],
    restricted to the means that are not missing. *)
Definition valid_component_ids (means : list num) (n_components : nat)
  : result (list nat) :=
  if (length means =? n_components)%nat
  then Ok (map fst (filter (fun p => isnan p.2 = false)
                           (zip (range 0 n_components) means)))
  else Raise ValueError.

(** [a[i]] for an index that is not negative *)
Definition get_item {A} (a : list A) (i : nat) : result A :=
  match a !! i with
  | Some r => Ok r
  | None => Raise IndexError
  end.

(** [a[ids]] along the first axis *)
Definition take_rows {A} (a : list A) (ids : list nat) : result (list A) :=
  map_result (get_item a) ids.

(** ** preprocessTimeSeries *)

(** A time-series variable: per component, a (space x TimeStep) array. *)
Definition preprocessTimeSeries_var (da : list matrix) (n_regions n_components : nat)
  : result matrix :=
  let matrix_var := np_zeros n_regions 1 in
  let var_mean := map (fun c => nanmean (map nanmean (np_T c))) da in
  let* ids := valid_component_ids var_mean n_components in
  let* matrix_var :=
    for_each (fun comp_id matrix_var =>
        let* c := get_item da comp_id in
        let* matrix_var_c := matrix_MinMaxScaler c 0%num 1%num in
        hconcat matrix_var matrix_var_c) ids matrix_var in
  Ok (delete_col0 matrix_var).

Definition preprocessTimeSeries (vars_dict : list (string * list matrix))
    (n_regions n_components : nat) : result (list (string * matrix)) :=
  map_result (fun '(var, da) =>
      let* m := preprocessTimeSeries_var da n_regions n_components in
      Ok (var, m)) vars_dict.

(** ** preprocess1dVariables *)

(** [np.nanmax] and [np.nanmin] skip NaN. *)
Definition nanmax (l : list num) : num :=
  match filter (fun v => isnan v = false) l with
  | [] => NaN
  | a :: l' => foldl max2 a l'
  end.

Definition nanmin (l : list num) : num :=
  match filter (fun v => isnan v = false) l with
  | [] => NaN
  | a :: l' => foldl min2 a l'
  end.

(** [sklearn.preprocessing.MinMaxScaler().fit_transform(X)], library code
    outside the repository, after its documentation: every column (feature)
    is scaled on its own, [X * scale_ + min_] with
    [scale_ = (1 - 0) / (max - min)] and [min_ = 0 - min * scale_], the
    minimum and maximum of the column taken over its values that are not
    NaN.  A column is taken as constant, and its range replaced by 1, when
    the range is below ten times the machine epsilon,
    [scale < 10 * np.finfo(scale.dtype).eps].  An array without rows or
    without columns, or with an infinite entry, is rejected. *)
Definition float64_eps : num := Fin (Q2Qc (1 # 2 ^ 52)).

Definition handle_zeros_in_scale (s : num) : num :=
  if num_ltb s (Fin (Q2Qc 10) * float64_eps)%num then 1%num else s.

Definition scale_feature (col : list num) : list num :=
  let data_min := nanmin col in
  let data_max := nanmax col in
  let data_range := (data_max - data_min)%num in
  let scale_ := ((1 - 0) / handle_zeros_in_scale data_range)%num in
  let min_ := (0 - data_min * scale_)%num in
  map (fun v => (v * scale_ + min_)%num) col.

Definition MinMaxScaler_fit_transform (X : matrix) : result matrix :=
  if (length X =? 0)%nat || (ncols X =? 0)%nat
     || negb (forallb (forallb (fun v => isfinite v || isnan v)) X)
  then Raise ValueError
  else Ok (transpose (length X) (map scale_feature (np_T X))).

(** A scalar variable: a (component x space) array. *)
Definition preprocess1dVariables_var (da : matrix) (n_components : nat)
  : result matrix :=
  let var_mean := map nanmean da in
  let* ids := valid_component_ids var_mean n_components in
  let* data := take_rows da ids in
  MinMaxScaler_fit_transform (np_T data).

Definition preprocess1dVariables (vars_dict : list (string * matrix))
    (n_components : nat) : result (list (string * matrix)) :=
  map_result (fun '(var, da) =>
      let* m := preprocess1dVariables_var da n_components in
      Ok (var, m)) vars_dict.

(** ** preprocess2dVariables *)

(** [scipy.cluster.hierarchy.distance.squareform(m, checks=False)] on a 2-d
    array, library code outside the repository: the array must be square,
    and its entries above the diagonal are copied row after row. *)
Definition is_square {A} (m : list (list A)) : bool :=
  forallb (fun r => (length r =? length m)%nat) m.

Definition upper_triangle {A} (m : list (list A)) : list A :=
  concat (imap (fun i r => drop (S i) r) m).

Definition squareform {A} (m : list (list A)) : result (list A) :=
  if is_square m then Ok (upper_triangle m) else Raise ValueError.

(** A pairwise variable: the labels of its two region axes and, per
    component, a (space x space_2) array. *)
Record DataArray2d := {
  space : list string;
  space_2 : list string;
  values_2d : list matrix
}.

(** [pd.DataFrame(data=var_matr, columns=space2)[space1].to_numpy()]; the
    labels of an axis are distinct. *)
Definition reorder_columns (space1 space2 : list string) (var_matr : matrix)
  : result matrix :=
  if negb (forallb (fun r => (length r =? length space2)%nat) var_matr)
  then Raise ValueError
  else
    let* cols := map_result (fun l =>
        match list_find (fun l' => l' = l) space2 with
        | Some (j, _) => Ok j
        | None => Raise KeyError
        end) space1 in
    map_result (fun r => take_rows r cols) var_matr.

(** Steps 1 to 3, common to both modes. *)
Definition preprocess2dVariables_var (da : DataArray2d) (n_components : nat)
  : result (list (nat * matrix)) :=
  let space1 := space da in
  let space2 := space_2 da in
  let var_mean := map (fun c => nanmean (map nanmean (np_T c))) (values_2d da) in
  let* ids := valid_component_ids var_mean n_components in
  map_result (fun comp_id =>
      let* var_matr := get_item (values_2d da) comp_id in
      let* da_comp_df := reorder_columns space1 space2 var_matr in
      let* scaled := matrix_MinMaxScaler da_comp_df 0%num 1%num in
      Ok (comp_id, scaled)) ids.

(** [handle_mode = 'toAffinity'] *)
Definition preprocess2dVariables_toAffinity
    (vars_dict : list (string * DataArray2d)) (n_components : nat)
  : result (list (string * list (nat * matrix))) :=
  map_result (fun '(var, da) =>
      let* ds_2d_var := preprocess2dVariables_var da n_components in
      Ok (var, ds_2d_var)) vars_dict.

(** [handle_mode = 'toDissimilarity'] (step 4) *)
Definition to_dissimilarity (data : matrix) : result (list num) :=
  let* vec := squareform data in
  Ok (map (fun v => (1 - v)%num) vec).

Definition preprocess2dVariables_toDissimilarity
    (vars_dict : list (string * DataArray2d)) (n_components : nat)
  : result (list (string * list (nat * list num))) :=
  let* ds_2d := preprocess2dVariables_toAffinity vars_dict n_components in
  map_result (fun '(var, var_dict) =>
      let* var_dict' := map_result (fun '(comp, data) =>
          let* vec := to_dissimilarity data in
          Ok (comp, vec)) var_dict in
      Ok (var, var_dict')) ds_2d.

(** ** preprocessDataset *)

(** A variable of the dataset, by the dimension names the classification
    goes by, with its values in the axis order that the preprocessing
    functions document and index by: (component, space, TimeStep) for the
    period-0 slice of a time series, (component, space) for a scalar
    variable, (component, space, space_2) for a pairwise variable.
    [preprocessDataset] compares the sorted dimension names and so also
    takes a variable that is stored in another axis order; such a variable
    has no value in this type, and no statement below is about one. *)
Inductive DataArray :=
| Da_ts (values : list matrix)
| Da_1d (values : matrix)
| Da_2d (da : DataArray2d)
| Da_other.

Record Dataset := {
  component : list string;
  space_coord : list string;
  data_vars : list (string * DataArray)
}.

Definition vars_ts_of (ds : Dataset) : list (string * list matrix) :=
  omap (fun '(varname, da) =>
    match da with Da_ts v => Some (varname, v) | _ => None end) (data_vars ds).

Definition vars_1d_of (ds : Dataset) : list (string * matrix) :=
  omap (fun '(varname, da) =>
    match da with Da_1d v => Some (varname, v) | _ => None end) (data_vars ds).

Definition vars_2d_of (ds : Dataset) : list (string * DataArray2d) :=
  omap (fun '(varname, da) =>
    match da with Da_2d v => Some (varname, v) | _ => None end) (data_vars ds).

Abbreviation ds_ts_t := (list (string * matrix)).
Abbreviation ds_1d_t := (list (string * matrix)).
Abbreviation ds_2d_t := (list (string * list (nat * list num))).

Definition preprocessDataset_toDissimilarity (sds : Dataset)
  : result (ds_ts_t * ds_1d_t * ds_2d_t) :=
  let n_components := length (component sds) in
  let n_regions := length (space_coord sds) in
  let* ds_timeseries := preprocessTimeSeries (vars_ts_of sds) n_regions n_components in
  let* ds_1d_vars := preprocess1dVariables (vars_1d_of sds) n_components in
  let* ds_2d_vars := preprocess2dVariables_toDissimilarity (vars_2d_of sds) n_components in
  Ok (ds_timeseries, ds_1d_vars, ds_2d_vars).

(** [dict.fromkeys(vars_list, 1)] *)
Definition fromkeys (vars_list : list string) (v : num) : gmap string num :=
  list_to_map (map (fun k => (k, v)) vars_list).

(** [if not var_weightings: var_weightings = dict.fromkeys(vars_list, 1)]:
    [None] and the empty mapping are both false. *)
Definition default_weightings (var_weightings : option (gmap string num))
    (vars_list : list string) : gmap string num :=
  match var_weightings with
  | None => fromkeys vars_list 1%num
  | Some w => if bool_decide (w = ∅) then fromkeys vars_list 1%num else w
  end.

(** [var_weightings[var]] *)
Definition lookup_weight (var_weightings : gmap string num) (var : string)
  : result num :=
  match var_weightings !! var with
  | Some w => Ok w
  | None => Raise KeyError
  end.

(** Steps 4a and 4b: the weighted matrices side by side. *)
Definition concat_weighted (var_weightings : gmap string num) (n_regions : nat)
    (ds : list (string * matrix)) : result matrix :=
  let* m := for_each (fun '(var, var_matrix) m =>
      let* weight := lookup_weight var_weightings var in
      hconcat m (scale_matrix var_matrix weight)) ds (np_zeros n_regions 1) in
  Ok (delete_col0 m).

Definition preprocessDataset_toAffinity (sds : Dataset)
    (var_weightings : option (gmap string num))
  : result (matrix * matrix * matrix) :=
  let n_components := length (component sds) in
  let n_regions := length (space_coord sds) in
  let vars_ts := vars_ts_of sds in
  let vars_1d := vars_1d_of sds in
  let vars_2d := vars_2d_of sds in
  let* ds_timeseries := preprocessTimeSeries vars_ts n_regions n_components in
  let* ds_1d_vars := preprocess1dVariables vars_1d n_components in
  let var_weightings :=
    default_weightings var_weightings
      (map fst vars_ts ++ map fst vars_1d ++ map fst vars_2d) in
  let* matrix_ts := concat_weighted var_weightings n_regions ds_timeseries in
  let* matrix_1d := concat_weighted var_weightings n_regions ds_1d_vars in
  let* ds_2d_vars := preprocess2dVariables_toAffinity vars_2d n_components in
  let* matrix_2d := for_each (fun '(var, var_dict) matrix_2d =>
      let* weight := lookup_weight var_weightings var in
      for_each (fun '(_, data) matrix_2d =>
          matrix_add matrix_2d (scale_matrix data weight)) var_dict matrix_2d)
    ds_2d_vars (np_zeros n_regions n_regions) in
  Ok (matrix_ts, matrix_1d, matrix_2d).

(** ** selfDistance *)

(** The position in the condensed vector that [selfDistance] reads for the
    regions [x] and [y] (step 3c (i)). *)
Definition condensed_index (n_regions region_index_x region_index_y : Z) : Z :=
  region_index_x * (n_regions - region_index_x)
  + (region_index_y - region_index_x) - 1.

(** [sum(np.power(region_x_data - region_y_data, 2))]; the two operands are
    rows of one array and so of one length. *)
Definition sq_diff_sum (region_x_data region_y_data : list num) : num :=
  np_sum (map (fun d => (d * d)%num) (zip_with num_sub region_x_data region_y_data)).

(** Steps 3a and 3b *)
Definition distance_rows (var_weightings : gmap string num)
    (region_index_x region_index_y : nat) (ds : list (string * matrix))
  : result num :=
  for_each (fun '(var, var_matr) distance =>
      let* var_weight_factor := lookup_weight var_weightings var in
      let* region_x_data := get_item var_matr region_index_x in
      let* region_y_data := get_item var_matr region_index_y in
      Ok (distance + sq_diff_sum region_x_data region_y_data * var_weight_factor)%num)
    ds 0%num.

(** Step 3c *)
Definition distance_2d_of (var_weightings : gmap string num)
    (region_index_x_y : Z) (ds_2d : ds_2d_t) : result num :=
  for_each (fun '(var, var_dict) distance_2d =>
      let* var_weight_factor := lookup_weight var_weightings var in
      for_each (fun '(_, data) distance_2d =>
          let* value_var_c := py_index data region_index_x_y in
          if negb (isnan value_var_c)
          then Ok (distance_2d + (value_var_c * value_var_c) * var_weight_factor)%num
          else Ok distance_2d) var_dict distance_2d)
    ds_2d 0%num.

(** [if not part_weightings: part_weightings = [1,1,1]] *)
Definition default_part_weightings (part_weightings : option (list num))
  : list num :=
  match part_weightings with
  | None | Some [] => [1; 1; 1]%num
  | Some l => l
  end.

Definition selfDistance (ds_ts : ds_ts_t) (ds_1d : ds_1d_t) (ds_2d : ds_2d_t)
    (n_regions region_index_x region_index_y : nat)
    (var_weightings : option (gmap string num))
    (part_weightings : option (list num)) : result num :=
  let var_weightings :=
    default_weightings var_weightings
      (map fst ds_ts ++ map fst ds_1d ++ map fst ds_2d) in
  let part_weightings := default_part_weightings part_weightings in
  let* distance_ts := distance_rows var_weightings region_index_x region_index_y ds_ts in
  let* distance_1d := distance_rows var_weightings region_index_x region_index_y ds_1d in
  let region_index_x_y :=
    condensed_index (Z.of_nat n_regions) (Z.of_nat region_index_x)
                    (Z.of_nat region_index_y) in
  let* distance_2d := distance_2d_of var_weightings region_index_x_y ds_2d in
  let* p0 := py_index part_weightings 0 in
  let* p1 := py_index part_weightings 1 in
  let* p2 := py_index part_weightings 2 in
  Ok (distance_ts * p0 + distance_1d * p1 + distance_2d * p2)%num.

(** ** selfDistanceMatrix *)

(** [m[i, j]] *)
Definition get_item2 (m : matrix) (i j : nat) : result num :=
  let* r := get_item m i in get_item r j.

(** [m[i, j] = v] *)
Definition set_item2 (m : matrix) (i j : nat) (v : num) : result matrix :=
  let* r := get_item m i in
  let* _ := get_item r j in
  Ok (<[i := <[j := v]> r]> m).

(** [m.diagonal()] and [np.diag(d)] *)
Definition diagonal (m : matrix) : list num :=
  omap id (imap (fun i r => r !! i) m).

Definition np_diag (d : list num) : matrix :=
  imap (fun i v => <[i := v]> (replicate (length d) 0%num)) d.

(** [m += m.T - np.diag(m.diagonal())] for a square [m] *)
Definition reflect_upper (m : matrix) : matrix :=
  zip_with (zip_with num_add) m
    (zip_with (zip_with num_sub) (np_T m) (np_diag (diagonal m))).

Definition selfDistanceMatrix (ds_ts : ds_ts_t) (ds_1d : ds_1d_t) (ds_2d : ds_2d_t)
    (n_regions : nat) (var_weightings : option (gmap string num))
  : result matrix :=
  let* distMatrix :=
    for_each (fun i distMatrix =>
        for_each (fun j distMatrix =>
            let* d := selfDistance ds_ts ds_1d ds_2d n_regions i j
                                   var_weightings None in
            set_item2 distMatrix i j d)
          (range (i + 1) n_regions) distMatrix)
      (range 0 n_regions) (np_zeros n_regions n_regions) in
  Ok (reflect_upper distMatrix).

(** ** computeModularity *)

(** [np.fill_diagonal(a, val)] writes into [a]. *)
Definition fill_diagonal (a : matrix) (val : num) : matrix :=
  imap (fun i r => <[i := val]> r) a.

(** The call [computeModularity(adjacency, regions_label_list)].  The array
    [adjacency] is the caller's object; the first component of the outcome
    is what that object holds when the call ends, the second is the returned
    value or the exception. *)
Definition computeModularity (adjacency : matrix) (regions_label_list : list Z)
  : matrix * result num :=
  let adjacency := fill_diagonal adjacency 0%num in
  let n_regions := length regions_label_list in
  let edge_weights_sum := np_sum (concat adjacency) in
  (adjacency,
   let* modularity :=
     for_each (fun v modularity =>
         for_each (fun w modularity =>
             let* row_v := get_item adjacency v in
             let d_v := np_sum row_v in
             let* row_w := get_item adjacency w in
             let d_w := np_sum row_w in
             let* label_v := get_item regions_label_list v in
             let* label_w := get_item regions_label_list w in
             let delta := if (label_v =? label_w)%Z then 1%num else 0%num in
             let* a_vw := get_item2 adjacency v w in
             Ok (modularity
                 + (a_vw - (d_v * d_w) / (2 * edge_weights_sum)) * delta)%num)
           (range (v + 1) n_regions) modularity)
       (range 0 n_regions) 0%num in
   Ok (modularity / (2 * edge_weights_sum))%num).

(** ** checkConnectivity *)

(** A loop that returns [True] from the function at the first element for
    which [f] holds, and [False] when it runs out. *)
Fixpoint any_result {A} (f : A -> result bool) (l : list A) : result bool :=
  match l with
  | [] => Ok false
  | a :: l' => let* b := f a in if b then Ok true else any_result f l'
  end.

(** [ds_2d] is the dictionary of mode toAffinity.  The test
    [(c in connect_components) and (data[x, y] != 0)] reads the array only
    when the component is a connecting one; [NaN != 0] is true. *)
Definition checkConnectivity (region_index_x region_index_y : nat)
    (ds_2d : list (string * list (nat * matrix))) (connect_components : list nat)
  : result bool :=
  any_result (fun '(_, var_dict) =>
      any_result (fun '(c, data) =>
          if bool_decide (c ∈ connect_components)
          then let* v := get_item2 data region_index_x region_index_y in
               Ok (negb (num_eqb v 0%num))
          else Ok false) var_dict) ds_2d.

(** ** generateConnectivityMatrix *)

(** [s.lower()] and [needle in s] for strings of ASCII characters. *)
Definition lower_ascii (c : Ascii.ascii) : Ascii.ascii :=
  let n := Ascii.nat_of_ascii c in
  if (65 <=? n)%nat && (n <=? 90)%nat then Ascii.ascii_of_nat (n + 32) else c.

Fixpoint lower (s : string) : string :=
  match s with
  | EmptyString => EmptyString
  | String c s' => String (lower_ascii c) (lower s')
  end.

Fixpoint contains (needle s : string) : bool :=
  String.prefix needle s
  || match s with
     | EmptyString => false
     | String _ s' => contains needle s'
     end.

(** Steps 2 and 3: the positions of the components whose name contains
    'pipeline', or all positions when there is none. *)
Definition connect_components_of (component_list : list string) : list nat :=
  let n_components := length component_list in
  let connect_components :=
    map fst (filter (fun p => contains "pipeline" (lower p.2) = true)
                    (zip (range 0 n_components) component_list)) in
  match connect_components with
  | [] => range 0 n_components
  | _ => connect_components
  end.

(** The pairwise variables of the dataset are those with the dimensions
    (component, space, space_2) in this order, which is the order a [Da_2d]
    holds its values in. *)
Definition generateConnectivityMatrix (sds : Dataset) : result matrix :=
  let vars_2d := vars_2d_of sds in
  let n_regions := length (space_coord sds) in
  let component_list := component sds in
  let n_components := length component_list in
  let* ds_2d := preprocess2dVariables_toAffinity vars_2d n_components in
  let connect_components := connect_components_of component_list in
  let* adjacencyMatrix :=
    for_each (fun i adjacencyMatrix =>
        for_each (fun j adjacencyMatrix =>
            let* connected := checkConnectivity i j ds_2d connect_components in
            if connected then set_item2 adjacencyMatrix i j 1%num
            else Ok adjacencyMatrix)
          (range (i + 1) n_regions) adjacencyMatrix)
      (range 0 n_regions) (np_zeros n_regions n_regions) in
  let adjacencyMatrix := reflect_upper adjacencyMatrix in
  Ok (fill_diagonal adjacencyMatrix 1%num).

(** ** computeSilhouetteCoefficient *)

(** [l[i] = v] for a Python list and a signed index. *)
Definition py_set_item {A} (l : list A) (i : Z) (v : A) : result (list A) :=
  let n := Z.of_nat (length l) in
  let j := if i <? 0 then i + n else i in
  if (0 <=? j) && (j <? n) then Ok (<[Z.to_nat j := v]> l)
  else Raise IndexError.

(** [l.index(x)] *)
Definition list_index (l : list string) (x : string) : result nat :=
  match list_find (fun y => y = x) l with
  | Some (i, _) => Ok i
  | None => Raise ValueError
  end.

(** Step 2: the list [labels] is written in place, group after group. *)
Definition assign_labels (regions_list : list string)
    (regions_dict : list (string * list string)) (labels : list Z)
  : result (list Z) :=
  let* (labels, _) :=
    for_each (fun '(_, sub_regions_list) '(labels, label) =>
        let* labels :=
          for_each (fun region labels =>
              let* ind := list_index regions_list region in
              Ok (<[ind := label]> labels)) sub_regions_list labels in
        Ok (labels, label + 1))
      regions_dict (labels, 0) in
  Ok labels.

Section silhouette.
(** [sklearn.metrics.silhouette_score(distanceMatrix, labels,
    metric='precomputed')], library code outside the repository. *)
Variable silhouette_score : matrix -> list Z -> result num.

Definition computeSilhouetteCoefficient (regions_list : list string)
    (distanceMatrix : matrix)
    (aggregation_dict : list (Z * list (string * list string)))
  : result (list num) :=
  let n_regions := length regions_list in
  let scores := map (fun _ => 0%num) (range 1 (n_regions - 1)) in
  let labels := map (fun _ => 0) (range 0 n_regions) in
  let* (scores, _) :=
    for_each (fun '(k, regions_dict) '(scores, labels) =>
        if (k =? 1) || (k =? Z.of_nat n_regions) then Ok (scores, labels)
        else
          let* labels := assign_labels regions_list regions_dict labels in
          let* s := silhouette_score distanceMatrix labels in
          let* scores := py_set_item scores (k - 2) s in
          Ok (scores, labels))
      aggregation_dict (scores, labels) in
  Ok scores.
End silhouette.

(** * Vocabulary of the statements

    Shapes, example data and the auxiliary functions that the lemmas below
    are stated with. *)

(** [a/b] as a number *)
Definition frac (a : Z) (b : positive) : num := Fin (Q2Qc (a # b)).

(** Scenario A: three regions and one scalar variable that has the values
    0, 5, 10 for one component and no value for the components before and
    after it. *)
Definition nan_row : list num := [NaN; NaN; NaN].

Definition scenario_A_values (before after : nat) : matrix :=
  replicate before nan_row
  ++ [num_of_Z 0; num_of_Z 5; num_of_Z 10] :: replicate after nan_row.

Definition scenario_A (var : string) (cs_before : list string) (c : string)
    (cs_after : list string) (r0 r1 r2 : string) : Dataset := {|
  component := cs_before ++ c :: cs_after;
  space_coord := [r0; r1; r2];
  data_vars :=
    [(var, Da_1d (scenario_A_values (length cs_before) (length cs_after)))]
|}.

Definition finite_list (l : list num) : Prop := Forall (fun v => isfinite v = true) l.
Definition finite_matrix (m : matrix) : Prop := Forall finite_list m.

Definition Qc_min (a b : Qc) : Qc := if bool_decide (b < a)%Qc then b else a.
Definition Qc_max (a b : Qc) : Qc := if bool_decide (a < b)%Qc then b else a.

(** The affine map of the scaler on rationals. *)
Definition rescale (mn mx : Qc) (q : Qc) : Qc := ((q - mn) / (mx - mn))%Qc.

(** The pair of regions stored at each position of the condensed vector of
    an (n x n) array. *)
Definition index_matrix (n : nat) : list (list (nat * nat)) :=
  map (fun i => map (fun j => (i, j)) (seq 0 n)) (seq 0 n).

Definition decode_condensed (n : nat) (k : Z) : result (nat * nat) :=
  let* vec := squareform (index_matrix n) in py_index vec k.

(** The number of entries that rows [k], ..., [k + x - 1] of an (n x n)
    array contribute to the condensed vector. *)
Fixpoint rows_offset (n k x : nat) : nat :=
  match x with
  | O => 0%nat
  | S x' => ((n - S k) + rows_offset n (S k) x')%nat
  end.

(** The position of the entry (x, y), x < y, in the condensed vector. *)
Definition squareform_pos (n x y : Z) : Z :=
  x * n - x * (x + 1) / 2 + (y - x - 1).

Definition upper_from {A} (k : nat) (m : list (list A)) : list A :=
  concat (imap (fun i r => drop (S (k + i)) r) m).

(** An (n x n) array *)
Definition square_of (n : nat) (m : matrix) : Prop :=
  length m = n /\ Forall (fun r => length r = n) m.

(** Four regions and one pairwise variable with a single component that
    connects region 0 with region 3 and region 2 with region 3. *)
Definition four_regions : list string := ["r0"; "r1"; "r2"; "r3"]%string.

Definition pairwise_example : Dataset := {|
  component := ["pipeline"%string];
  space_coord := four_regions;
  data_vars := [("capacity_2d"%string, Da_2d {|
    space := four_regions;
    space_2 := four_regions;
    values_2d := [[[0; 0; 0; 1]; [0; 0; 0; 0]; [0; 0; 0; 1]; [1; 0; 1; 0]]%num]
  |})]
|}.

Definition pairwise_example_ds_2d : ds_2d_t :=
  [("capacity_2d"%string, [(0%nat, [1; 1; 0; 1; 1; 0]%num)])].

(** The entry (i, j) of an array, when it has one. *)
Definition entry (m : matrix) (i j : nat) : option num := m !! i ≫= (.!! j).

(** Every observed variable has a weight once the defaults are in. *)
Definition weights_cover (var_weightings : option (gmap string num))
    (vars_list : list string) : Prop :=
  forall var, var ∈ vars_list ->
    is_Some (default_weightings var_weightings vars_list !! var).

(** The input of the distance functions for [n_regions] regions: a row per
    region in every feature matrix, an entry per pair of regions in every
    condensed vector, a weight for every variable. *)
Definition valid_input (ds_ts : ds_ts_t) (ds_1d : ds_1d_t) (ds_2d : ds_2d_t)
    (n_regions : nat) (var_weightings : option (gmap string num)) : Prop :=
  Forall (fun p => length p.2 = n_regions) ds_ts
  /\ Forall (fun p => length p.2 = n_regions) ds_1d
  /\ Forall (fun p => Forall (fun q =>
        length q.2 = (n_regions * (n_regions - 1) / 2)%nat) p.2) ds_2d
  /\ weights_cover var_weightings (map fst ds_ts ++ map fst ds_1d ++ map fst ds_2d).

(** What the loops of [selfDistanceMatrix] keep: an (n x n) array that is
    zero on and below the diagonal. *)
Definition upper_only (n : nat) (m : matrix) : Prop :=
  square_of n m
  /\ forall a b, (b <= a)%nat -> (a < n)%nat -> entry m a b = Some 0%num.

(** A loop over a dictionary whose body first looks the key up in the
    weights; whether the rest of the body raises depends on the state only
    through [R] and not on the weight. *)
Definition keyed_body {A S} (step : A -> num -> S -> result S)
    (w : gmap string num) : string * A -> S -> result S :=
  fun '(k, a) s => let* wt := lookup_weight w k in step a wt s.

(** The bodies of the loops of [selfDistance] as keyed loops. *)
Definition rows_step (x y : nat) (var_matr : matrix) (w : num) (distance : num)
  : result num :=
  let* region_x_data := get_item var_matr x in
  let* region_y_data := get_item var_matr y in
  Ok (distance + sq_diff_sum region_x_data region_y_data * w)%num.

Definition vectors_step (k : Z) (var_dict : list (nat * list num)) (w : num)
    (distance_2d : num) : result num :=
  for_each (fun '(_, data) distance_2d =>
      let* value_var_c := py_index data k in
      if negb (isnan value_var_c)
      then Ok (distance_2d + (value_var_c * value_var_c) * w)%num
      else Ok distance_2d) var_dict distance_2d.

Definition any_state {S} (s s' : S) : Prop := True.

(** The bodies of the loops of [preprocessDataset] as keyed loops. *)
Definition hconcat_step (var_matrix : matrix) (weight : num) (m : matrix)
  : result matrix :=
  hconcat m (scale_matrix var_matrix weight).

Definition affinity_step (var_dict : list (nat * matrix)) (weight : num)
    (matrix_2d : matrix) : result matrix :=
  for_each (fun '(_, data) matrix_2d =>
      matrix_add matrix_2d (scale_matrix data weight)) var_dict matrix_2d.

Definition same_length (m m' : matrix) : Prop := length m = length m'.
Definition shape (m : matrix) : list nat := map length m.
Definition same_shape (m m' : matrix) : Prop := shape m = shape m'.

Definition scenario_A_named : Dataset :=
  scenario_A "capacity" [] "wind" [] "r0" "r1" "r2".

Definition is_min (l : list num) (m : Qc) : Prop :=
  Fin m ∈ l /\ forall q, Fin q ∈ l -> (m <= q)%Qc.

Definition is_max (l : list num) (m : Qc) : Prop :=
  Fin m ∈ l /\ forall q, Fin q ∈ l -> (q <= m)%Qc.

(** The affine map of the scaler for the bounds [lo] and [hi]. *)
Definition rescale_to (mn mx lo hi : Qc) (q : Qc) : Qc :=
  (rescale mn mx q * (hi - lo) + lo)%Qc.

(** A number that is not negative. *)
Definition nonneg (v : num) : Prop := exists q : Qc, v = Fin q /\ (0 <= q)%Qc.

(** Weights that are numbers. *)
Definition finite_weightings (var_weightings : option (gmap string num)) : Prop :=
  match var_weightings with
  | Some w => map_Forall (fun _ v => isfinite v = true) w
  | None => True
  end.

(** The dictionary of the pairwise variables without their vectors. *)
Definition without_vectors (ds_2d : ds_2d_t) : ds_2d_t :=
  map (fun p => (p.1, [])) ds_2d.

(** The arrays [ms], of [n] rows each, side by side. *)
Definition hstack (n : nat) (ms : list matrix) : matrix :=
  foldl (zip_with app) (replicate n []) ms.

(** The largest finite [float64], (2 - 2^-52) * 2^1023. *)
Definition float64_max : Qc := Q2Qc (inject_Z (2 ^ 1024 - 2 ^ 971)).

(** A bound on the total edge weight under which neither a sum of weights
    nor a product of two weighted degrees leaves the range of [float64]. *)
Definition weight_bound : Qc := Q2Qc (inject_Z (2 ^ 500)).

(** A value that is not below zero: a number that is not negative, plus
    infinity, or NaN ([v < 0] is false). *)
Definition not_negative (v : num) : Prop := num_ltb v 0%num = false.

Definition not_negative_weightings (var_weightings : option (gmap string num)) : Prop :=
  match var_weightings with
  | Some w => map_Forall (fun _ v => not_negative v) w
  | None => True
  end.

(** Some component of [connect_components] has, for some variable, an
    entry at (x, y) that is not equal to 0. *)
Definition connected_by (x y : nat) (ds_2d : list (string * list (nat * matrix)))
    (connect_components : list nat) : Prop :=
  exists var var_dict c data v,
    (var, var_dict) ∈ ds_2d /\ (c, data) ∈ var_dict /\ c ∈ connect_components
    /\ entry data x y = Some v /\ num_eqb v 0%num = false.

(** * Properties *)

Global Instance exn_eq_dec : EqDecision exn.
Proof. solve_decision. Defined.
Global Instance num_eq_dec : EqDecision num.
Proof. solve_decision. Defined.
Global Instance result_eq_dec `{EqDecision A} : EqDecision (result A).
Proof. solve_decision. Defined.

(** Closed goals are settled by running the embedding. *)
Ltac by_compute := apply (bool_decide_unpack _); vm_compute; exact I.

(** ** Scenario A: one scalar variable on three regions *)

Lemma lookup_weight_fromkeys (vars_list : list string) (var : string) :
  var ∈ vars_list -> lookup_weight (fromkeys vars_list 1%num) var = Ok 1%num.
Proof.
  intros Hin. unfold lookup_weight, fromkeys.
  destruct (list_to_map _ !! var) as [w|] eqn:E.
  - apply elem_of_list_to_map_2 in E. apply list_elem_of_fmap in E as (k & [= -> ->] & _).
    reflexivity.
  - apply not_elem_of_list_to_map_2 in E. exfalso; apply E.
    rewrite <- list_fmap_compose. simpl. rewrite list_fmap_id. exact Hin.
Qed.





Section scenario_A.
Variables (var c r0 r1 r2 : string) (cs_before cs_after : list string).



End scenario_A.

(** ** The scaler on matrices of finite numbers *)

Lemma finite_list_Fin (l : list num) :
  finite_list l -> exists ql : list Qc, l = map Fin ql.
Proof.
  induction 1 as [|v l Hv _ [ql ->]].
  - by exists [].
  - destruct v as [q| | |]; try discriminate. by exists (q :: ql).
Qed.

Lemma min2_Fin (a b : Qc) : min2 (Fin a) (Fin b) = Fin (Qc_min a b).
Proof. unfold min2, Qc_min; simpl. by case_bool_decide. Qed.

Lemma max2_Fin (a b : Qc) : max2 (Fin a) (Fin b) = Fin (Qc_max a b).
Proof. unfold max2, Qc_max; simpl. by case_bool_decide. Qed.

Lemma foldl_min2_Fin (ql : list Qc) (a : Qc) :
  foldl min2 (Fin a) (map Fin ql) = Fin (foldl Qc_min a ql).
Proof.
  revert a; induction ql as [|q ql IH]; intros a; simpl; [reflexivity|].
  rewrite min2_Fin. apply IH.
Qed.

Lemma foldl_max2_Fin (ql : list Qc) (a : Qc) :
  foldl max2 (Fin a) (map Fin ql) = Fin (foldl Qc_max a ql).
Proof.
  revert a; induction ql as [|q ql IH]; intros a; simpl; [reflexivity|].
  rewrite max2_Fin. apply IH.
Qed.

Section monotone.
Variable g : Qc -> Qc.
Hypothesis g_mono : forall x y : Qc, (x < y)%Qc <-> (g x < g y)%Qc.

Lemma foldl_Qc_min_mono (ql : list Qc) (a : Qc) :
  foldl Qc_min (g a) (map g ql) = g (foldl Qc_min a ql).
Proof.
  revert a; induction ql as [|q ql IH]; intros a; simpl; [reflexivity|].
  rewrite <- IH. f_equal. unfold Qc_min.
  repeat case_bool_decide; try reflexivity; exfalso;
    match goal with H : ~ _ |- _ => apply H end;
    first [ apply (proj2 (g_mono _ _)); assumption
          | apply (proj1 (g_mono _ _)); assumption ].
Qed.

Lemma foldl_Qc_max_mono (ql : list Qc) (a : Qc) :
  foldl Qc_max (g a) (map g ql) = g (foldl Qc_max a ql).
Proof.
  revert a; induction ql as [|q ql IH]; intros a; simpl; [reflexivity|].
  rewrite <- IH. f_equal. unfold Qc_max.
  repeat case_bool_decide; try reflexivity; exfalso;
    match goal with H : ~ _ |- _ => apply H end;
    first [ apply (proj2 (g_mono _ _)); assumption
          | apply (proj1 (g_mono _ _)); assumption ].
Qed.
End monotone.

Lemma Qclt_minus_ne (mn mx : Qc) : (mn < mx)%Qc -> (mx + - mn)%Qc <> 0%Qc.
Proof.
  intros Hlt E. apply Qclt_minus_iff in Hlt. rewrite E in Hlt.
  by apply Qclt_not_eq in Hlt.
Qed.

Lemma rescale_mono (mn mx : Qc) :
  (mn < mx)%Qc -> forall x y : Qc, (x < y)%Qc <-> (rescale mn mx x < rescale mn mx y)%Qc.
Proof.
  intros Hlt x y. unfold rescale, Qcdiv, Qcminus.
  assert (0 < / (mx + - mn))%Qc as Hpos.
  { apply Qcinv_pos. by apply Qclt_minus_iff in Hlt. }
  rewrite <- (Qcmult_lt_mono_pos_r _ _ _ Hpos).
  apply Qcplus_lt_mono_r.
Qed.

Lemma rescale_min (mn mx : Qc) : (mn < mx)%Qc -> rescale mn mx mn = 0%Qc.
Proof. intros _. unfold rescale. unfold Qcdiv. replace (mn - mn)%Qc with 0%Qc by ring. ring. Qed.

Lemma rescale_max (mn mx : Qc) : (mn < mx)%Qc -> rescale mn mx mx = 1%Qc.
Proof.
  intros Hlt. unfold rescale. apply Qcmult_inv_r, Qclt_minus_ne, Hlt.
Qed.

Lemma scale_entry_Fin (mn mx q : Qc) :
  (mn < mx)%Qc ->
  ((Fin q - Fin mn) / (Fin mx - Fin mn) * (1 - 0) + 0)%num = Fin (rescale mn mx q)
  /\ ((Fin q - Fin mn) / (Fin mx - Fin mn))%num = Fin (rescale mn mx q).
Proof.
  intros Hlt. pose proof (Qclt_minus_ne _ _ Hlt) as Hne.
  cbn [num_sub num_add num_opp num_div num_mul].
  rewrite bool_decide_eq_false_2 by exact Hne.
  split; [|reflexivity]. cbn [num_mul num_add]. f_equal. unfold rescale.
  field. exact Hne.
Qed.

Lemma matrix_MinMaxScaler_finite (m : matrix) (mn mx : Qc) :
  finite_matrix m ->
  np_min (concat m) = Ok (Fin mn) ->
  np_max (concat m) = Ok (Fin mx) ->
  (mn < mx)%Qc ->
  matrix_MinMaxScaler m 0%num 1%num
  = Ok (map (map (fun v => ((v - Fin mn) / (Fin mx - Fin mn))%num)) m).
Proof.
  intros Hfin Hmin Hmax Hlt. unfold matrix_MinMaxScaler. rewrite Hmax, Hmin.
  cbn [bind num_eqb]. rewrite bool_decide_eq_false_2.
  2:{ intros E. rewrite E in Hlt. by apply Qclt_not_eq in Hlt. }
  f_equal. apply map_ext_Forall.
  eapply Forall_impl; [exact Hfin|]. intros r Hr. apply map_ext_Forall.
  eapply Forall_impl; [exact Hr|]. intros [q| | |] Hv; try discriminate.
  destruct (scale_entry_Fin mn mx q Hlt) as [-> ->]. reflexivity.
Qed.

(** A maximum and a minimum that are numbers leave room neither for NaN
    nor for an infinity in the array. *)
Lemma foldl_max2_Fin_inv (l : list num) (a : num) (b : Qc) :
  foldl max2 a l = Fin b ->
  Forall (fun v => v <> NaN /\ v <> PInf) (a :: l).
Proof.
  revert a; induction l as [|x l IH]; intros a Hfold; simpl in Hfold.
  - subst a. repeat constructor; discriminate.
  - apply IH in Hfold. apply Forall_cons in Hfold as [[Hnan Hinf] Hl].
    constructor; [|constructor; [|exact Hl]];
      destruct a as [p| | |], x as [q| | |]; unfold max2 in *; simpl in *;
      split; congruence.
Qed.

Lemma foldl_min2_Fin_inv (l : list num) (a : num) (b : Qc) :
  foldl min2 a l = Fin b ->
  Forall (fun v => v <> NaN /\ v <> NInf) (a :: l).
Proof.
  revert a; induction l as [|x l IH]; intros a Hfold; simpl in Hfold.
  - subst a. repeat constructor; discriminate.
  - apply IH in Hfold. apply Forall_cons in Hfold as [[Hnan Hinf] Hl].
    constructor; [|constructor; [|exact Hl]];
      destruct a as [p| | |], x as [q| | |]; unfold min2 in *; simpl in *;
      split; congruence.
Qed.

Lemma finite_extrema (l : list num) (mn mx : Qc) :
  np_min l = Ok (Fin mn) -> np_max l = Ok (Fin mx) -> finite_list l.
Proof.
  destruct l as [|a l]; [discriminate|]. simpl. intros [= Hmin] [= Hmax].
  apply foldl_min2_Fin_inv in Hmin. apply foldl_max2_Fin_inv in Hmax.
  eapply Forall_impl; [apply Forall_and; split; [exact Hmin|exact Hmax]|].
  intros [q| | |] [[? ?] [? ?]]; simpl; congruence.
Qed.

Lemma finite_concat_matrix (m : matrix) : finite_list (concat m) -> finite_matrix m.
Proof.
  induction m as [|r m IH]; simpl; intros Hfin; [constructor|].
  apply Forall_app in Hfin as [Hr Hm]. constructor; [exact Hr|by apply IH].
Qed.

(** C7, as the code has it.  A matrix whose minimum and maximum are
    numbers, the maximum above the minimum and their difference within the
    range of [float64], is mapped entry by entry with
    [(v - min)/(max - min)], and the result has minimum 0 and maximum 1; a
    matrix whose maximum equals its minimum is returned as it is. *)
Theorem matrix_MinMaxScaler_range (m : matrix) (mn mx : num) :
  np_min (concat m) = Ok mn ->
  np_max (concat m) = Ok mx ->
  (forall qn qx : Qc,
     mn = Fin qn -> mx = Fin qx -> (qn < qx)%Qc -> (qx - qn <= float64_max)%Qc ->
     exists m' : matrix,
       matrix_MinMaxScaler m 0%num 1%num = Ok m'
       /\ m' = map (map (fun v => ((v - mn) / (mx - mn))%num)) m
       /\ np_min (concat m') = Ok 0%num
       /\ np_max (concat m') = Ok 1%num)
  /\ (num_eqb mx mn = true -> matrix_MinMaxScaler m 0%num 1%num = Ok m).
Proof.
  intros Hmin Hmax. split.
  - intros qn qx -> -> Hlt _.
    pose proof (finite_extrema _ _ _ Hmin Hmax) as Hflat.
    pose proof (finite_concat_matrix m Hflat) as Hfin.
    destruct (finite_list_Fin _ Hflat) as [ql Hql].
    destruct ql as [|a ql]; [rewrite Hql in Hmin; discriminate|].
    eexists. split; [by apply matrix_MinMaxScaler_finite|]. split; [reflexivity|].
    rewrite Hql in Hmin, Hmax. simpl in Hmin, Hmax.
    rewrite foldl_min2_Fin in Hmin. rewrite foldl_max2_Fin in Hmax.
    injection Hmin as Hmin. injection Hmax as Hmax.
    rewrite <- concat_map, Hql, map_map.
    rewrite (map_ext _ (fun q => Fin (rescale qn qx q)))
      by (intros q; apply (scale_entry_Fin qn qx q Hlt)).
    rewrite <- (map_map (rescale qn qx) Fin). simpl.
    rewrite foldl_min2_Fin, foldl_max2_Fin.
    rewrite (foldl_Qc_min_mono _ (rescale_mono qn qx Hlt)).
    rewrite (foldl_Qc_max_mono _ (rescale_mono qn qx Hlt)).
    rewrite Hmin, Hmax. by rewrite rescale_min, rescale_max by exact Hlt.
  - intros Heq. unfold matrix_MinMaxScaler. rewrite Hmax, Hmin. simpl.
    by rewrite Heq.
Qed.

(** The scaler on the matrix [[1, 3], [2, 5]] and on the constant [[7, 7]]. *)
Lemma matrix_MinMaxScaler_range_witness :
  matrix_MinMaxScaler [[frac 1 1; frac 3 1]; [frac 2 1; frac 5 1]] 0%num 1%num
  = Ok [[0%num; frac 1 2]; [frac 1 4; 1%num]]
  /\ matrix_MinMaxScaler [[frac 7 1; frac 7 1]] 0%num 1%num
     = Ok [[frac 7 1; frac 7 1]].
Proof.
  split.
  - destruct (matrix_MinMaxScaler_range
      [[frac 1 1; frac 3 1]; [frac 2 1; frac 5 1]] (frac 1 1) (frac 5 1))
      as [H _]; [by_compute|by_compute|].
    destruct (H (Q2Qc 1) (Q2Qc 5)) as (m' & -> & -> & _).
    + reflexivity.
    + reflexivity.
    + by_compute.
    + by_compute.
    + by_compute.
  - apply (matrix_MinMaxScaler_range [[frac 7 1; frac 7 1]] (frac 7 1) (frac 7 1));
      by_compute.
Defined.

(** The maximum of [[0, inf]] is above its minimum, and the scaled array is
    [[0, NaN]]: [inf / inf] is NaN.  Its maximum is NaN, not 1. *)
Lemma matrix_MinMaxScaler_infinite_entry :
  np_min (concat [[0; PInf]]%num) = Ok 0%num
  /\ np_max (concat [[0; PInf]]%num) = Ok PInf
  /\ num_ltb 0%num PInf = true
  /\ matrix_MinMaxScaler [[0; PInf]]%num 0%num 1%num = Ok [[0; NaN]]%num
  /\ np_max (concat [[0; NaN]]%num) = Ok NaN
  /\ np_max (concat [[0; NaN]]%num) <> Ok 1%num.
Proof. repeat split; by_compute. Qed.

(** ** The condensed vector of squareform *)

Lemma rows_offset_closed (n k x : nat) :
  (k + x <= n)%nat ->
  2 * Z.of_nat (rows_offset n k x)
  = 2 * Z.of_nat x * (Z.of_nat n - 1 - Z.of_nat k) - Z.of_nat x * (Z.of_nat x - 1).
Proof.
  revert k; induction x as [|x IH]; intros k Hle; simpl rows_offset; [lia|].
  rewrite Nat2Z.inj_add, Z.mul_add_distr_l, IH by lia. nia.
Qed.

Lemma squareform_pos_rows_offset (n x y : nat) :
  (x < y < n)%nat ->
  squareform_pos (Z.of_nat n) (Z.of_nat x) (Z.of_nat y)
  = Z.of_nat (rows_offset n 0 x + (y - S x)).
Proof.
  intros Hxy. unfold squareform_pos.
  pose proof (rows_offset_closed n 0 x ltac:(lia)) as H.
  assert (Z.of_nat x * (Z.of_nat x + 1) = 2 * (Z.of_nat x * (Z.of_nat x + 1) / 2)) as Hdiv.
  { apply Z_div_exact_2; [lia|].
    rewrite Z.mul_mod, Z.add_mod by lia.
    destruct (Z.mod_pos_bound (Z.of_nat x) 2 ltac:(lia)).
    assert (Z.of_nat x mod 2 = 0 \/ Z.of_nat x mod 2 = 1) as [->| ->] by lia; reflexivity. }
  lia.
Qed.

Lemma upper_from_cons {A} (k : nat) (r : list A) (m : list (list A)) :
  upper_from k (r :: m) = drop (S k) r ++ upper_from (S k) m.
Proof.
  unfold upper_from. rewrite imap_cons. simpl. rewrite Nat.add_0_r. f_equal. f_equal.
  apply imap_ext. intros i r' _. simpl. by rewrite Nat.add_succ_r.
Qed.

Lemma upper_from_lookup {A} (n : nat) (m : list (list A)) (k x y : nat)
    (r : list A) (v : A) :
  Forall (fun r => length r = n) m ->
  m !! x = Some r -> r !! y = Some v -> (k + x < y)%nat ->
  upper_from k m !! (rows_offset n k x + (y - S (k + x)))%nat = Some v.
Proof.
  revert m k; induction x as [|x IH]; intros [|r0 m] k Hall Hx Hy Hlt;
    try discriminate; rewrite upper_from_cons.
  - injection Hx as ->. simpl rows_offset. rewrite Nat.add_0_r in *.
    pose proof (lookup_lt_Some _ _ _ Hy) as Hlen.
    rewrite lookup_app_l by (rewrite length_drop; lia).
    rewrite lookup_drop. rewrite <- Hy. f_equal. lia.
  - apply Forall_cons in Hall as [Hr0 Hall]. simpl in Hx.
    pose proof (lookup_lt_Some _ _ _ Hy) as Hlen.
    pose proof (Forall_lookup_1 _ _ _ _ Hall Hx) as Hr. simpl in Hr.
    rewrite lookup_app_r by (rewrite length_drop; simpl; lia).
    rewrite length_drop, Hr0. simpl rows_offset.
    replace (n - S k + rows_offset n (S k) x + (y - S (k + S x)) - (n - S k))%nat
      with (rows_offset n (S k) x + (y - S (S k + x)))%nat by lia.
    apply (IH m (S k)); [assumption|assumption|assumption|lia].
Qed.

Lemma py_index_nat {A} (l : list A) (i : nat) (v : A) :
  l !! i = Some v -> py_index l (Z.of_nat i) = Ok v.
Proof.
  intros H. pose proof (lookup_lt_Some _ _ _ H) as Hlt. unfold py_index.
  destruct (Z.ltb_spec (Z.of_nat i) 0) as [?|_]; [lia|].
  destruct (Z.leb_spec 0 (Z.of_nat i)) as [_|?]; [|lia].
  destruct (Z.ltb_spec (Z.of_nat i) (Z.of_nat (length l))) as [_|?]; [|lia].
  simpl. by rewrite Nat2Z.id, H.
Qed.

(** The condensed vector holds the entry (x, y), x < y, of a square array
    at [squareform_pos n x y]. *)
Lemma squareform_lookup {A} (n : nat) (m : list (list A)) (vec : list A)
    (x y : nat) (v : A) :
  length m = n -> Forall (fun r => length r = n) m ->
  (x < y < n)%nat ->
  m !! x ≫= (.!! y) = Some v ->
  squareform m = Ok vec ->
  py_index vec (squareform_pos (Z.of_nat n) (Z.of_nat x) (Z.of_nat y)) = Ok v.
Proof.
  intros Hlen Hall Hxy Hv Hsq.
  destruct (m !! x) as [r|] eqn:Hx; [simpl in Hv|discriminate].
  unfold squareform in Hsq. destruct (is_square m); [|discriminate].
  injection Hsq as <-.
  pose proof (upper_from_lookup n m 0 x y r v Hall Hx Hv ltac:(lia)) as H.
  change (upper_from 0 m) with (upper_triangle m) in H.
  rewrite squareform_pos_rows_offset by exact Hxy.
  by apply py_index_nat.
Qed.

Lemma consecutive_even (x : Z) : 2 * (x * (x - 1) / 2) = x * (x - 1).
Proof.
  symmetry. apply Z_div_exact_2; [lia|].
  rewrite Z.mul_mod, Zminus_mod by lia.
  destruct (Z.mod_pos_bound x 2 ltac:(lia)).
  assert (x mod 2 = 0 \/ x mod 2 = 1) as [-> | ->] by lia; reflexivity.
Qed.

(** The index of [selfDistance] lies [x (x - 1) / 2] places before it. *)
Lemma condensed_index_squareform_pos (n x y : Z) :
  condensed_index n x y = squareform_pos n x y - x * (x - 1) / 2.
Proof.
  unfold condensed_index, squareform_pos.
  replace (x * (x + 1)) with (x * (x - 1) + x * 2) by ring.
  rewrite Z.div_add by lia. pose proof (consecutive_even x). nia.
Qed.

Lemma condensed_index_correct_iff (n x y : Z) :
  0 <= x -> condensed_index n x y = squareform_pos n x y <-> x <= 1.
Proof.
  intros Hx. rewrite condensed_index_squareform_pos. split.
  - intros H. assert (x * (x - 1) / 2 = 0) as H0 by lia.
    destruct (Z_le_gt_dec x 1) as [|Hgt]; [assumption|exfalso].
    assert (1 <= x * (x - 1) / 2); [|lia].
    apply Z.div_le_lower_bound; nia.
  - intros Hle. assert (x * (x - 1) = 0) as -> by nia.
    rewrite Z.div_0_l by lia. lia.
Qed.

Lemma condensed_index_bounds (n x y : nat) :
  (x < y < n)%nat ->
  0 <= condensed_index (Z.of_nat n) (Z.of_nat x) (Z.of_nat y)
     < Z.of_nat (n * (n - 1) / 2).
Proof.
  intros Hxy. unfold condensed_index. split; [nia|].
  rewrite Nat2Z.inj_div, Nat2Z.inj_mul, Nat2Z.inj_sub by lia.
  change (Z.of_nat 2) with 2. change (Z.of_nat 1) with 1.
  assert (Z.of_nat x * (Z.of_nat n - Z.of_nat x) + (Z.of_nat y - Z.of_nat x) - 1 + 1
          <= Z.of_nat n * (Z.of_nat n - 1) / 2); [|lia].
  apply Z.div_le_lower_bound; [lia|].
  assert (0 <= (Z.of_nat n - 1 - Z.of_nat x) * (Z.of_nat n - 2 - Z.of_nat x)) by nia.
  assert (0 <= Z.of_nat x * (Z.of_nat x - 1)) by nia.
  nia.
Qed.

(** ** No position of the condensed vector holds two pairs *)

Lemma index_matrix_lookup (n i j : nat) :
  (i < n)%nat -> (j < n)%nat ->
  index_matrix n !! i ≫= (.!! j) = Some (i, j).
Proof.
  intros Hi Hj. unfold index_matrix.
  change (map ?f ?l) with (f <$> l). rewrite list_lookup_fmap, lookup_seq_lt by assumption.
  simpl. change (map ?f ?l) with (f <$> l).
  by rewrite list_lookup_fmap, lookup_seq_lt.
Qed.

Lemma index_matrix_rows (n : nat) :
  length (index_matrix n) = n /\ Forall (fun r => length r = n) (index_matrix n).
Proof.
  unfold index_matrix. split; [by rewrite length_map, length_seq|].
  apply Forall_forall. intros r Hr. apply list_elem_of_fmap in Hr as (i & -> & _).
  by rewrite length_map, length_seq.
Qed.

Lemma index_matrix_square (n : nat) : is_square (index_matrix n) = true.
Proof.
  destruct (index_matrix_rows n) as [Hlen Hrows]. unfold is_square.
  apply forallb_forall. intros r Hr. apply list_elem_of_In in Hr.
  rewrite Forall_forall in Hrows. rewrite (Hrows r Hr), Hlen. apply Nat.eqb_refl.
Qed.

Lemma upper_from_NoDup {A} (key : A -> nat) (k : nat) (m : list (list A)) :
  Forall (fun r => NoDup r) m ->
  (forall i r p, m !! i = Some r -> p ∈ r -> key p = (k + i)%nat) ->
  NoDup (upper_from k m)
  /\ forall p, p ∈ upper_from k m -> (k <= key p)%nat.
Proof.
  revert k; induction m as [|r m IH]; intros k Hnd Hkey.
  - split; [constructor|]. intros p Hp. by apply elem_of_nil in Hp.
  - rewrite upper_from_cons. apply Forall_cons in Hnd as [Hr Hnd].
    destruct (IH (S k) Hnd) as [IHnd IHkey].
    { intros i r' p Hr' Hp. rewrite (Hkey (S i) r' p Hr' Hp). lia. }
    assert (Hrow : forall p, p ∈ drop (S k) r -> key p = k).
    { intros p Hp. apply subseteq_drop in Hp.
      rewrite (Hkey 0%nat r p eq_refl Hp). lia. }
    split.
    + apply NoDup_app. split; [|split; [|exact IHnd]].
      * apply (sublist_NoDup (drop (S k) r) r); [exact Hr|apply sublist_drop].
      * intros p Hp Hp'. apply Hrow in Hp. apply IHkey in Hp'. lia.
    + intros p Hp. apply elem_of_app in Hp as [Hp|Hp].
      * rewrite (Hrow p Hp). lia.
      * apply IHkey in Hp. lia.
Qed.

Lemma upper_triangle_index_matrix_NoDup (n : nat) :
  NoDup (upper_triangle (index_matrix n)).
Proof.
  change (upper_triangle (index_matrix n)) with (upper_from 0 (index_matrix n)).
  apply (upper_from_NoDup fst).
  - apply Forall_forall. intros r Hr. unfold index_matrix in Hr.
    apply list_elem_of_fmap in Hr as (i & -> & _).
    assert (Hinj : Inj (=) (=) (fun j : nat => (i, j))) by (by intros j j' [= ->]).
    apply (NoDup_fmap_2 (fun j : nat => (i, j))), NoDup_seq.
  - intros i r p Hr Hp. unfold index_matrix in Hr.
    change (map ?f ?l) with (f <$> l) in Hr. rewrite list_lookup_fmap in Hr.
    destruct (seq 0 n !! i) as [i'|] eqn:E; [|discriminate].
    apply lookup_seq in E as [-> _]. injection Hr as <-.
    apply list_elem_of_fmap in Hp as (j & -> & _). reflexivity.
Qed.

Lemma py_index_nonneg {A} (l : list A) (k : Z) (v : A) :
  0 <= k -> py_index l k = Ok v -> l !! Z.to_nat k = Some v.
Proof.
  intros Hk. unfold py_index.
  destruct (Z.ltb_spec k 0) as [?|_]; [lia|].
  destruct (_ && _); [|discriminate].
  destruct (l !! Z.to_nat k); [|discriminate]. by intros [= ->].
Qed.

(** The index of [selfDistance] decodes to the pair it was computed for
    exactly when the first region is region 0 or region 1. *)
Lemma condensed_index_decodes_iff (n x y : nat) :
  (x < y < n)%nat ->
  decode_condensed n (condensed_index (Z.of_nat n) (Z.of_nat x) (Z.of_nat y))
  = Ok (x, y)
  <-> (x <= 1)%nat.
Proof.
  intros Hxy. destruct (index_matrix_rows n) as [Hlen Hrows].
  assert (Hpos : py_index (upper_triangle (index_matrix n))
                   (squareform_pos (Z.of_nat n) (Z.of_nat x) (Z.of_nat y))
                 = Ok (x, y)).
  { apply (squareform_lookup n (index_matrix n)); try assumption.
    - apply index_matrix_lookup; lia.
    - unfold squareform. by rewrite index_matrix_square. }
  unfold decode_condensed, squareform. rewrite index_matrix_square. cbn [bind].
  pose proof (condensed_index_correct_iff (Z.of_nat n) (Z.of_nat x) (Z.of_nat y)
                ltac:(lia)) as Hiff.
  split.
  - intros Hdec. apply Nat2Z.inj_le, Hiff.
    pose proof (condensed_index_bounds n x y Hxy) as [Hlo _].
    apply py_index_nonneg in Hdec; [|assumption].
    apply py_index_nonneg in Hpos.
    2:{ rewrite squareform_pos_rows_offset by assumption. lia. }
    pose proof (NoDup_lookup _ _ _ _ (upper_triangle_index_matrix_NoDup n) Hdec Hpos) as E.
    apply Z2Nat.inj in E; [assumption|assumption|].
    rewrite squareform_pos_rows_offset by assumption. lia.
  - intros Hle. apply Nat2Z.inj_le in Hle. apply Hiff in Hle. by rewrite Hle.
Qed.

(** ** Loops *)

Lemma elem_of_range (lo hi a : nat) : a ∈ range lo hi <-> (lo <= a < hi)%nat.
Proof. unfold range. rewrite elem_of_seq. lia. Qed.

(** A loop whose body keeps an invariant and never raises there runs to the
    end and keeps the invariant. *)
Lemma for_each_invariant {A S} (P : S -> Prop) (body : A -> S -> result S)
    (l : list A) (s : S) :
  P s ->
  (forall a s, a ∈ l -> P s -> exists s', body a s = Ok s' /\ P s') ->
  exists s', for_each body l s = Ok s' /\ P s'.
Proof.
  revert s; induction l as [|a l IH]; intros s Hs Hbody; simpl.
  - by exists s.
  - destruct (Hbody a s) as (s1 & -> & Hs1); [left|assumption|]. simpl.
    apply IH; [assumption|]. intros a' s' Ha'. apply Hbody. by right.
Qed.

(** A property kept by every step that returns holds when the loop returns. *)
Lemma for_each_preserves {A S} (P : S -> Prop) (body : A -> S -> result S)
    (l : list A) (s s' : S) :
  for_each body l s = Ok s' ->
  P s ->
  (forall a s s1, a ∈ l -> P s -> body a s = Ok s1 -> P s1) ->
  P s'.
Proof.
  revert s; induction l as [|a l IH]; intros s Hrun Hs Hbody; simpl in Hrun.
  - by injection Hrun as <-.
  - destruct (body a s) as [s1|e] eqn:E; [simpl in Hrun|discriminate].
    apply (IH s1); [assumption|by eapply Hbody; [left| |]|].
    intros a' s2 s3 Ha'. apply Hbody. by right.
Qed.

(** ** computeModularity *)

Lemma fill_diagonal_length (a : matrix) (val : num) :
  length (fill_diagonal a val) = length a.
Proof. apply length_imap. Qed.

Lemma fill_diagonal_lookup (a : matrix) (val : num) (i : nat) :
  fill_diagonal a val !! i = (fun r => <[i := val]> r) <$> (a !! i).
Proof. unfold fill_diagonal. by rewrite list_lookup_imap. Qed.

Lemma np_sum_finite (l : list num) : finite_list l -> exists q, np_sum l = Fin q.
Proof.
  intros Hfin. unfold np_sum. generalize 0%Qc.
  induction Hfin as [|v l Hv _ IH]; intros q0; simpl.
  - by exists q0.
  - destruct v as [q| | |]; try discriminate. apply IH.
Qed.


(** The loops over all pairs [v < w] of [range(n)]. *)
Lemma pair_loop_invariant {S} (P : S -> Prop) (body : nat -> nat -> S -> result S)
    (n : nat) (s : S) :
  P s ->
  (forall v w s, (v < w < n)%nat -> P s -> exists s', body v w s = Ok s' /\ P s') ->
  exists s',
    for_each (fun v s => for_each (fun w s => body v w s) (range (v + 1) n) s)
             (range 0 n) s = Ok s'
    /\ P s'.
Proof.
  intros Hs Hbody. apply for_each_invariant; [assumption|].
  intros v s1 Hv Hs1. apply for_each_invariant; [assumption|].
  intros w s2 Hw Hs2. apply Hbody; [|assumption].
  apply elem_of_range in Hv, Hw. lia.
Qed.

Lemma pair_loop_preserves {S} (P : S -> Prop) (body : nat -> nat -> S -> result S)
    (n : nat) (s s' : S) :
  for_each (fun v s => for_each (fun w s => body v w s) (range (v + 1) n) s)
           (range 0 n) s = Ok s' ->
  P s ->
  (forall v w s s1, (v < w < n)%nat -> P s -> body v w s = Ok s1 -> P s1) ->
  P s'.
Proof.
  intros Hrun Hs Hbody. eapply for_each_preserves; [exact Hrun|exact Hs|].
  intros v s1 s2 Hv Hs1 Hrun1. eapply for_each_preserves; [exact Hrun1|exact Hs1|].
  intros w s3 s4 Hw Hs3. apply Hbody; [|assumption].
  apply elem_of_range in Hv, Hw. lia.
Qed.

Lemma get_item_lt {A} (l : list A) (i : nat) :
  (i < length l)%nat -> exists a, l !! i = Some a /\ get_item l i = Ok a.
Proof.
  intros Hlt. destruct (lookup_lt_is_Some_2 l i Hlt) as [a Ha].
  exists a. unfold get_item. by rewrite Ha.
Qed.

Lemma fill_diagonal_square (n : nat) (a : matrix) (val : num) :
  square_of n a -> square_of n (fill_diagonal a val).
Proof.
  intros [Hlen Hrows]. split; [by rewrite fill_diagonal_length|].
  apply Forall_lookup_2. intros i r Hr. rewrite fill_diagonal_lookup in Hr.
  destruct (a !! i) as [r0|] eqn:E; [|discriminate]. injection Hr as <-.
  rewrite length_insert. by apply (Forall_lookup_1 _ _ _ _ Hrows E).
Qed.

Lemma square_of_get_item2 (n : nat) (a : matrix) (v w : nat) :
  square_of n a -> (v < n)%nat -> (w < n)%nat ->
  exists r x, a !! v = Some r /\ r !! w = Some x
              /\ get_item a v = Ok r /\ get_item2 a v w = Ok x.
Proof.
  intros [Hlen Hrows] Hv Hw.
  destruct (get_item_lt a v) as (r & Hr & Hgr); [lia|].
  pose proof (Forall_lookup_1 _ _ _ _ Hrows Hr) as Hlr. simpl in Hlr.
  destruct (get_item_lt r w) as (x & Hx & Hgx); [lia|].
  exists r, x. repeat split; try assumption.
  unfold get_item2. rewrite Hgr. simpl. exact Hgx.
Qed.

(** C10, as the code has it.  The call overwrites the diagonal of the
    caller's array with zeros; the shape of the array and every entry off
    the diagonal are as before. *)
Theorem computeModularity_overwrites_diagonal (adjacency : matrix)
    (regions_label_list : list Z) :
  let after := fst (computeModularity adjacency regions_label_list) in
  length after = length adjacency
  /\ forall i r, adjacency !! i = Some r ->
       exists r', after !! i = Some r'
         /\ length r' = length r
         /\ (forall j, j <> i -> r' !! j = r !! j)
         /\ ((i < length r)%nat -> r' !! i = Some 0%num).
Proof.
  simpl. split; [apply fill_diagonal_length|].
  intros i r Hr. exists (<[i := 0%num]> r).
  rewrite fill_diagonal_lookup, Hr. split; [reflexivity|].
  split; [apply length_insert|]. split.
  - intros j Hne. by apply list_lookup_insert_ne.
  - intros Hlt. by apply list_lookup_insert_eq.
Qed.

(** Row 0 of a fully connected pair of regions after the call. *)
Lemma computeModularity_overwrites_diagonal_witness :
  exists r',
    fst (computeModularity [[1; 1]; [1; 1]]%num [0; 1]) !! 0%nat = Some r'
    /\ r' !! 0%nat = Some 0%num
    /\ r' !! 1%nat = Some 1%num.
Proof.
  destruct (computeModularity_overwrites_diagonal [[1; 1]; [1; 1]]%num [0; 1])
    as [_ H].
  destruct (H 0%nat [1; 1]%num eq_refl) as (r' & Hr' & _ & Hoff & Hdiag).
  exists r'. split; [exact Hr'|]. split.
  - apply Hdiag. simpl. lia.
  - rewrite (Hoff 1%nat) by lia. reflexivity.
Defined.

(** An adjacency matrix with self-loops does not come back as it went in. *)
Lemma computeModularity_changes_argument :
  fst (computeModularity [[1; 1]; [1; 1]]%num [0; 1])
  <> [[1; 1]; [1; 1]]%num.
Proof. by_compute. Qed.




(** A sum that is a number has only numbers for terms. *)
Lemma np_sum_Fin_inv (l : list num) (q : Qc) : np_sum l = Fin q -> finite_list l.
Proof.
  unfold np_sum. generalize 0%num. induction l as [|x l IH]; intros a Hsum.
  - constructor.
  - simpl in Hsum. pose proof (IH _ Hsum) as Hl. constructor; [|exact Hl].
    assert (isfinite (a + x)%num = true) as Hax.
    { clear IH Hl. revert Hsum. generalize (a + x)%num.
      induction l as [|y l IH]; intros b Hb; simpl in Hb; [by subst b|].
      apply IH in Hb. by destruct b, y. }
    by destruct a, x.
Qed.

Lemma Qc_double_pos_ne (w : Qc) : (0 < w)%Qc -> (2 * w)%Qc <> 0%Qc.
Proof.
  intros Hw E. apply Qcmult_integral in E as [E|E]; [discriminate|].
  rewrite E in Hw. by apply Qclt_not_eq in Hw.
Qed.

(** C9, as the code has it.  For edge weights that are numbers and not
    negative, with a positive total that stays below [weight_bound], and
    every region under a label of its own, the modularity is exactly 0. *)
Theorem computeModularity_singletons (adjacency : matrix)
    (regions_label_list : list Z) (total : Qc) :
  square_of (length regions_label_list) adjacency ->
  NoDup regions_label_list ->
  Forall (Forall nonneg) (fill_diagonal adjacency 0%num) ->
  np_sum (concat (fill_diagonal adjacency 0%num)) = Fin total ->
  (0 < total)%Qc ->
  (total <= weight_bound)%Qc ->
  snd (computeModularity adjacency regions_label_list) = Ok 0%num.
Proof.
  intros Hsq Hnodup _ Htotal Hpos _. unfold computeModularity. cbn [snd].
  pose proof (finite_concat_matrix _ (np_sum_Fin_inv _ _ Htotal)) as Hfin.
  rewrite Htotal.
  apply (fill_diagonal_square _ _ 0%num) in Hsq.
  set (adj := fill_diagonal adjacency 0%num) in *.
  set (n := length regions_label_list) in *.
  pose proof (Qc_double_pos_ne total Hpos) as Hne.
  edestruct (pair_loop_invariant (fun s : num => s = 0%num)) as (modularity & -> & ->);
    [reflexivity| |].
  - intros v w s Hvw ->.
    destruct (square_of_get_item2 n adj v w Hsq) as (rv & a_vw & Hrv & Ha & -> & ->); [lia..|].
    destruct (square_of_get_item2 n adj w v Hsq) as (rw & ? & Hrw & _ & -> & _); [lia..|].
    destruct (get_item_lt regions_label_list v) as (lv & Hlv & ->); [lia|].
    destruct (get_item_lt regions_label_list w) as (lw & Hlw & ->); [lia|].
    cbn [bind].
    destruct (Z.eqb_spec lv lw) as [->|_].
    { pose proof (NoDup_lookup _ _ _ _ Hnodup Hlv Hlw). lia. }
    pose proof (Forall_lookup_1 _ _ _ _ Hfin Hrv) as Hfv. simpl in Hfv.
    pose proof (Forall_lookup_1 _ _ _ _ Hfin Hrw) as Hfw. simpl in Hfw.
    destruct (np_sum_finite rv Hfv) as [dv ->].
    destruct (np_sum_finite rw Hfw) as [dw ->].
    pose proof (Forall_lookup_1 _ _ _ _ Hfv Ha) as Hfa. simpl in Hfa.
    destruct a_vw as [a| | |]; try discriminate.
    eexists; split; [reflexivity|].
    cbn [num_mul num_div num_sub num_add num_opp].
    rewrite bool_decide_eq_false_2 by exact Hne.
    cbn [num_mul num_div num_sub num_add num_opp]. apply (f_equal Fin). ring.
  - simpl. rewrite bool_decide_eq_false_2 by exact Hne.
    apply (f_equal Ok), (f_equal Fin). unfold Qcdiv. ring.
Qed.

(** Two connected regions, each a cluster of its own. *)
Lemma computeModularity_singletons_witness :
  snd (computeModularity [[1; 1]; [1; 1]]%num [0; 1]) = Ok 0%num.
Proof.
  apply (computeModularity_singletons [[1; 1]; [1; 1]]%num [0; 1] 2%Qc).
  - split; [reflexivity|]. repeat constructor.
  - apply (bool_decide_unpack _). vm_compute. exact I.
  - repeat constructor; eexists; (split; [reflexivity|by_compute]).
  - by_compute.
  - reflexivity.
  - by_compute.
Defined.

(** Two regions joined by an edge of infinite weight, each a cluster of its
    own: the total weight is positive, [inf * inf / (2 * inf)] is NaN, and
    the modularity is NaN. *)
Lemma computeModularity_infinite_weight :
  np_sum (concat (fill_diagonal [[0; PInf]; [PInf; 0]]%num 0%num)) = PInf
  /\ num_ltb 0%num PInf = true
  /\ snd (computeModularity [[0; PInf]; [PInf; 0]]%num [0; 1]) = Ok NaN
  /\ snd (computeModularity [[0; PInf]; [PInf; 0]]%num [0; 1]) <> Ok 0%num.
Proof. repeat split; by_compute. Qed.

(** ** selfDistance *)

Lemma for_each_ext {A S} (body1 body2 : A -> S -> result S) (l : list A) (s : S) :
  (forall a s, a ∈ l -> body1 a s = body2 a s) ->
  for_each body1 l s = for_each body2 l s.
Proof.
  revert s; induction l as [|a l IH]; intros s Hext; simpl; [reflexivity|].
  rewrite Hext by left. destruct (body2 a s); simpl; [|reflexivity].
  apply IH. intros a' s' Ha'. apply Hext. by right.
Qed.

Lemma num_sq_sub_comm (a b : num) :
  ((a - b) * (a - b))%num = ((b - a) * (b - a))%num.
Proof.
  destruct a as [p| | |], b as [q| | |]; try reflexivity.
  simpl. apply (f_equal Fin). ring.
Qed.

Lemma sq_diff_sum_comm (rx ry : list num) : sq_diff_sum rx ry = sq_diff_sum ry rx.
Proof.
  unfold sq_diff_sum. f_equal.
  revert ry; induction rx as [|a rx IH]; intros [|b ry]; simpl; try reflexivity.
  by rewrite num_sq_sub_comm, IH.
Qed.

Lemma get_item_error {A} (l : list A) (i : nat) (e : exn) :
  get_item l i = Raise e -> e = IndexError.
Proof. unfold get_item. destruct (l !! i); congruence. Qed.

Lemma distance_rows_comm (w : gmap string num) (x y : nat) (ds : list (string * matrix)) :
  distance_rows w x y ds = distance_rows w y x ds.
Proof.
  unfold distance_rows. apply for_each_ext. intros [var var_matr] distance _.
  destruct (lookup_weight w var); simpl; [|reflexivity].
  destruct (get_item var_matr x) as [rx|ex] eqn:Ex,
           (get_item var_matr y) as [ry|ey] eqn:Ey; simpl.
  - by rewrite sq_diff_sum_comm.
  - reflexivity.
  - reflexivity.
  - by rewrite (get_item_error _ _ _ Ex), (get_item_error _ _ _ Ey).
Qed.

(** Without a component vector, step 3c never reads the condensed index. *)
Lemma distance_2d_of_no_component (w : gmap string num) (k k' : Z) (ds_2d : ds_2d_t) :
  Forall (fun p => p.2 = []) ds_2d ->
  distance_2d_of w k ds_2d = distance_2d_of w k' ds_2d.
Proof.
  intros Hempty. unfold distance_2d_of. apply for_each_ext.
  intros [var var_dict] d Hin.
  rewrite Forall_forall in Hempty. apply Hempty in Hin. simpl in Hin. by subst.
Qed.

(** X27. When no pairwise variable contributes a component vector, the
    distance from x to y is the distance from y to x: the time-series part
    and the scalar part are symmetric. *)
Theorem selfDistance_symmetric_without_pairwise (ds_ts : ds_ts_t) (ds_1d : ds_1d_t)
    (ds_2d : ds_2d_t) (n_regions x y : nat)
    (var_weightings : option (gmap string num))
    (part_weightings : option (list num)) :
  Forall (fun p => p.2 = []) ds_2d ->
  selfDistance ds_ts ds_1d ds_2d n_regions x y var_weightings part_weightings
  = selfDistance ds_ts ds_1d ds_2d n_regions y x var_weightings part_weightings.
Proof.
  intros Hempty. unfold selfDistance.
  rewrite (distance_rows_comm _ x y ds_ts), (distance_rows_comm _ x y ds_1d).
  by rewrite (distance_2d_of_no_component _ _
    (condensed_index (Z.of_nat n_regions) (Z.of_nat y) (Z.of_nat x)) _ Hempty).
Qed.

(** Three regions, one scalar variable and a pairwise variable without a
    valid component. *)
Lemma selfDistance_symmetric_without_pairwise_witness :
  selfDistance [] [("capacity"%string, [[0]; [frac 1 2]; [1]]%num)]
               [("distance"%string, [])] 3 0 2 None None
  = selfDistance [] [("capacity"%string, [[0]; [frac 1 2]; [1]]%num)]
               [("distance"%string, [])] 3 2 0 None None.
Proof.
  apply (selfDistance_symmetric_without_pairwise
           [] [("capacity"%string, [[0]; [frac 1 2]; [1]]%num)]
           [("distance"%string, [])] 3 0 2 None None).
  repeat constructor.
Defined.

Lemma pairwise_example_preprocessed :
  preprocessDataset_toDissimilarity pairwise_example
  = Ok ([], [], pairwise_example_ds_2d).
Proof. by_compute. Qed.

(** C2. On the preprocessed dataset [pairwise_example] of four regions the
    distance from region 1 to region 2 is 1, and from region 2 to region 1
    it is 0.  For the pair (1, 2) the index that [selfDistance] computes is
    3, the position of the entry of (1, 2); for the pair (2, 1) it is 2,
    the position of the entry of the pair (0, 3). *)
Theorem selfDistance_not_symmetric :
  preprocessDataset_toDissimilarity pairwise_example
  = Ok ([], [], pairwise_example_ds_2d)
  /\ condensed_index 4 1 2 = 3
  /\ decode_condensed 4 3 = Ok (1%nat, 2%nat)
  /\ condensed_index 4 2 1 = 2
  /\ decode_condensed 4 2 = Ok (0%nat, 3%nat)
  /\ selfDistance [] [] pairwise_example_ds_2d 4 1 2 None None = Ok 1%num
  /\ selfDistance [] [] pairwise_example_ds_2d 4 2 1 None None = Ok 0%num
  /\ selfDistance [] [] pairwise_example_ds_2d 4 1 2 None None
     <> selfDistance [] [] pairwise_example_ds_2d 4 2 1 None None.
Proof. repeat split; by_compute. Qed.

(** C1. For four regions, the index that [selfDistance] computes for the
    pair (2, 3) is 4, the position where the condensed vector stores the
    entry of the pair (1, 3); the entry of (2, 3) is stored at 5.  On the
    preprocessed dataset [pairwise_example] the regions 2 and 3 are
    connected, their stored dissimilarity is 0, and [selfDistance] answers
    1, the square of the entry of the regions 1 and 3. *)
Theorem condensed_index_reads_other_pair :
  condensed_index 4 2 3 = 4
  /\ decode_condensed 4 (condensed_index 4 2 3) = Ok (1%nat, 3%nat)
  /\ decode_condensed 4 5 = Ok (2%nat, 3%nat)
  /\ preprocessDataset_toDissimilarity pairwise_example
     = Ok ([], [], pairwise_example_ds_2d)
  /\ py_index [1; 1; 0; 1; 1; 0]%num (squareform_pos 4 2 3) = Ok 0%num
  /\ selfDistance [] [] pairwise_example_ds_2d 4 2 3 None None = Ok 1%num.
Proof.
  split; [reflexivity|]. split; [reflexivity|]. split; [reflexivity|].
  repeat split; by_compute.
Qed.

(** ** selfDistanceMatrix *)

Lemma get_item2_entry (m : matrix) (i j : nat) (v : num) :
  entry m i j = Some v -> get_item2 m i j = Ok v.
Proof.
  unfold entry, get_item2, get_item. destruct (m !! i) as [r|]; [simpl|discriminate].
  by intros ->.
Qed.

Lemma transpose_length {A} (c : nat) (m : list (list A)) :
  Forall (fun r => length r = c) m -> length (transpose c m) = c.
Proof.
  induction 1 as [|r m Hr _ IH]; simpl; [apply length_replicate|].
  rewrite length_zip_with. lia.
Qed.

Lemma transpose_lookup {A} (c : nat) (m : list (list A)) (i j : nat) :
  Forall (fun r => length r = c) m -> (i < c)%nat ->
  transpose c m !! i ≫= (.!! j) = m !! j ≫= (.!! i).
Proof.
  intros Hrows Hi. revert j; induction Hrows as [|r m Hr Hrows IH]; intros j; simpl.
  - rewrite lookup_replicate_2 by assumption. simpl. by rewrite !lookup_nil.
  - rewrite lookup_zip_with.
    destruct (lookup_lt_is_Some_2 r i ltac:(lia)) as [x Hx].
    destruct (lookup_lt_is_Some_2 (transpose c m) i) as [col Hcol].
    { rewrite transpose_length by assumption. lia. }
    rewrite Hx, Hcol. simpl. specialize (IH). rewrite Hcol in IH. simpl in IH.
    destruct j as [|j]; simpl; [by rewrite Hx|]. apply IH.
Qed.

(** The diagonal read from row [k] on. *)
Lemma diagonal_from_zero (k : nat) (m : matrix) :
  (forall i r, m !! i = Some r -> r !! (k + i)%nat = Some 0%num) ->
  omap id (imap (fun i r => r !! (k + i)%nat) m) = replicate (length m) 0%num.
Proof.
  revert k; induction m as [|r m IH]; intros k Hzero; [reflexivity|].
  rewrite imap_cons. simpl. rewrite (Hzero 0%nat r eq_refl). simpl. f_equal.
  rewrite <- (IH (S k)).
  - f_equal. apply imap_ext. intros i r' _. simpl. f_equal. lia.
  - intros i r' Hr'. rewrite <- (Hzero (S i) r' Hr'). f_equal. lia.
Qed.

Lemma diagonal_zero (m : matrix) :
  (forall i r, m !! i = Some r -> r !! i = Some 0%num) ->
  diagonal m = replicate (length m) 0%num.
Proof. intros H. apply (diagonal_from_zero 0 m). exact H. Qed.

Lemma np_diag_zero (n : nat) : np_diag (replicate n 0%num) = np_zeros n n.
Proof.
  unfold np_diag, np_zeros. rewrite length_replicate. apply list_eq. intros i.
  rewrite list_lookup_imap. destruct (decide (i < n)%nat) as [Hlt|Hge].
  - rewrite !lookup_replicate_2 by assumption. simpl. by rewrite insert_replicate.
  - rewrite !(proj1 (lookup_replicate_None _ _ _)) by lia. reflexivity.
Qed.

Lemma ncols_square (n : nat) (m : matrix) : square_of n m -> ncols m = n.
Proof.
  intros [Hlen Hrows]. destruct Hrows as [|r m Hr _]; simpl in *; congruence.
Qed.

Lemma entry_np_zeros (n i j : nat) :
  (i < n)%nat -> (j < n)%nat -> entry (np_zeros n n) i j = Some 0%num.
Proof.
  intros Hi Hj. unfold entry, np_zeros. rewrite lookup_replicate_2 by assumption.
  simpl. by apply lookup_replicate_2.
Qed.

Lemma square_of_entry (n : nat) (m : matrix) (i j : nat) :
  square_of n m -> (i < n)%nat -> (j < n)%nat -> is_Some (entry m i j).
Proof.
  intros Hsq Hi Hj.
  destruct (square_of_get_item2 n m i j Hsq Hi Hj) as (r & x & Hr & Hx & _).
  exists x. unfold entry. by rewrite Hr.
Qed.

(** The entries of [m + (m.T - np.diag(m.diagonal()))] for a square [m]
    with a zero diagonal. *)
Lemma reflect_upper_entry (n : nat) (m : matrix) (i j : nat) (a b : num) :
  square_of n m ->
  (forall i r, m !! i = Some r -> r !! i = Some 0%num) ->
  (i < n)%nat -> (j < n)%nat ->
  entry m i j = Some a -> entry m j i = Some b ->
  entry (reflect_upper m) i j = Some (a + (b - 0))%num.
Proof.
  intros Hsq Hdiag Hi Hj Ha Hb. unfold reflect_upper, np_T.
  rewrite (ncols_square n m Hsq), (diagonal_zero m Hdiag).
  destruct Hsq as [Hlen Hrows]. rewrite Hlen, np_diag_zero.
  pose proof (transpose_lookup n m i j Hrows Hi) as Ht.
  fold (entry m j i) in Ht. rewrite Hb in Ht.
  pose proof (entry_np_zeros n i j Hi Hj) as Hz.
  unfold entry in *. rewrite !lookup_zip_with.
  destruct (m !! i) as [r|]; [simpl in *|discriminate].
  destruct (transpose n m !! i) as [t|]; [simpl in *|discriminate].
  destruct (np_zeros n n !! i) as [z|]; [simpl in *|discriminate].
  rewrite !lookup_zip_with, Ha, Ht, Hz. reflexivity.
Qed.

Lemma reflect_upper_square (n : nat) (m : matrix) :
  square_of n m ->
  (forall i r, m !! i = Some r -> r !! i = Some 0%num) ->
  square_of n (reflect_upper m).
Proof.
  intros Hsq Hdiag. unfold reflect_upper, np_T.
  rewrite (ncols_square n m Hsq), (diagonal_zero m Hdiag).
  destruct Hsq as [Hlen Hrows]. rewrite Hlen, np_diag_zero.
  pose proof (transpose_length n m Hrows) as Htl.
  split.
  - rewrite !length_zip_with. unfold np_zeros. rewrite length_replicate. lia.
  - apply Forall_lookup_2. intros i r Hr.
    apply lookup_zip_with_Some in Hr as (r1 & r2 & -> & Hr1 & Hr2).
    apply lookup_zip_with_Some in Hr2 as (t & z & -> & Ht & Hz).
    pose proof (Forall_lookup_1 _ _ _ _ Hrows Hr1) as Hl1. simpl in Hl1.
    apply lookup_replicate in Hz as [-> Hi].
    assert (length t = n) as Hlt.
    { pose proof (transpose_lookup n m i) as Hcol.
      destruct (decide (length t <= n - 1)%nat) as [Hle|Hgt].
      - destruct (square_of_entry n m (n - 1) i) as [x Hx]; [by split|lia..|].
        unfold entry in Hx.
        specialize (Hcol (n - 1)%nat Hrows Hi). rewrite Ht, Hx in Hcol. simpl in Hcol.
        apply lookup_lt_Some in Hcol. lia.
      - specialize (Hcol n Hrows Hi). rewrite Ht in Hcol. simpl in Hcol.
        rewrite (proj2 (lookup_ge_None m n)) in Hcol by lia. simpl in Hcol.
        apply lookup_ge_None in Hcol. lia. }
    rewrite !length_zip_with, length_replicate. lia.
Qed.

Lemma weights_cover_None (vars_list : list string) : weights_cover None vars_list.
Proof.
  intros var Hin. simpl. pose proof (lookup_weight_fromkeys vars_list var Hin) as H.
  unfold lookup_weight in H. destruct (fromkeys vars_list 1%num !! var); [eauto|discriminate].
Qed.

Lemma lookup_weight_Some (w : gmap string num) (var : string) :
  is_Some (w !! var) -> exists v, lookup_weight w var = Ok v.
Proof. intros [v Hv]. exists v. unfold lookup_weight. by rewrite Hv. Qed.

Lemma py_index_in_range {A} (l : list A) (k : Z) :
  0 <= k < Z.of_nat (length l) -> exists v, py_index l k = Ok v.
Proof.
  intros Hk. destruct (lookup_lt_is_Some_2 l (Z.to_nat k) ltac:(lia)) as [v Hv].
  exists v. rewrite <- (Z2Nat.id k) by lia. by apply py_index_nat.
Qed.

Lemma for_each_Ok {A S} (body : A -> S -> result S) (l : list A) (s : S) :
  (forall a s, a ∈ l -> exists s', body a s = Ok s') ->
  exists s', for_each body l s = Ok s'.
Proof.
  intros Hbody.
  destruct (for_each_invariant (fun _ => True) body l s I) as (s' & Hs' & _); [|eauto].
  intros a s1 Ha _. destruct (Hbody a s1 Ha) as [s2 ->]. eauto.
Qed.

Lemma distance_rows_Ok (w : gmap string num) (n x y : nat) (ds : list (string * matrix)) :
  Forall (fun p => length p.2 = n) ds ->
  (forall var, var ∈ map fst ds -> is_Some (w !! var)) ->
  (x < n)%nat -> (y < n)%nat ->
  exists d, distance_rows w x y ds = Ok d.
Proof.
  intros Hrows Hw Hx Hy. unfold distance_rows. apply for_each_Ok.
  intros [var var_matr] s Hin.
  destruct (lookup_weight_Some w var) as [wv ->].
  { apply Hw. apply list_elem_of_fmap. by exists (var, var_matr). }
  rewrite Forall_forall in Hrows. specialize (Hrows _ Hin). simpl in Hrows.
  destruct (get_item_lt var_matr x) as (rx & _ & ->); [lia|].
  destruct (get_item_lt var_matr y) as (ry & _ & ->); [lia|].
  simpl. eauto.
Qed.

Lemma distance_2d_of_Ok (w : gmap string num) (len : nat) (k : Z) (ds_2d : ds_2d_t) :
  Forall (fun p => Forall (fun q => length q.2 = len) p.2) ds_2d ->
  (forall var, var ∈ map fst ds_2d -> is_Some (w !! var)) ->
  0 <= k < Z.of_nat len ->
  exists d, distance_2d_of w k ds_2d = Ok d.
Proof.
  intros Hlen Hw Hk. unfold distance_2d_of. apply for_each_Ok.
  intros [var var_dict] s Hin.
  destruct (lookup_weight_Some w var) as [wv ->].
  { apply Hw. apply list_elem_of_fmap. by exists (var, var_dict). }
  rewrite Forall_forall in Hlen. specialize (Hlen _ Hin). simpl in Hlen.
  simpl. apply for_each_Ok.
  intros [c data] s' Hin'.
  rewrite Forall_forall in Hlen. specialize (Hlen _ Hin'). simpl in Hlen.
  destruct (py_index_in_range data k) as [v ->]; [lia|].
  simpl. destruct (isnan v); simpl; eauto.
Qed.

Lemma selfDistance_Ok (ds_ts : ds_ts_t) (ds_1d : ds_1d_t) (ds_2d : ds_2d_t)
    (n x y : nat) (var_weightings : option (gmap string num)) :
  valid_input ds_ts ds_1d ds_2d n var_weightings ->
  (x < y < n)%nat ->
  exists d, selfDistance ds_ts ds_1d ds_2d n x y var_weightings None = Ok d.
Proof.
  intros (Hts & H1d & H2d & Hw) Hxy. unfold selfDistance.
  set (w := default_weightings _ _) in *.
  destruct (distance_rows_Ok w n x y ds_ts Hts) as [dts ->]; [|lia|lia|].
  { intros var Hin. apply Hw, elem_of_app. by left. }
  destruct (distance_rows_Ok w n x y ds_1d H1d) as [d1d ->]; [|lia|lia|].
  { intros var Hin. apply Hw, elem_of_app. right. apply elem_of_app. by left. }
  destruct (distance_2d_of_Ok w _ (condensed_index (Z.of_nat n) (Z.of_nat x) (Z.of_nat y))
              ds_2d H2d) as [d2d ->].
  { intros var Hin. apply Hw, elem_of_app. right. apply elem_of_app. by right. }
  { by apply condensed_index_bounds. }
  simpl. eauto.
Qed.

Lemma upper_only_zeros (n : nat) : upper_only n (np_zeros n n).
Proof.
  split.
  - split; [apply length_replicate|].
    apply Forall_replicate, length_replicate.
  - intros a b Hba Ha. apply entry_np_zeros; lia.
Qed.

Lemma set_item2_upper_only (n : nat) (m : matrix) (i j : nat) (d : num) :
  upper_only n m -> (i < j < n)%nat ->
  exists m', set_item2 m i j d = Ok m' /\ upper_only n m'.
Proof.
  intros [Hsq Hlow] Hij.
  destruct (square_of_get_item2 n m i j Hsq) as (r & x & Hr & Hx & Hgr & _); [lia..|].
  unfold set_item2. rewrite Hgr. simpl.
  destruct (get_item_lt r j) as (? & _ & ->); [by eapply lookup_lt_Some|]. simpl.
  eexists; split; [reflexivity|].
  destruct Hsq as [Hlen Hrows]. split; [split|].
  - by rewrite length_insert.
  - apply Forall_insert; [assumption|]. rewrite length_insert.
    by apply (Forall_lookup_1 _ _ _ _ Hrows Hr).
  - intros a b Hba Ha. specialize (Hlow a b Hba Ha). unfold entry in *.
    destruct (decide (a = i)) as [->|Hne].
    + rewrite list_lookup_insert_eq by lia. rewrite Hr in Hlow. simpl in *.
      rewrite list_lookup_insert_ne by lia. exact Hlow.
    + by rewrite list_lookup_insert_ne.
Qed.

Lemma num_reflect (a : num) : (a + (0 - 0))%num = (0 + (a - 0))%num.
Proof.
  destruct a as [q| | |]; try reflexivity. simpl. apply (f_equal Fin). ring.
Qed.

Lemma num_reflect_zero : (0 + (0 - 0))%num = 0%num.
Proof. simpl. apply (f_equal Fin). ring. Qed.

(** What reflecting gives for an array that is zero on and below the
    diagonal. *)
Lemma reflect_upper_symmetric (n : nat) (m : matrix) :
  upper_only n m ->
  square_of n (reflect_upper m)
  /\ (forall i j, (i < n)%nat -> (j < n)%nat ->
        exists v, get_item2 (reflect_upper m) i j = Ok v
                  /\ get_item2 (reflect_upper m) j i = Ok v)
  /\ (forall i, (i < n)%nat -> get_item2 (reflect_upper m) i i = Ok 0%num).
Proof.
  intros [Hsq Hlow].
  assert (Hdiag : forall i r, m !! i = Some r -> r !! i = Some 0%num).
  { intros i r Hr. pose proof (lookup_lt_Some _ _ _ Hr) as Hi.
    destruct Hsq as [Hlen _]. specialize (Hlow i i (Nat.le_refl i) ltac:(lia)).
    unfold entry in Hlow. by rewrite Hr in Hlow. }
  assert (Hpair : forall i j, (i <= j)%nat -> (j < n)%nat ->
     exists v, get_item2 (reflect_upper m) i j = Ok v
               /\ get_item2 (reflect_upper m) j i = Ok v
               /\ (i = j -> v = 0%num)).
  { intros i j Hij Hj.
    destruct (square_of_entry n m i j Hsq) as [a Ha]; [lia..|].
    pose proof (Hlow j i Hij Hj) as Hb.
    exists (a + (0 - 0))%num. split; [|split].
    - apply get_item2_entry.
      apply (reflect_upper_entry n m i j a 0%num); try assumption; lia.
    - apply get_item2_entry. rewrite num_reflect.
      apply (reflect_upper_entry n m j i 0%num a); try assumption; lia.
    - intros ->. rewrite Hb in Ha. injection Ha as <-. apply num_reflect_zero. }
  split; [by apply reflect_upper_square|]. split.
  - intros i j Hi Hj. destruct (Nat.le_ge_cases i j) as [Hle|Hle].
    + destruct (Hpair i j Hle Hj) as (v & H1 & H2 & _). eauto.
    + destruct (Hpair j i Hle Hi) as (v & H1 & H2 & _). eauto.
  - intros i Hi. destruct (Hpair i i (Nat.le_refl i) Hi) as (v & H1 & _ & Hv).
    by rewrite H1, Hv.
Qed.

(** C6. On a valid input the distance matrix is an (n x n) array, it is
    symmetric and its diagonal is zero. *)
Theorem selfDistanceMatrix_symmetric_hollow (ds_ts : ds_ts_t) (ds_1d : ds_1d_t)
    (ds_2d : ds_2d_t) (n_regions : nat)
    (var_weightings : option (gmap string num)) :
  valid_input ds_ts ds_1d ds_2d n_regions var_weightings ->
  exists distMatrix,
    selfDistanceMatrix ds_ts ds_1d ds_2d n_regions var_weightings = Ok distMatrix
    /\ square_of n_regions distMatrix
    /\ (forall i j, (i < n_regions)%nat -> (j < n_regions)%nat ->
          exists v, get_item2 distMatrix i j = Ok v
                    /\ get_item2 distMatrix j i = Ok v)
    /\ (forall i, (i < n_regions)%nat -> get_item2 distMatrix i i = Ok 0%num).
Proof.
  intros Hvalid. unfold selfDistanceMatrix.
  destruct (pair_loop_invariant (upper_only n_regions)
    (fun i j distMatrix =>
       let* d := selfDistance ds_ts ds_1d ds_2d n_regions i j var_weightings None in
       set_item2 distMatrix i j d)
    n_regions (np_zeros n_regions n_regions) (upper_only_zeros n_regions))
    as (m & -> & Hm).
  - intros i j m Hij Hm.
    destruct (selfDistance_Ok ds_ts ds_1d ds_2d n_regions i j var_weightings Hvalid Hij)
      as [d ->].
    simpl. by apply set_item2_upper_only.
  - simpl. eexists; split; [reflexivity|]. by apply reflect_upper_symmetric.
Qed.

(** A valid input of four regions: one scalar variable and the pairwise
    variable of [pairwise_example]. *)
Lemma selfDistanceMatrix_symmetric_hollow_witness :
  exists distMatrix,
    selfDistanceMatrix [] [("capacity"%string, [[0]; [frac 1 2]; [1]; [frac 1 4]]%num)]
                       pairwise_example_ds_2d 4 None
    = Ok distMatrix
    /\ square_of 4 distMatrix
    /\ (forall i j, (i < 4)%nat -> (j < 4)%nat ->
          exists v, get_item2 distMatrix i j = Ok v
                    /\ get_item2 distMatrix j i = Ok v)
    /\ (forall i, (i < 4)%nat -> get_item2 distMatrix i i = Ok 0%num).
Proof.
  apply (selfDistanceMatrix_symmetric_hollow
           [] [("capacity"%string, [[0]; [frac 1 2]; [1]; [frac 1 4]]%num)]
           pairwise_example_ds_2d 4 None).
  repeat split; [constructor|repeat constructor|repeat constructor
                |apply weights_cover_None].
Defined.

(** ** Explicit variable weights *)

Section keyed_loop.
Context {A S : Type}.
Variable step : A -> num -> S -> result S.
Variable R : S -> S -> Prop.
Hypothesis step_shape : forall a wt wt' s s' r,
  R s s' -> step a wt s = Ok r -> exists r', step a wt' s' = Ok r' /\ R r r'.

Lemma keyed_loop_present (w0 w : gmap string num) (ds : list (string * A))
    (s0 s r0 : S) :
  R s0 s ->
  for_each (keyed_body step w0) ds s0 = Ok r0 ->
  Forall (fun p => is_Some (w !! p.1)) ds ->
  exists r, for_each (keyed_body step w) ds s = Ok r /\ R r0 r.
Proof.
  revert s0 s; induction ds as [|[k a] ds IH]; intros s0 s HR Hrun Hall; simpl in *.
  - injection Hrun as <-. eauto.
  - apply Forall_cons in Hall as [Hk Hall]. simpl in Hk.
    destruct (lookup_weight w0 k) as [wt0|]; [simpl in Hrun|discriminate].
    destruct (step a wt0 s0) as [s1|] eqn:E; [simpl in Hrun|discriminate].
    destruct (lookup_weight_Some w k Hk) as [wt ->]. simpl.
    destruct (step_shape a wt0 wt s0 s s1 HR E) as (s1' & -> & HR1). simpl.
    by apply (IH s1 s1').
Qed.

Lemma keyed_loop_missing (w0 w : gmap string num) (ds : list (string * A))
    (s0 s r0 : S) :
  R s0 s ->
  for_each (keyed_body step w0) ds s0 = Ok r0 ->
  Exists (fun p => w !! p.1 = None) ds ->
  for_each (keyed_body step w) ds s = Raise KeyError.
Proof.
  revert s0 s; induction ds as [|[k a] ds IH]; intros s0 s HR Hrun Hex; simpl in *.
  - by apply Exists_nil in Hex.
  - destruct (lookup_weight w0 k) as [wt0|]; [simpl in Hrun|discriminate].
    destruct (step a wt0 s0) as [s1|] eqn:E; [simpl in Hrun|discriminate].
    unfold lookup_weight at 1. destruct (w !! k) as [wt|] eqn:Ek; [simpl|reflexivity].
    destruct (step_shape a wt0 wt s0 s s1 HR E) as (s1' & -> & HR1). simpl.
    apply (IH s1 s1'); try assumption.
    apply Exists_cons in Hex as [Hk|Hex]; [simpl in Hk; congruence|assumption].
Qed.
End keyed_loop.

Lemma weights_missing_Exists {A} (w : gmap string num) (ds : list (string * A))
    (var : string) :
  var ∈ map fst ds -> w !! var = None -> Exists (fun p => w !! p.1 = None) ds.
Proof.
  intros Hin Hnone. apply list_elem_of_fmap in Hin as ([k a] & -> & Hin).
  apply Exists_exists. by exists (k, a).
Qed.

Lemma weights_present_dec {A} (w : gmap string num) (ds : list (string * A)) :
  Forall (fun p => is_Some (w !! p.1)) ds \/ Exists (fun p => w !! p.1 = None) ds.
Proof.
  induction ds as [|[k a] ds [IH|IH]].
  - left. constructor.
  - destruct (w !! k) as [wt|] eqn:E.
    + left. constructor; [simpl; rewrite E; eauto|assumption].
    + right. by left.
  - right. by right.
Qed.

Lemma weights_present_not_missing {A} (w : gmap string num) (ds : list (string * A))
    (var : string) :
  Forall (fun p => is_Some (w !! p.1)) ds -> var ∈ map fst ds -> w !! var = None -> False.
Proof.
  intros Hall Hin Hnone. apply list_elem_of_fmap in Hin as ([k a] & -> & Hin).
  rewrite Forall_forall in Hall. destruct (Hall _ Hin) as [wt Hwt]. simpl in *. congruence.
Qed.

Lemma default_weightings_nonempty (w : gmap string num) (vars_list : list string) :
  w <> ∅ -> default_weightings (Some w) vars_list = w.
Proof. intros Hne. simpl. by rewrite bool_decide_eq_false_2. Qed.

Lemma default_weightings_empty (vars_list : list string) :
  default_weightings (Some ∅) vars_list = default_weightings None vars_list.
Proof. reflexivity. Qed.

Lemma distance_rows_keyed (w : gmap string num) (x y : nat) (ds : list (string * matrix)) :
  distance_rows w x y ds = for_each (keyed_body (rows_step x y) w) ds 0%num.
Proof. unfold distance_rows. apply for_each_ext. by intros [var m] s _. Qed.

Lemma distance_2d_of_keyed (w : gmap string num) (k : Z) (ds_2d : ds_2d_t) :
  distance_2d_of w k ds_2d = for_each (keyed_body (vectors_step k) w) ds_2d 0%num.
Proof. unfold distance_2d_of. apply for_each_ext. by intros [var m] s _. Qed.

Lemma rows_step_shape (x y : nat) (a : matrix) (wt wt' s s' r : num) :
  any_state s s' -> rows_step x y a wt s = Ok r ->
  exists r', rows_step x y a wt' s' = Ok r' /\ any_state r r'.
Proof.
  intros _. unfold rows_step.
  destruct (get_item a x); [simpl|discriminate].
  destruct (get_item a y); [simpl|discriminate]. intros _. by eexists.
Qed.

Lemma vectors_step_shape (k : Z) (a : list (nat * list num)) (wt wt' s s' r : num) :
  any_state s s' -> vectors_step k a wt s = Ok r ->
  exists r', vectors_step k a wt' s' = Ok r' /\ any_state r r'.
Proof.
  intros _. unfold vectors_step. revert s s' r.
  induction a as [|[c data] a IH]; intros s s' r; simpl; [by eexists|].
  destruct (py_index data k) as [v|]; [simpl|discriminate].
  destruct (isnan v); simpl; apply IH.
Qed.

Lemma selfDistance_missing_key (ds_ts : ds_ts_t) (ds_1d : ds_1d_t) (ds_2d : ds_2d_t)
    (n x y : nat) (w : gmap string num) (part_weightings : option (list num))
    (var : string) (d : num) :
  w <> ∅ ->
  var ∈ map fst ds_ts ++ map fst ds_1d ++ map fst ds_2d ->
  w !! var = None ->
  selfDistance ds_ts ds_1d ds_2d n x y None part_weightings = Ok d ->
  selfDistance ds_ts ds_1d ds_2d n x y (Some w) part_weightings = Raise KeyError.
Proof.
  intros Hne Hin Hnone Hrun. unfold selfDistance in *.
  rewrite default_weightings_nonempty by exact Hne.
  set (w0 := default_weightings None _) in Hrun.
  rewrite !distance_rows_keyed, distance_2d_of_keyed in *.
  destruct (for_each (keyed_body (rows_step x y) w0) ds_ts 0%num) as [dts|] eqn:Ets;
    [simpl in Hrun|discriminate].
  destruct (for_each (keyed_body (rows_step x y) w0) ds_1d 0%num) as [d1d|] eqn:E1d;
    [simpl in Hrun|discriminate].
  destruct (for_each (keyed_body (vectors_step _) w0) ds_2d 0%num) as [d2d|] eqn:E2d;
    [clear Hrun|discriminate].
  destruct (weights_present_dec w ds_ts) as [Pts|Mts].
  2:{ by rewrite (keyed_loop_missing _ _ (rows_step_shape x y) w0 w ds_ts 0%num 0%num _ I Ets Mts). }
  destruct (keyed_loop_present _ _ (rows_step_shape x y) w0 w ds_ts 0%num 0%num _ I Ets Pts)
    as (dts' & -> & _). simpl.
  destruct (weights_present_dec w ds_1d) as [P1d|M1d].
  2:{ by rewrite (keyed_loop_missing _ _ (rows_step_shape x y) w0 w ds_1d 0%num 0%num _ I E1d M1d). }
  destruct (keyed_loop_present _ _ (rows_step_shape x y) w0 w ds_1d 0%num 0%num _ I E1d P1d)
    as (d1d' & -> & _). simpl.
  assert (M2d : Exists (fun p => w !! p.1 = None) ds_2d).
  { apply elem_of_app in Hin as [Hin|Hin];
      [destruct (weights_present_not_missing w ds_ts var Pts Hin Hnone)|].
    apply elem_of_app in Hin as [Hin|Hin];
      [destruct (weights_present_not_missing w ds_1d var P1d Hin Hnone)|].
    by apply (weights_missing_Exists w ds_2d var). }
  by rewrite (keyed_loop_missing _ _ (vectors_step_shape _) w0 w ds_2d 0%num 0%num _ I E2d M2d).
Qed.

(** The preprocessors keep the variable names. *)
Lemma map_result_keys {A B} (f : A -> result B) (l : list (string * A))
    (r : list (string * B)) :
  map_result (fun '(var, da) => let* m := f da in Ok (var, m)) l = Ok r ->
  map fst r = map fst l.
Proof.
  revert r; induction l as [|[var da] l IH]; intros r Hrun; simpl in Hrun.
  - by injection Hrun as <-.
  - destruct (f da) as [m|]; [simpl in Hrun|discriminate].
    destruct (map_result _ l) as [r'|]; [simpl in Hrun|discriminate].
    injection Hrun as <-. simpl. f_equal. by apply IH.
Qed.

Lemma concat_weighted_keyed (w : gmap string num) (n : nat) (ds : list (string * matrix)) :
  concat_weighted w n ds
  = let* m := for_each (keyed_body hconcat_step w) ds (np_zeros n 1) in
    Ok (delete_col0 m).
Proof.
  unfold concat_weighted. erewrite for_each_ext; [reflexivity|].
  by intros [var m] s _.
Qed.

Lemma hconcat_step_shape (a : matrix) (wt wt' : num) (s s' r : matrix) :
  same_length s s' -> hconcat_step a wt s = Ok r ->
  exists r', hconcat_step a wt' s' = Ok r' /\ same_length r r'.
Proof.
  unfold same_length, hconcat_step, hconcat, scale_matrix. intros Hlen.
  rewrite !length_map, <- Hlen.
  destruct (length s =? length a)%nat; [|discriminate].
  intros [= <-]. eexists; split; [reflexivity|].
  rewrite !length_zip_with, !length_map. lia.
Qed.

Lemma shape_scale_matrix (m : matrix) (w : num) : shape (scale_matrix m w) = shape m.
Proof.
  unfold shape, scale_matrix. rewrite map_map. apply map_ext. intros r.
  apply length_map.
Qed.

Lemma matrix_add_shape (a a' b b' r : matrix) :
  same_shape a a' -> same_shape b b' -> matrix_add a b = Ok r ->
  exists r', matrix_add a' b' = Ok r' /\ same_shape r r'.
Proof.
  unfold same_shape, matrix_add. intros Ha Hb.
  assert (Hzip : forall (a b : matrix),
    forallb (fun p => (length p.1 =? length p.2)%nat) (zip a b)
    = forallb (fun p => (p.1 =? p.2)%nat) (zip (shape a) (shape b))).
  { clear. induction a as [|r a IH]; intros [|r' b]; simpl; try reflexivity.
    by rewrite IH. }
  assert (Hres : forall (a b : matrix),
    shape (zip_with (zip_with num_add) a b) = zip_with Nat.min (shape a) (shape b)).
  { clear. induction a as [|r a IH]; intros [|r' b]; simpl; try reflexivity.
    by rewrite IH, length_zip_with. }
  rewrite !Hzip. rewrite <- (length_map length a), <- (length_map length b).
  rewrite <- (length_map length a'), <- (length_map length b').
  fold (shape a) (shape b) (shape a') (shape b'). rewrite <- Ha, <- Hb.
  destruct (_ && _); [|discriminate]. intros [= <-].
  eexists; split; [reflexivity|]. by rewrite !Hres, Ha, Hb.
Qed.

Lemma affinity_step_shape (a : list (nat * matrix)) (wt wt' : num) (s s' r : matrix) :
  same_shape s s' -> affinity_step a wt s = Ok r ->
  exists r', affinity_step a wt' s' = Ok r' /\ same_shape r r'.
Proof.
  unfold affinity_step. revert s s' r.
  induction a as [|[c data] a IH]; intros s s' r Hs; simpl.
  - intros [= <-]. eauto.
  - destruct (matrix_add s (scale_matrix data wt)) as [s1|] eqn:E; [simpl|discriminate].
    destruct (matrix_add_shape s s' (scale_matrix data wt) (scale_matrix data wt') s1 Hs)
      as (s1' & -> & Hs1); [|exact E|].
    { unfold same_shape. by rewrite !shape_scale_matrix. }
    simpl. by apply IH.
Qed.

Lemma preprocessDataset_missing_key (sds : Dataset) (w : gmap string num)
    (var : string) (ms : matrix * matrix * matrix) :
  w <> ∅ ->
  var ∈ map fst (vars_ts_of sds) ++ map fst (vars_1d_of sds) ++ map fst (vars_2d_of sds) ->
  w !! var = None ->
  preprocessDataset_toAffinity sds None = Ok ms ->
  preprocessDataset_toAffinity sds (Some w) = Raise KeyError.
Proof.
  intros Hne Hin Hnone Hrun. unfold preprocessDataset_toAffinity in *.
  destruct (preprocessTimeSeries _ _ _) as [ds_ts|] eqn:Pts; [simpl in *|discriminate].
  destruct (preprocess1dVariables _ _) as [ds_1d|] eqn:P1d; [simpl in *|discriminate].
  apply map_result_keys in Pts, P1d. rewrite <- Pts, <- P1d in Hin.
  rewrite bool_decide_eq_false_2 by exact Hne.
  set (w0 := fromkeys _ _) in Hrun.
  rewrite !concat_weighted_keyed in *.
  set (n := length (space_coord sds)) in *.
  destruct (for_each (keyed_body hconcat_step w0) ds_ts _) as [mts|] eqn:Ets;
    [simpl in Hrun|discriminate].
  destruct (weights_present_dec w ds_ts) as [Pr_ts|Mts].
  2:{ by rewrite (keyed_loop_missing _ _ hconcat_step_shape w0 w ds_ts
                    (np_zeros n 1) (np_zeros n 1) _ eq_refl Ets Mts). }
  destruct (keyed_loop_present _ _ hconcat_step_shape w0 w ds_ts
              (np_zeros n 1) (np_zeros n 1) _ eq_refl Ets Pr_ts) as (mts' & -> & _).
  simpl.
  destruct (for_each (keyed_body hconcat_step w0) ds_1d _) as [m1d|] eqn:E1d;
    [simpl in Hrun|discriminate].
  destruct (weights_present_dec w ds_1d) as [Pr_1d|M1d].
  2:{ by rewrite (keyed_loop_missing _ _ hconcat_step_shape w0 w ds_1d
                    (np_zeros n 1) (np_zeros n 1) _ eq_refl E1d M1d). }
  destruct (keyed_loop_present _ _ hconcat_step_shape w0 w ds_1d
              (np_zeros n 1) (np_zeros n 1) _ eq_refl E1d Pr_1d) as (m1d' & -> & _).
  simpl.
  destruct (preprocess2dVariables_toAffinity _ _) as [ds_2d|] eqn:P2d;
    [simpl in *|discriminate].
  apply map_result_keys in P2d. rewrite <- P2d in Hin.
  assert (M2d : Exists (fun p => w !! p.1 = None) ds_2d).
  { apply elem_of_app in Hin as [Hin|Hin];
      [destruct (weights_present_not_missing w ds_ts var Pr_ts Hin Hnone)|].
    apply elem_of_app in Hin as [Hin|Hin];
      [destruct (weights_present_not_missing w ds_1d var Pr_1d Hin Hnone)|].
    by apply (weights_missing_Exists w ds_2d var). }
  match type of Hrun with
  | (let* _ := for_each ?b ds_2d ?z in _) = _ =>
      assert (E2d : exists m2d, for_each (keyed_body affinity_step w0) ds_2d z = Ok m2d)
  end.
  { match type of Hrun with
    | (let* _ := ?l in _) = _ => destruct l as [m2d|] eqn:E; [|discriminate]
    end.
    exists m2d. rewrite <- E. apply for_each_ext. by intros [v dct] s _. }
  destruct E2d as [m2d E2d].
  match goal with
  | |- (let* _ := for_each ?b ds_2d ?z in _) = _ =>
      replace (for_each b ds_2d z) with (for_each (keyed_body affinity_step w) ds_2d z)
        by (apply for_each_ext; by intros [v dct] s _)
  end.
  by rewrite (keyed_loop_missing _ _ affinity_step_shape w0 w ds_2d
                (np_zeros n n) (np_zeros n n) _ eq_refl E2d M2d).
Qed.

(** C5, as the code has it.  A weight mapping that is not empty and lacks
    an observed variable makes [preprocessDataset] (mode toAffinity) and
    [selfDistance] raise KeyError, where the same call without weights
    returns; an empty mapping counts as no mapping. *)
Theorem explicit_weightings_missing_key :
  (forall (sds : Dataset) (w : gmap string num) (var : string)
          (ms : matrix * matrix * matrix),
      w <> ∅ ->
      var ∈ map fst (vars_ts_of sds) ++ map fst (vars_1d_of sds)
            ++ map fst (vars_2d_of sds) ->
      w !! var = None ->
      preprocessDataset_toAffinity sds None = Ok ms ->
      preprocessDataset_toAffinity sds (Some w) = Raise KeyError)
  /\ (forall (ds_ts : ds_ts_t) (ds_1d : ds_1d_t) (ds_2d : ds_2d_t) (n x y : nat)
             (w : gmap string num) (part_weightings : option (list num))
             (var : string) (d : num),
      w <> ∅ ->
      var ∈ map fst ds_ts ++ map fst ds_1d ++ map fst ds_2d ->
      w !! var = None ->
      selfDistance ds_ts ds_1d ds_2d n x y None part_weightings = Ok d ->
      selfDistance ds_ts ds_1d ds_2d n x y (Some w) part_weightings
      = Raise KeyError)
  /\ (forall sds : Dataset,
      preprocessDataset_toAffinity sds (Some ∅) = preprocessDataset_toAffinity sds None)
  /\ (forall (ds_ts : ds_ts_t) (ds_1d : ds_1d_t) (ds_2d : ds_2d_t) (n x y : nat)
             (part_weightings : option (list num)),
      selfDistance ds_ts ds_1d ds_2d n x y (Some ∅) part_weightings
      = selfDistance ds_ts ds_1d ds_2d n x y None part_weightings).
Proof.
  split; [exact preprocessDataset_missing_key|].
  split; [exact selfDistance_missing_key|].
  split; reflexivity.
Qed.

(** Weights for another variable only, on the dataset of scenario A. *)
Lemma explicit_weightings_missing_key_witness :
  preprocessDataset_toAffinity scenario_A_named (Some {["demand"%string := 2%num]})
  = Raise KeyError
  /\ selfDistance [] [("capacity"%string, [[0]; [frac 1 2]; [1]]%num)] [] 3 0 2
                  (Some {["demand"%string := 2%num]}) None
     = Raise KeyError.
Proof.
  destruct explicit_weightings_missing_key as (Hpre & Hdist & _).
  split.
  - eapply (Hpre scenario_A_named {["demand"%string := 2%num]} "capacity"%string).
    + by_compute.
    + by_compute.
    + reflexivity.
    + vm_compute. reflexivity.
  - eapply (Hdist [] [("capacity"%string, [[0]; [frac 1 2]; [1]]%num)] [] 3%nat 0%nat 2%nat
                  {["demand"%string := 2%num]} None "capacity"%string).
    + by_compute.
    + by_compute.
    + reflexivity.
    + vm_compute. reflexivity.
Defined.

(** With the empty mapping no lookup fails, although the variable
    "capacity" is not in it: both calls return what they return without
    weights. *)
Lemma empty_weightings_no_error :
  (∅ : gmap string num) !! "capacity"%string = None
  /\ preprocessDataset_toAffinity scenario_A_named (Some ∅)
     = Ok ([[]; []; []], [[0]; [frac 1 2]; [1]]%num, np_zeros 3 3)
  /\ selfDistance [] [("capacity"%string, [[0]; [frac 1 2]; [1]]%num)] [] 3 0 2
                  (Some ∅) None
     = Ok 1%num.
Proof. repeat split; by_compute. Qed.

(** ** Transposition *)

Lemma transpose_rows_length {A} (c : nat) (m : list (list A)) :
  Forall (fun r => length r = c) m ->
  Forall (fun col => length col = length m) (transpose c m).
Proof.
  induction 1 as [|r m Hr Hrows IH]; simpl.
  - apply Forall_replicate. reflexivity.
  - apply Forall_lookup_2. intros i col Hcol.
    apply lookup_zip_with_Some in Hcol as (x & col' & -> & _ & Hcol').
    simpl. f_equal. by apply (Forall_lookup_1 _ _ _ _ IH Hcol').
Qed.






(** ** Minimum and maximum of finite arrays *)

Lemma Qc_min_cases (a b : Qc) :
  (Qc_min a b = a \/ Qc_min a b = b) /\ (Qc_min a b <= a)%Qc /\ (Qc_min a b <= b)%Qc.
Proof.
  unfold Qc_min. case_bool_decide as H.
  - split; [by right|]. split; [by apply Qclt_le_weak|apply Qcle_refl].
  - split; [by left|]. split; [apply Qcle_refl|by apply Qcnot_lt_le].
Qed.

Lemma Qc_max_cases (a b : Qc) :
  (Qc_max a b = a \/ Qc_max a b = b) /\ (a <= Qc_max a b)%Qc /\ (b <= Qc_max a b)%Qc.
Proof.
  unfold Qc_max. case_bool_decide as H.
  - split; [by right|]. split; [by apply Qclt_le_weak|apply Qcle_refl].
  - split; [by left|]. split; [apply Qcle_refl|by apply Qcnot_lt_le].
Qed.

Lemma foldl_Qc_min_spec (ql : list Qc) (a : Qc) :
  foldl Qc_min a ql ∈ a :: ql
  /\ forall q, q ∈ a :: ql -> (foldl Qc_min a ql <= q)%Qc.
Proof.
  revert a; induction ql as [|b ql IH]; intros a; simpl.
  - split; [by left|]. intros q Hq. apply list_elem_of_singleton in Hq as ->.
    apply Qcle_refl.
  - destruct (IH (Qc_min a b)) as [Hin Hle].
    destruct (Qc_min_cases a b) as (Hcase & Hla & Hlb). split.
    + apply elem_of_cons in Hin as [->|Hin].
      * destruct Hcase as [-> | ->]; [by left|right; by left].
      * by do 2 right.
    + intros q Hq. apply elem_of_cons in Hq as [->|Hq].
      * eapply Qcle_trans; [apply Hle; by left|exact Hla].
      * apply elem_of_cons in Hq as [->|Hq].
        -- eapply Qcle_trans; [apply Hle; by left|exact Hlb].
        -- apply Hle. by right.
Qed.

Lemma foldl_Qc_max_spec (ql : list Qc) (a : Qc) :
  foldl Qc_max a ql ∈ a :: ql
  /\ forall q, q ∈ a :: ql -> (q <= foldl Qc_max a ql)%Qc.
Proof.
  revert a; induction ql as [|b ql IH]; intros a; simpl.
  - split; [by left|]. intros q Hq. apply list_elem_of_singleton in Hq as ->.
    apply Qcle_refl.
  - destruct (IH (Qc_max a b)) as [Hin Hle].
    destruct (Qc_max_cases a b) as (Hcase & Hla & Hlb). split.
    + apply elem_of_cons in Hin as [->|Hin].
      * destruct Hcase as [-> | ->]; [by left|right; by left].
      * by do 2 right.
    + intros q Hq. apply elem_of_cons in Hq as [->|Hq].
      * eapply Qcle_trans; [exact Hla|apply Hle; by left].
      * apply elem_of_cons in Hq as [->|Hq].
        -- eapply Qcle_trans; [exact Hlb|apply Hle; by left].
        -- apply Hle. by right.
Qed.

Lemma elem_of_map_Fin (ql : list Qc) (q : Qc) : Fin q ∈ map Fin ql <-> q ∈ ql.
Proof.
  rewrite list_elem_of_fmap. split.
  - by intros (q' & [= ->] & Hq').
  - intros Hq. by exists q.
Qed.

Lemma np_min_is_min (l : list num) (m : Qc) :
  finite_list l -> np_min l = Ok (Fin m) <-> is_min l m.
Proof.
  intros Hfin. destruct (finite_list_Fin l Hfin) as [ql ->].
  destruct ql as [|a ql]; simpl.
  - split; [discriminate|]. intros [Hin _]. by apply elem_of_nil in Hin.
  - rewrite foldl_min2_Fin. destruct (foldl_Qc_min_spec ql a) as [Hin Hle].
    change (Fin a :: map Fin ql) with (map Fin (a :: ql)). split.
    + intros [= <-]. split; [by apply elem_of_map_Fin|].
      intros q Hq. by apply Hle, elem_of_map_Fin.
    + intros [Hm Hmle]. do 2 f_equal. apply Qcle_antisym.
      * by apply Hle, elem_of_map_Fin.
      * by apply Hmle, elem_of_map_Fin.
Qed.

Lemma np_max_is_max (l : list num) (m : Qc) :
  finite_list l -> np_max l = Ok (Fin m) <-> is_max l m.
Proof.
  intros Hfin. destruct (finite_list_Fin l Hfin) as [ql ->].
  destruct ql as [|a ql]; simpl.
  - split; [discriminate|]. intros [Hin _]. by apply elem_of_nil in Hin.
  - rewrite foldl_max2_Fin. destruct (foldl_Qc_max_spec ql a) as [Hin Hle].
    change (Fin a :: map Fin ql) with (map Fin (a :: ql)). split.
    + intros [= <-]. split; [by apply elem_of_map_Fin|].
      intros q Hq. by apply Hle, elem_of_map_Fin.
    + intros [Hm Hmle]. do 2 f_equal. apply Qcle_antisym.
      * by apply Hmle, elem_of_map_Fin.
      * by apply Hle, elem_of_map_Fin.
Qed.

(** ** The scalar preprocessor *)

Lemma ncols_rows {A} (c : nat) (m : list (list A)) :
  m <> [] -> Forall (fun r => length r = c) m -> ncols m = c.
Proof. intros Hne Hrows. destruct Hrows; [done|assumption]. Qed.


(** * Further properties of the embedded functions *)

(** ** matrix_MinMaxScaler *)

Lemma foldl_max2_nan (l : list num) (a : num) :
  NaN ∈ a :: l -> foldl max2 a l = NaN.
Proof.
  revert a; induction l as [|x l IH]; intros a Hin; simpl.
  - by apply list_elem_of_singleton in Hin.
  - apply IH. apply elem_of_cons in Hin as [<-|Hin]; [by left|].
    apply elem_of_cons in Hin as [<-|Hin]; [|by right].
    replace (max2 a NaN) with NaN by (by destruct a). by left.
Qed.

Lemma foldl_min2_nan (l : list num) (a : num) :
  NaN ∈ a :: l -> foldl min2 a l = NaN.
Proof.
  revert a; induction l as [|x l IH]; intros a Hin; simpl.
  - by apply list_elem_of_singleton in Hin.
  - apply IH. apply elem_of_cons in Hin as [<-|Hin]; [by left|].
    apply elem_of_cons in Hin as [<-|Hin]; [|by right].
    replace (min2 a NaN) with NaN by (by destruct a). by left.
Qed.

(** X1. One missing value spoils the whole array: when an entry is NaN,
    the scaler returns an array of the same shape in which every entry is
    NaN, whatever the bounds. *)
Theorem matrix_MinMaxScaler_nan (m : matrix) (scaled_min scaled_max : num) :
  NaN ∈ concat m ->
  matrix_MinMaxScaler m scaled_min scaled_max = Ok (map (map (fun _ => NaN)) m).
Proof.
  intros Hin. unfold matrix_MinMaxScaler.
  destruct (concat m) as [|a l] eqn:E; [by apply elem_of_nil in Hin|].
  simpl. rewrite (foldl_max2_nan l a Hin), (foldl_min2_nan l a Hin). simpl.
  f_equal. apply map_ext. intros r. apply map_ext. intros v. by destruct v.
Qed.

Lemma matrix_MinMaxScaler_nan_witness :
  matrix_MinMaxScaler [[0; NaN]; [1; 2]]%num 0%num 1%num
  = Ok [[NaN; NaN]; [NaN; NaN]].
Proof.
  apply (matrix_MinMaxScaler_nan [[0; NaN]; [1; 2]]%num 0%num 1%num).
  simpl. right. left.
Defined.

(** The affine map of the scaler for the bounds [lo] and [hi]. *)
Lemma rescale_to_mono (mn mx lo hi : Qc) :
  (mn < mx)%Qc -> (lo < hi)%Qc ->
  forall x y : Qc, (x < y)%Qc <-> (rescale_to mn mx lo hi x < rescale_to mn mx lo hi y)%Qc.
Proof.
  intros Hlt Hb x y. unfold rescale_to.
  rewrite <- Qcplus_lt_mono_r.
  rewrite <- (Qcmult_lt_mono_pos_r _ _ (hi - lo)%Qc) by (by apply Qclt_minus_iff in Hb).
  apply rescale_mono, Hlt.
Qed.

Lemma scale_entry_to_Fin (mn mx lo hi q : Qc) :
  (mn < mx)%Qc ->
  ((Fin q - Fin mn) / (Fin mx - Fin mn) * (Fin hi - Fin lo) + Fin lo)%num
  = Fin (rescale_to mn mx lo hi q).
Proof.
  intros Hlt. pose proof (Qclt_minus_ne _ _ Hlt) as Hne.
  cbn [num_sub num_add num_opp num_div num_mul].
  rewrite bool_decide_eq_false_2 by exact Hne. reflexivity.
Qed.

(** The scaled array for bounds [lo < hi]. *)
Lemma matrix_MinMaxScaler_scaled (m : matrix) (mn mx lo hi : Qc) :
  np_min (concat m) = Ok (Fin mn) ->
  np_max (concat m) = Ok (Fin mx) ->
  (mn < mx)%Qc -> (lo < hi)%Qc ->
  exists m' : matrix,
    matrix_MinMaxScaler m (Fin lo) (Fin hi) = Ok m'
    /\ np_min (concat m') = Ok (Fin lo)
    /\ np_max (concat m') = Ok (Fin hi)
    /\ finite_matrix m'.
Proof.
  intros Hmin Hmax Hlt Hb.
  pose proof (finite_extrema _ _ _ Hmin Hmax) as Hflat.
  pose proof (finite_concat_matrix m Hflat) as Hfin.
  destruct (finite_list_Fin _ Hflat) as [ql Hql].
  destruct ql as [|a ql]; [rewrite Hql in Hmin; discriminate|].
  set (g := rescale_to mn mx lo hi).
  assert (Hrun : matrix_MinMaxScaler m (Fin lo) (Fin hi)
                 = Ok (map (map (fun v => match v with Fin q => Fin (g q) | _ => v end)) m)).
  { unfold matrix_MinMaxScaler. rewrite Hmax, Hmin. cbn [bind num_eqb].
    rewrite bool_decide_eq_false_2.
    2:{ intros E. rewrite E in Hlt. by apply Qclt_not_eq in Hlt. }
    f_equal. apply map_ext_Forall.
    eapply Forall_impl; [exact Hfin|]. intros r Hr. apply map_ext_Forall.
    eapply Forall_impl; [exact Hr|]. intros [q| | |] Hv; try discriminate.
    by apply scale_entry_to_Fin. }
  assert (Hconcat : concat (map (map (fun v => match v with Fin q => Fin (g q) | _ => v end)) m)
                    = map Fin (map g (a :: ql))).
  { by rewrite <- concat_map, Hql, !map_map. }
  rewrite Hql in Hmin, Hmax. simpl in Hmin, Hmax.
  rewrite foldl_min2_Fin in Hmin. rewrite foldl_max2_Fin in Hmax.
  injection Hmin as Hmin. injection Hmax as Hmax.
  eexists. split; [exact Hrun|]. rewrite Hconcat. split; [|split].
  - simpl. rewrite foldl_min2_Fin.
    rewrite (foldl_Qc_min_mono _ (rescale_to_mono mn mx lo hi Hlt Hb)), Hmin.
    do 2 f_equal. unfold g, rescale_to. by rewrite rescale_min, Qcmult_0_l, Qcplus_0_l.
  - simpl. rewrite foldl_max2_Fin.
    rewrite (foldl_Qc_max_mono _ (rescale_to_mono mn mx lo hi Hlt Hb)), Hmax.
    do 2 f_equal. unfold g, rescale_to. rewrite rescale_max by exact Hlt. ring.
  - apply finite_concat_matrix. rewrite Hconcat.
    apply Forall_forall. intros v Hv. apply list_elem_of_fmap in Hv as (q & -> & _).
    reflexivity.
Qed.

Lemma extrema_ordered (l : list num) (mn mx : Qc) :
  np_min l = Ok (Fin mn) -> np_max l = Ok (Fin mx) -> (mn <= mx)%Qc.
Proof.
  intros Hmin Hmax. pose proof (finite_extrema _ _ _ Hmin Hmax) as Hfin.
  apply (np_min_is_min _ _ Hfin) in Hmin as [_ Hle].
  apply (np_max_is_max _ _ Hfin) in Hmax as [Hin _]. by apply Hle.
Qed.

(** X3. Scaling to [0, 1] a second time changes nothing: for an array
    whose minimum and maximum are numbers with a difference in the range
    of [float64], the scaler returns its own result when applied to it. *)
Theorem matrix_MinMaxScaler_idempotent (m : matrix) (mn mx : Qc) :
  np_min (concat m) = Ok (Fin mn) ->
  np_max (concat m) = Ok (Fin mx) ->
  (mx - mn <= float64_max)%Qc ->
  exists m' : matrix,
    matrix_MinMaxScaler m 0%num 1%num = Ok m'
    /\ matrix_MinMaxScaler m' 0%num 1%num = Ok m'.
Proof.
  intros Hmin Hmax _.
  destruct (Qcle_lt_or_eq _ _ (extrema_ordered _ _ _ Hmin Hmax)) as [Hlt|Heq].
  - destruct (matrix_MinMaxScaler_scaled m mn mx 0%Qc 1%Qc Hmin Hmax Hlt eq_refl)
      as (m' & Hrun & Hlo & Hhi & Hfin).
    exists m'. split; [exact Hrun|].
    rewrite (matrix_MinMaxScaler_finite m' 0%Qc 1%Qc Hfin Hlo Hhi eq_refl).
    f_equal. rewrite <- (map_id m') at 2. apply map_ext_Forall.
    eapply Forall_impl; [exact Hfin|]. intros r Hr.
    rewrite <- (map_id r) at 2. apply map_ext_Forall.
    eapply Forall_impl; [exact Hr|]. intros [q| | |] Hv; try discriminate.
    destruct (scale_entry_Fin 0%Qc 1%Qc q eq_refl) as [_ ->].
    apply (f_equal Fin). unfold rescale. field. discriminate.
  - subst mx. exists m.
    assert (matrix_MinMaxScaler m 0%num 1%num = Ok m) as ->; [|done].
    unfold matrix_MinMaxScaler. rewrite Hmax, Hmin. simpl.
    by rewrite bool_decide_eq_true_2.
Qed.

Lemma matrix_MinMaxScaler_idempotent_witness :
  exists m' : matrix,
    matrix_MinMaxScaler [[frac 1 1; frac 3 1]; [frac 2 1; frac 5 1]] 0%num 1%num
    = Ok m'
    /\ matrix_MinMaxScaler m' 0%num 1%num = Ok m'.
Proof.
  apply (matrix_MinMaxScaler_idempotent
           [[frac 1 1; frac 3 1]; [frac 2 1; frac 5 1]] (Q2Qc 1) (Q2Qc 5));
    by_compute.
Defined.

(** ** selfDistance: sign, self-distance, weights *)

Lemma Qc_square_nonneg (q : Qc) : (0 <= q * q)%Qc.
Proof.
  destruct (Qclt_le_dec q 0) as [Hneg|Hpos].
  - replace (q * q)%Qc with ((- q) * (- q))%Qc by ring.
    assert (0 <= - q)%Qc.
    { apply Qclt_le_weak in Hneg. apply Qcopp_le_compat in Hneg.
      by replace (- 0)%Qc with 0%Qc in Hneg by ring. }
    by apply Qcmult_nonneg_nonneg.
  - by apply Qcmult_nonneg_nonneg.
Qed.

Lemma not_negative_Fin (q : Qc) : not_negative (Fin q) <-> (0 <= q)%Qc.
Proof.
  unfold not_negative. simpl. rewrite bool_decide_eq_false. split.
  - apply Qcnot_lt_le.
  - intros Hle Hlt. by apply (Qcle_not_lt _ _ Hle).
Qed.

Lemma not_negative_NInf : ~ not_negative NInf.
Proof. discriminate. Qed.

Lemma not_negative_sign_inf (q : Qc) : (0 <= q)%Qc -> not_negative (sign_inf (q ?= 0)%Qc).
Proof.
  intros Hle. destruct (q ?= 0)%Qc eqn:E; try reflexivity.
  exfalso. apply (Qcle_not_lt _ _ Hle). exact E.
Qed.

Lemma not_negative_add (a b : num) :
  not_negative a -> not_negative b -> not_negative (a + b)%num.
Proof.
  destruct a as [p| | |], b as [q| | |]; intros Ha Hb;
    try reflexivity; try (by destruct (not_negative_NInf)).
  apply not_negative_Fin in Ha, Hb. apply not_negative_Fin.
  by apply Qcplus_nonneg_nonneg.
Qed.

Lemma not_negative_mul (a b : num) :
  not_negative a -> not_negative b -> not_negative (a * b)%num.
Proof.
  destruct a as [p| | |], b as [q| | |]; intros Ha Hb;
    try reflexivity; try (by destruct (not_negative_NInf)).
  - apply not_negative_Fin in Ha, Hb. apply not_negative_Fin.
    by apply Qcmult_nonneg_nonneg.
  - apply not_negative_Fin in Ha. by apply not_negative_sign_inf.
  - apply not_negative_Fin in Hb. by apply not_negative_sign_inf.
Qed.

Lemma not_negative_square (v : num) : not_negative (v * v)%num.
Proof.
  destruct v as [q| | |]; try reflexivity. apply not_negative_Fin, Qc_square_nonneg.
Qed.

Lemma np_sum_not_negative (l : list num) :
  Forall not_negative l -> not_negative (np_sum l).
Proof.
  unfold np_sum. intros Hl. assert (not_negative 0%num) as H0 by reflexivity.
  revert H0. generalize 0%num. induction Hl as [|v l Hv _ IH]; intros a Ha; simpl.
  - exact Ha.
  - apply IH. by apply not_negative_add.
Qed.

Lemma sq_diff_sum_not_negative (rx ry : list num) : not_negative (sq_diff_sum rx ry).
Proof.
  unfold sq_diff_sum. apply np_sum_not_negative, Forall_map, Forall_forall.
  intros d _. apply not_negative_square.
Qed.

Lemma fromkeys_lookup (vars_list : list string) (v w : num) (var : string) :
  fromkeys vars_list v !! var = Some w -> w = v.
Proof.
  unfold fromkeys. intros H. apply elem_of_list_to_map_2 in H.
  apply list_elem_of_fmap in H as (k & [= -> ->] & _). reflexivity.
Qed.

Lemma default_weightings_lookup (P : num -> Prop) (var_weightings : option (gmap string num))
    (vars_list : list string) (var : string) (w : num) :
  P 1%num ->
  match var_weightings with
  | Some w => map_Forall (fun _ v => P v) w
  | None => True
  end ->
  lookup_weight (default_weightings var_weightings vars_list) var = Ok w -> P w.
Proof.
  intros H1 Hw. unfold lookup_weight.
  destruct (default_weightings _ _ !! var) as [w'|] eqn:E; [|discriminate].
  intros [= <-]. destruct var_weightings as [wm|]; simpl in E.
  - case_bool_decide.
    + by rewrite (fromkeys_lookup _ _ _ _ E).
    + by apply (Hw var).
  - by rewrite (fromkeys_lookup _ _ _ _ E).
Qed.

Lemma distance_rows_not_negative (w : gmap string num) (x y : nat)
    (ds : list (string * matrix)) (d : num) :
  (forall var v, lookup_weight w var = Ok v -> not_negative v) ->
  distance_rows w x y ds = Ok d -> not_negative d.
Proof.
  intros Hw Hrun. unfold distance_rows in Hrun.
  eapply (for_each_preserves not_negative); [exact Hrun|reflexivity|].
  intros [var m] s s1 _ Hs Hbody.
  destruct (lookup_weight w var) as [wv|] eqn:Ew; [simpl in Hbody|discriminate].
  destruct (get_item m x) as [rx|]; [simpl in Hbody|discriminate].
  destruct (get_item m y) as [ry|]; [simpl in Hbody|discriminate].
  injection Hbody as <-.
  apply not_negative_add; [exact Hs|].
  apply not_negative_mul; [apply sq_diff_sum_not_negative|by apply (Hw var)].
Qed.

Lemma py_index_elem_of {A} (l : list A) (k : Z) (v : A) :
  py_index l k = Ok v -> v ∈ l.
Proof.
  unfold py_index. destruct (_ && _); [|discriminate].
  destruct (l !! _) as [a|] eqn:E; [|discriminate]. intros [= <-].
  by apply list_elem_of_lookup_2 in E.
Qed.

Lemma distance_2d_of_not_negative (w : gmap string num) (k : Z) (ds_2d : ds_2d_t)
    (d : num) :
  (forall var v, lookup_weight w var = Ok v -> not_negative v) ->
  distance_2d_of w k ds_2d = Ok d -> not_negative d.
Proof.
  intros Hw Hrun. unfold distance_2d_of in Hrun.
  eapply (for_each_preserves not_negative); [exact Hrun|reflexivity|].
  intros [var var_dict] s s1 _ Hs Hbody.
  destruct (lookup_weight w var) as [wv|] eqn:Ew; [simpl in Hbody|discriminate].
  eapply (for_each_preserves not_negative); [exact Hbody|exact Hs|].
  intros [c data] s2 s3 _ Hs2 Hstep.
  destruct (py_index data k) as [v|]; [simpl in Hstep|discriminate].
  destruct (negb (isnan v)); injection Hstep as <-; [|exact Hs2].
  apply not_negative_add; [exact Hs2|].
  apply not_negative_mul; [apply not_negative_square|by apply (Hw var)].
Qed.

(** X4. The distance is never negative: when no variable weight and no
    part weight is below zero, a value that [selfDistance] returns is not
    below zero (it is a number that is not negative, or plus infinity, or
    NaN), whatever the entries of the matrices and vectors are. *)
Theorem selfDistance_never_negative (ds_ts : ds_ts_t) (ds_1d : ds_1d_t)
    (ds_2d : ds_2d_t) (n_regions x y : nat)
    (var_weightings : option (gmap string num))
    (part_weightings : option (list num)) (d : num) :
  not_negative_weightings var_weightings ->
  Forall not_negative (default_part_weightings part_weightings) ->
  selfDistance ds_ts ds_1d ds_2d n_regions x y var_weightings part_weightings = Ok d ->
  not_negative d.
Proof.
  intros Hw Hpw Hrun. unfold selfDistance in Hrun.
  set (w := default_weightings _ _) in Hrun.
  assert (Hlook : forall var v, lookup_weight w var = Ok v -> not_negative v).
  { intros var v. by apply (default_weightings_lookup not_negative). }
  destruct (distance_rows w x y ds_ts) as [dts|] eqn:Ets; [simpl in Hrun|discriminate].
  destruct (distance_rows w x y ds_1d) as [d1d|] eqn:E1d; [simpl in Hrun|discriminate].
  destruct (distance_2d_of w _ ds_2d) as [d2d|] eqn:E2d; [simpl in Hrun|discriminate].
  destruct (py_index _ 0) as [p0|] eqn:E0; [simpl in Hrun|discriminate].
  destruct (py_index _ 1) as [p1|] eqn:E1; [simpl in Hrun|discriminate].
  destruct (py_index _ 2) as [p2|] eqn:E2; [simpl in Hrun|discriminate].
  injection Hrun as <-. rewrite Forall_forall in Hpw.
  apply py_index_elem_of in E0, E1, E2.
  repeat apply not_negative_add; apply not_negative_mul; auto.
  - by apply (distance_rows_not_negative w x y ds_ts).
  - by apply (distance_rows_not_negative w x y ds_1d).
  - by eapply (distance_2d_of_not_negative w _ ds_2d).
Qed.

(** Four regions, one of them with an infinite capacity, and the pairwise
    variable of [pairwise_example]. *)
Lemma selfDistance_never_negative_witness :
  selfDistance [] [("capacity"%string, [[0]; [frac 1 2]; [PInf]; [frac 1 4]]%num)]
               pairwise_example_ds_2d 4 0 2 None None = Ok PInf
  /\ not_negative PInf.
Proof.
  assert (selfDistance [] [("capacity"%string, [[0]; [frac 1 2]; [PInf]; [frac 1 4]]%num)]
               pairwise_example_ds_2d 4 0 2 None None = Ok PInf) as Hrun
    by by_compute.
  split; [exact Hrun|].
  apply (selfDistance_never_negative
           [] [("capacity"%string, [[0]; [frac 1 2]; [PInf]; [frac 1 4]]%num)]
           pairwise_example_ds_2d 4 0 2 None None PInf).
  - exact I.
  - repeat constructor.
  - exact Hrun.
Defined.

Lemma sq_diff_sum_self (r : list num) : finite_list r -> sq_diff_sum r r = 0%num.
Proof.
  unfold sq_diff_sum, np_sum. intros Hr.
  induction Hr as [|a r Ha _ IH]; [reflexivity|]. simpl.
  destruct a as [q| | |]; try discriminate. simpl.
  replace (0 + (q + - q) * (q + - q))%Qc with 0%Qc by ring. exact IH.
Qed.

Lemma distance_rows_self (w : gmap string num) (x : nat) (ds : list (string * matrix))
    (d : num) :
  Forall (fun p => finite_matrix p.2) ds ->
  (forall var v, lookup_weight w var = Ok v -> isfinite v = true) ->
  distance_rows w x x ds = Ok d -> d = 0%num.
Proof.
  intros Hfin Hw Hrun. unfold distance_rows in Hrun.
  eapply (for_each_preserves (fun s => s = 0%num)); [exact Hrun|reflexivity|].
  intros [var var_matr] s s1 Hin -> Hbody.
  destruct (lookup_weight w var) as [wv|] eqn:Ew; [simpl in Hbody|discriminate].
  unfold get_item in Hbody.
  destruct (var_matr !! x) as [rx|] eqn:Ex; [simpl in Hbody|discriminate].
  injection Hbody as <-.
  rewrite Forall_forall in Hfin. specialize (Hfin _ Hin). simpl in Hfin.
  rewrite sq_diff_sum_self by (by apply (Forall_lookup_1 _ _ _ _ Hfin Ex)).
  pose proof (Hw _ _ Ew) as Hwv. destruct wv as [q| | |]; try discriminate.
  simpl. apply (f_equal Fin). ring.
Qed.

Lemma without_vectors_keys (ds_2d : ds_2d_t) :
  map fst (without_vectors ds_2d) = map fst ds_2d.
Proof. unfold without_vectors. rewrite map_map. by apply map_ext. Qed.

Lemma distance_2d_of_without_vectors (w : gmap string num) (k : Z) (ds_2d : ds_2d_t)
    (d : num) :
  distance_2d_of w k (without_vectors ds_2d) = Ok d -> d = 0%num.
Proof.
  intros Hrun. unfold distance_2d_of in Hrun.
  eapply (for_each_preserves (fun s => s = 0%num)); [exact Hrun|reflexivity|].
  intros [var var_dict] s s1 Hin -> Hbody.
  unfold without_vectors in Hin. apply list_elem_of_fmap in Hin as (p & [= -> ->] & _).
  destruct (lookup_weight w p.1); [simpl in Hbody|discriminate]. by injection Hbody as <-.
Qed.

(** X5. Without pairwise vectors a region is at distance 0 from itself:
    for feature matrices of numbers and variable and part weights that are
    numbers, every value that [selfDistance] returns for the pair (x, x)
    is 0. *)
Theorem selfDistance_self_zero (ds_ts : ds_ts_t) (ds_1d : ds_1d_t) (ds_2d : ds_2d_t)
    (n_regions x : nat) (var_weightings : option (gmap string num))
    (part_weightings : option (list num)) (d : num) :
  Forall (fun p => finite_matrix p.2) ds_ts ->
  Forall (fun p => finite_matrix p.2) ds_1d ->
  finite_weightings var_weightings ->
  finite_list (default_part_weightings part_weightings) ->
  selfDistance ds_ts ds_1d (without_vectors ds_2d) n_regions x x
               var_weightings part_weightings = Ok d ->
  d = 0%num.
Proof.
  intros Hts H1d Hw Hpw Hrun. unfold selfDistance in Hrun.
  set (w := default_weightings _ _) in Hrun.
  assert (Hlook : forall var v, lookup_weight w var = Ok v -> isfinite v = true).
  { intros var v. by apply (default_weightings_lookup (fun v => isfinite v = true)). }
  destruct (distance_rows w x x ds_ts) as [dts|] eqn:Ets; [simpl in Hrun|discriminate].
  destruct (distance_rows w x x ds_1d) as [d1d|] eqn:E1d; [simpl in Hrun|discriminate].
  destruct (distance_2d_of w _ _) as [d2d|] eqn:E2d; [simpl in Hrun|discriminate].
  apply (distance_rows_self w x ds_ts _ Hts Hlook) in Ets.
  apply (distance_rows_self w x ds_1d _ H1d Hlook) in E1d.
  apply distance_2d_of_without_vectors in E2d. subst dts d1d d2d.
  destruct (py_index _ 0) as [p0|] eqn:E0; [simpl in Hrun|discriminate].
  destruct (py_index _ 1) as [p1|] eqn:E1; [simpl in Hrun|discriminate].
  destruct (py_index _ 2) as [p2|] eqn:E2; [simpl in Hrun|discriminate].
  injection Hrun as <-. unfold finite_list in Hpw. rewrite Forall_forall in Hpw.
  apply py_index_elem_of, Hpw in E0, E1, E2.
  destruct p0, p1, p2; try discriminate. simpl. apply (f_equal Fin). ring.
Qed.

Lemma selfDistance_self_zero_witness :
  selfDistance [] [("capacity"%string, [[0]; [frac 1 2]; [1]; [frac 1 4]]%num)]
               (without_vectors pairwise_example_ds_2d) 4 2 2 None None
  = Ok 0%num.
Proof.
  destruct (selfDistance [] [("capacity"%string, [[0]; [frac 1 2]; [1]; [frac 1 4]]%num)]
               (without_vectors pairwise_example_ds_2d) 4 2 2 None None) as [d|e] eqn:E.
  - f_equal.
    apply (selfDistance_self_zero [] [("capacity"%string, [[0]; [frac 1 2]; [1]; [frac 1 4]]%num)]
             pairwise_example_ds_2d 4 2 None None d); try exact E.
    + constructor.
    + repeat constructor.
    + exact I.
    + repeat constructor.
  - exfalso. revert E. by_compute.
Defined.

Lemma py_index_cons_0 {A} (a : A) (l : list A) : py_index (a :: l) 0 = Ok a.
Proof.
  unfold py_index. simpl length. rewrite Nat2Z.inj_succ. simpl.
  destruct (Z.ltb_spec 0 (Z.succ (Z.of_nat (length l)))); [reflexivity|lia].
Qed.

Lemma py_index_cons_succ {A} (a : A) (l : list A) (k : Z) :
  0 <= k -> py_index (a :: l) (k + 1) = py_index l k.
Proof.
  intros Hk. unfold py_index. simpl length. rewrite Nat2Z.inj_succ.
  destruct (Z.ltb_spec (k + 1) 0); [lia|]. destruct (Z.ltb_spec k 0); [lia|].
  destruct (Z.leb_spec 0 (k + 1)); [|lia]. destruct (Z.leb_spec 0 k); [|lia].
  destruct (Z.ltb_spec (k + 1) (Z.succ (Z.of_nat (length l)))),
           (Z.ltb_spec k (Z.of_nat (length l))); try lia; simpl; [|reflexivity].
  replace (Z.to_nat (k + 1)) with (S (Z.to_nat k)) by lia. reflexivity.
Qed.

(** X6. The list of part weights is read at the positions 0, 1 and 2 after
    the three parts are computed: a list of one or two weights makes
    [selfDistance] raise IndexError where the call without part weights
    returns, and weights beyond the third are ignored. *)
Theorem selfDistance_part_weightings_length :
  (forall (ds_ts : ds_ts_t) (ds_1d : ds_1d_t) (ds_2d : ds_2d_t) (n x y : nat)
          (var_weightings : option (gmap string num)) (l : list num) (d : num),
      selfDistance ds_ts ds_1d ds_2d n x y var_weightings None = Ok d ->
      l <> [] -> (length l < 3)%nat ->
      selfDistance ds_ts ds_1d ds_2d n x y var_weightings (Some l)
      = Raise IndexError)
  /\ (forall (ds_ts : ds_ts_t) (ds_1d : ds_1d_t) (ds_2d : ds_2d_t) (n x y : nat)
             (var_weightings : option (gmap string num)) (a b c : num)
             (rest : list num),
      selfDistance ds_ts ds_1d ds_2d n x y var_weightings (Some (a :: b :: c :: rest))
      = selfDistance ds_ts ds_1d ds_2d n x y var_weightings (Some [a; b; c])).
Proof.
  split.
  - intros ds_ts ds_1d ds_2d n x y vw l d Hrun Hne Hlen. unfold selfDistance in *.
    destruct (distance_rows _ x y ds_ts); [simpl in *|discriminate].
    destruct (distance_rows _ x y ds_1d); [simpl in *|discriminate].
    destruct (distance_2d_of _ _ ds_2d); [simpl in *|discriminate].
    destruct l as [|w0 [|w1 [|w2 l]]]; [done| | |simpl in Hlen; lia]; reflexivity.
  - intros ds_ts ds_1d ds_2d n x y vw a b c rest. unfold selfDistance.
    cbn [default_part_weightings].
    rewrite !py_index_cons_0.
    rewrite !(py_index_cons_succ _ _ 0 (Z.le_refl 0)), !py_index_cons_0.
    rewrite !(py_index_cons_succ _ _ 1 ltac:(lia)).
    rewrite !(py_index_cons_succ _ _ 0 (Z.le_refl 0)), !py_index_cons_0.
    reflexivity.
Qed.

Lemma selfDistance_part_weightings_length_witness :
  selfDistance [] [("capacity"%string, [[0]; [frac 1 2]; [1]]%num)] [] 3 0 2
               None (Some [1; 1]%num)
  = Raise IndexError.
Proof.
  destruct selfDistance_part_weightings_length as [H _].
  apply (H [] [("capacity"%string, [[0]; [frac 1 2]; [1]]%num)] [] 3%nat 0%nat 2%nat
           None [1; 1]%num 1%num).
  - by_compute.
  - discriminate.
  - simpl. lia.
Defined.

Lemma for_each_all_nan (wv : num) (k : Z) (var_dict : list (nat * list num)) (d : num) :
  Forall (fun q => py_index q.2 k = Ok NaN) var_dict ->
  for_each (fun '(_, data) distance_2d =>
      let* value_var_c := py_index data k in
      if negb (isnan value_var_c)
      then Ok (distance_2d + (value_var_c * value_var_c) * wv)%num
      else Ok distance_2d) var_dict d
  = Ok d.
Proof.
  induction 1 as [|[c data] var_dict Hq _ IH]; simpl; [reflexivity|].
  simpl in Hq. rewrite Hq. simpl. exact IH.
Qed.

(** X7. A missing pairwise value counts as no contribution: when the entry
    that [selfDistance] reads is NaN in every component vector, the outcome
    is the one for the same variables without any vector. *)
Theorem selfDistance_skips_missing (ds_ts : ds_ts_t) (ds_1d : ds_1d_t)
    (ds_2d : ds_2d_t) (n_regions x y : nat)
    (var_weightings : option (gmap string num))
    (part_weightings : option (list num)) :
  Forall (fun p => Forall (fun q =>
      py_index q.2 (condensed_index (Z.of_nat n_regions) (Z.of_nat x) (Z.of_nat y))
      = Ok NaN) p.2) ds_2d ->
  selfDistance ds_ts ds_1d ds_2d n_regions x y var_weightings part_weightings
  = selfDistance ds_ts ds_1d (without_vectors ds_2d) n_regions x y
                 var_weightings part_weightings.
Proof.
  intros Hnan. unfold selfDistance. rewrite without_vectors_keys.
  set (w := default_weightings _ _). clearbody w.
  set (k := condensed_index _ _ _) in *. clearbody k.
  assert (distance_2d_of w k ds_2d = distance_2d_of w k (without_vectors ds_2d)) as ->;
    [|reflexivity].
  unfold distance_2d_of. generalize 0%num.
  induction Hnan as [|[var var_dict] ds Hvar _ IH]; intros d; simpl; [reflexivity|].
  destruct (lookup_weight w var) as [wv|]; simpl; [|reflexivity].
  simpl in Hvar. rewrite (for_each_all_nan wv k var_dict d Hvar). simpl. apply IH.
Qed.

Lemma selfDistance_skips_missing_witness :
  selfDistance [] [] [("capacity_2d"%string, [(0%nat, [1; NaN; 0]%num)])] 3 0 2
               None None
  = selfDistance [] [] (without_vectors [("capacity_2d"%string, [(0%nat, [1; NaN; 0]%num)])])
                 3 0 2 None None.
Proof.
  apply (selfDistance_skips_missing [] []
           [("capacity_2d"%string, [(0%nat, [1; NaN; 0]%num)])] 3 0 2 None None).
  repeat constructor.
Defined.

(** ** selfDistanceMatrix: the entries *)

Lemma set_item2_entries (m m' : matrix) (i j : nat) (d : num) :
  set_item2 m i j d = Ok m' ->
  entry m' i j = Some d
  /\ (forall a b, a <> i -> entry m' a b = entry m a b).
Proof.
  unfold set_item2, get_item. destruct (m !! i) as [r|] eqn:Hr; [simpl|discriminate].
  destruct (r !! j) as [x|] eqn:Hx; [simpl|discriminate].
  intros [= <-]. pose proof (lookup_lt_Some _ _ _ Hr). pose proof (lookup_lt_Some _ _ _ Hx).
  unfold entry. split.
  - rewrite list_lookup_insert_eq by assumption. simpl.
    by apply list_lookup_insert_eq.
  - intros a b Hne. by rewrite list_lookup_insert_ne.
Qed.

(** A loop that writes [f j] at the places [(i, j)] of one row. *)
Lemma write_row (f : nat -> result num) (i : nat) (js : list nat) (m m' : matrix) :
  for_each (fun j m => let* d := f j in set_item2 m i j d) js m = Ok m' ->
  (forall j, j ∈ js -> exists d, f j = Ok d /\ entry m' i j = Some d)
  /\ (forall a b, a <> i -> entry m' a b = entry m a b)
  /\ (forall b, b ∉ js -> entry m' i b = entry m i b).
Proof.
  revert m; induction js as [|j js IH]; intros m Hrun; simpl in Hrun.
  - injection Hrun as <-. split; [|done]. intros j Hj. by apply elem_of_nil in Hj.
  - destruct (f j) as [d|] eqn:Hd; [simpl in Hrun|discriminate].
    destruct (set_item2 m i j d) as [m1|] eqn:Hset; [simpl in Hrun|discriminate].
    destruct (IH m1 Hrun) as (Hin & Hrows & Hout).
    unfold set_item2, get_item in Hset.
    destruct (m !! i) as [r|] eqn:Hr; [simpl in Hset|discriminate].
    destruct (r !! j) as [x|] eqn:Hx; [simpl in Hset|discriminate].
    injection Hset as <-.
    pose proof (lookup_lt_Some _ _ _ Hr). pose proof (lookup_lt_Some _ _ _ Hx).
    split; [|split].
    + intros j' Hj'. destruct (decide (j' ∈ js)) as [Hjs|Hjs]; [by apply Hin|].
      apply elem_of_cons in Hj' as [->|Hj']; [|done].
      exists d. split; [assumption|]. rewrite (Hout j Hjs). unfold entry.
      rewrite list_lookup_insert_eq by assumption. simpl.
      by apply list_lookup_insert_eq.
    + intros a b Hne. rewrite (Hrows a b Hne). unfold entry.
      by rewrite list_lookup_insert_ne.
    + intros b Hb. apply not_elem_of_cons in Hb as [Hne Hb]. rewrite (Hout b Hb).
      unfold entry. rewrite list_lookup_insert_eq by assumption. rewrite Hr. simpl.
      by apply list_lookup_insert_ne.
Qed.

(** The loop over the rows. *)
Lemma write_rows (f : nat -> nat -> result num) (js : nat -> list nat)
    (rows : list nat) (m m' : matrix) :
  for_each (fun i m => for_each (fun j m => let* d := f i j in set_item2 m i j d)
                                (js i) m) rows m = Ok m' ->
  (forall i j, i ∈ rows -> j ∈ js i -> exists d, f i j = Ok d /\ entry m' i j = Some d)
  /\ (forall a b, a ∉ rows -> entry m' a b = entry m a b).
Proof.
  revert m; induction rows as [|i rows IH]; intros m Hrun; simpl in Hrun.
  - injection Hrun as <-. split; [|done]. intros i j Hi. by apply elem_of_nil in Hi.
  - destruct (for_each _ (js i) m) as [m1|] eqn:Hrow; [simpl in Hrun|discriminate].
    destruct (IH m1 Hrun) as (Hin & Hout).
    destruct (write_row (f i) i (js i) m m1 Hrow) as (Hrow_in & Hrow_other & _).
    split.
    + intros i' j Hi' Hj. destruct (decide (i' ∈ rows)) as [Hrows|Hrows]; [by apply Hin|].
      apply elem_of_cons in Hi' as [->|Hi']; [|done].
      destruct (Hrow_in j Hj) as (d & Hd & Hentry).
      exists d. split; [assumption|]. by rewrite (Hout i j Hrows).
    + intros a b Ha. apply not_elem_of_cons in Ha as [Hne Ha].
      rewrite (Hout a b Ha). by apply Hrow_other.
Qed.

Lemma num_add_zero_diff (d : num) : (d + (0 - 0))%num = d.
Proof.
  destruct d as [q| | |]; try reflexivity. simpl. apply (f_equal Fin). ring.
Qed.

(** X8. When [selfDistanceMatrix] returns, the call of [selfDistance] for
    every pair i < j returned, and its value stands at both places
    [i, j] and [j, i] of the matrix. *)
Theorem selfDistanceMatrix_entries (ds_ts : ds_ts_t) (ds_1d : ds_1d_t)
    (ds_2d : ds_2d_t) (n_regions : nat)
    (var_weightings : option (gmap string num)) (distMatrix : matrix) (i j : nat) :
  selfDistanceMatrix ds_ts ds_1d ds_2d n_regions var_weightings = Ok distMatrix ->
  (i < j < n_regions)%nat ->
  exists d,
    selfDistance ds_ts ds_1d ds_2d n_regions i j var_weightings None = Ok d
    /\ get_item2 distMatrix i j = Ok d
    /\ get_item2 distMatrix j i = Ok d.
Proof.
  intros Hrun Hij. unfold selfDistanceMatrix in Hrun.
  destruct (for_each _ _ _) as [m|] eqn:Hloop; [simpl in Hrun|discriminate].
  injection Hrun as <-.
  assert (Hup : upper_only n_regions m).
  { apply (pair_loop_preserves (upper_only n_regions) _ _ _ _ Hloop);
      [apply upper_only_zeros|].
    intros v w s s1 Hvw Hs Hbody.
    destruct (selfDistance _ _ _ _ v w _ _) as [d|]; [simpl in Hbody|discriminate].
    destruct (set_item2_upper_only n_regions s v w d Hs Hvw) as (s2 & Hs2 & Hup).
    rewrite Hs2 in Hbody. by injection Hbody as <-. }
  destruct (write_rows
              (fun i j => selfDistance ds_ts ds_1d ds_2d n_regions i j var_weightings None)
              (fun i => range (i + 1) n_regions) _ _ _ Hloop) as [Hin _].
  destruct (Hin i j) as (d & Hd & Hentry); [apply elem_of_range; lia..|].
  exists d. split; [assumption|].
  destruct Hup as [Hsq Hlow].
  assert (Hdiag : forall i r, m !! i = Some r -> r !! i = Some 0%num).
  { intros a r Hr. pose proof (lookup_lt_Some _ _ _ Hr) as Ha.
    destruct Hsq as [Hlen _]. specialize (Hlow a a (Nat.le_refl a) ltac:(lia)).
    unfold entry in Hlow. by rewrite Hr in Hlow. }
  pose proof (Hlow j i ltac:(lia) ltac:(lia)) as Hji.
  split; apply get_item2_entry.
  - replace (Some d) with (Some (d + (0 - 0))%num) by (by rewrite num_add_zero_diff).
    apply (reflect_upper_entry n_regions m i j d 0%num); try assumption; lia.
  - replace (Some d) with (Some (0 + (d - 0))%num)
      by (by rewrite <- num_reflect, num_add_zero_diff).
    apply (reflect_upper_entry n_regions m j i 0%num d); try assumption; lia.
Qed.

Lemma selfDistanceMatrix_entries_witness :
  exists d,
    selfDistance [] [("capacity"%string, [[0]; [frac 1 2]; [1]]%num)] [] 3 0 2 None None
    = Ok d
    /\ get_item2 [[0; frac 1 4; 1]; [frac 1 4; 0; frac 1 4]; [1; frac 1 4; 0]]%num 0 2 = Ok d
    /\ get_item2 [[0; frac 1 4; 1]; [frac 1 4; 0; frac 1 4]; [1; frac 1 4; 0]]%num 2 0 = Ok d.
Proof.
  apply (selfDistanceMatrix_entries
           [] [("capacity"%string, [[0]; [frac 1 2]; [1]]%num)] [] 3 None
           [[0; frac 1 4; 1]; [frac 1 4; 0; frac 1 4]; [1; frac 1 4; 0]]%num 0 2).
  - by_compute.
  - lia.
Defined.

(** X9. For fewer than two regions there is no pair: [selfDistanceMatrix]
    returns the zero matrix whatever the dictionaries and the weights hold,
    and [selfDistance] is not called. *)
Theorem selfDistanceMatrix_no_pair (ds_ts : ds_ts_t) (ds_1d : ds_1d_t)
    (ds_2d : ds_2d_t) (n_regions : nat)
    (var_weightings : option (gmap string num)) :
  (n_regions <= 1)%nat ->
  selfDistanceMatrix ds_ts ds_1d ds_2d n_regions var_weightings
  = Ok (np_zeros n_regions n_regions).
Proof.
  intros Hn. destruct n_regions as [|[|n]]; [| |lia].
  - reflexivity.
  - unfold selfDistanceMatrix. simpl. apply (f_equal Ok). by_compute.
Qed.

(** A variable without a weight makes [selfDistance] raise, yet the matrix
    of a single region is returned. *)
Lemma selfDistanceMatrix_no_pair_witness :
  selfDistanceMatrix [] [("capacity"%string, [[1]]%num)] [] 1
                     (Some {[ "other"%string := 1%num ]})
  = Ok (np_zeros 1 1).
Proof.
  apply (selfDistanceMatrix_no_pair
           [] [("capacity"%string, [[1]]%num)] [] 1 (Some {[ "other"%string := 1%num ]})).
  lia.
Defined.

(** ** computeModularity: labels, shape, diagonal *)

Lemma get_item_map {A B} (f : A -> B) (l : list A) (i : nat) :
  get_item (map f l) i
  = match get_item l i with Ok a => Ok (f a) | Raise e => Raise e end.
Proof.
  unfold get_item. change (map f l) with (f <$> l). rewrite list_lookup_fmap.
  by destruct (l !! i).
Qed.

(** X10. The modularity depends on the labels only through the partition
    they describe: renaming the labels one-to-one changes neither the
    returned value (or exception) nor the array left behind. *)
Theorem computeModularity_relabel (adjacency : matrix) (regions_label_list : list Z)
    (rename : Z -> Z) :
  (forall a b, rename a = rename b -> a = b) ->
  computeModularity adjacency (map rename regions_label_list)
  = computeModularity adjacency regions_label_list.
Proof.
  intros Hinj. unfold computeModularity. rewrite length_map.
  f_equal. f_equal.
  apply for_each_ext. intros v s _. apply for_each_ext. intros w s' _.
  destruct (get_item (fill_diagonal adjacency 0%num) v); [simpl|reflexivity].
  destruct (get_item (fill_diagonal adjacency 0%num) w); [simpl|reflexivity].
  rewrite !get_item_map.
  destruct (get_item regions_label_list v) as [lv|]; [simpl|reflexivity].
  destruct (get_item regions_label_list w) as [lw|]; [simpl|reflexivity].
  destruct (Z.eqb_spec lv lw) as [->|Hne].
  - by rewrite Z.eqb_refl.
  - destruct (Z.eqb_spec (rename lv) (rename lw)) as [Heq|_]; [|reflexivity].
    by apply Hinj in Heq.
Qed.

Lemma computeModularity_relabel_witness :
  computeModularity [[0; 1; 0]; [1; 0; 1]; [0; 1; 0]]%num
                    (map (fun l => 10 - l) [0; 0; 1])
  = computeModularity [[0; 1; 0]; [1; 0; 1]; [0; 1; 0]]%num [0; 0; 1].
Proof.
  apply (computeModularity_relabel [[0; 1; 0]; [1; 0; 1]; [0; 1; 0]]%num [0; 0; 1]
           (fun l => 10 - l)).
  intros a b. lia.
Defined.

(** The exceptions of a loop are exceptions of its body, and a loop that
    returns has run its body at every element. *)
Lemma for_each_Raise {A S} (body : A -> S -> result S) (l : list A) (s : S) (e : exn) :
  for_each body l s = Raise e -> exists a s1, a ∈ l /\ body a s1 = Raise e.
Proof.
  revert s; induction l as [|a l IH]; intros s Hrun; simpl in Hrun; [discriminate|].
  destruct (body a s) as [s1|e1] eqn:E; simpl in Hrun.
  - destruct (IH s1 Hrun) as (a' & s2 & Ha' & Hbody). exists a', s2. split; [by right|done].
  - injection Hrun as <-. exists a, s. split; [by left|done].
Qed.

Lemma for_each_Ok_inv {A S} (body : A -> S -> result S) (l : list A) (s s' : S) (a : A) :
  for_each body l s = Ok s' -> a ∈ l -> exists s1 s2, body a s1 = Ok s2.
Proof.
  revert s; induction l as [|a' l IH]; intros s Hrun Ha; simpl in Hrun.
  - by apply elem_of_nil in Ha.
  - destruct (body a' s) as [s1|] eqn:E; [simpl in Hrun|discriminate].
    apply elem_of_cons in Ha as [->|Ha]; [by exists s, s1|by eapply IH].
Qed.

Lemma get_item_Raise {A} (l : list A) (i : nat) (e : exn) :
  get_item l i = Raise e -> e = IndexError /\ (length l <= i)%nat.
Proof.
  unfold get_item. destruct (l !! i) eqn:E; [discriminate|].
  intros [= <-]. split; [reflexivity|by apply lookup_ge_None].
Qed.

(** X11. An adjacency array with fewer rows than there are labels, for two
    labels or more, makes [computeModularity] raise IndexError; no other
    exception is raised. *)
Theorem computeModularity_short_adjacency (adjacency : matrix)
    (regions_label_list : list Z) :
  (2 <= length regions_label_list)%nat ->
  (length adjacency < length regions_label_list)%nat ->
  snd (computeModularity adjacency regions_label_list) = Raise IndexError.
Proof.
  intros Hn Hshort. unfold computeModularity. cbn [snd].
  set (adj := fill_diagonal adjacency 0%num).
  set (n := length regions_label_list) in *.
  set (total := np_sum (concat adj)).
  assert (Hlen : length adj = length adjacency) by apply fill_diagonal_length.
  destruct (for_each _ (range 0 n) 0%num) as [modularity|e] eqn:Hloop; simpl.
  - exfalso.
    destruct (for_each_Ok_inv _ _ _ _ (n - 2)%nat Hloop) as (s1 & s2 & Hrow);
      [apply elem_of_range; lia|].
    destruct (for_each_Ok_inv _ _ _ _ (n - 1)%nat Hrow) as (s3 & s4 & Hbody);
      [apply elem_of_range; lia|].
    destruct (get_item adj (n - 2)) as [rv|]; [simpl in Hbody|discriminate].
    destruct (get_item adj (n - 1)) as [rw|] eqn:Hw; [|discriminate].
    unfold get_item in Hw. destruct (adj !! (n - 1)%nat) eqn:E; [|discriminate].
    apply lookup_lt_Some in E. lia.
  - f_equal.
    destruct (for_each_Raise _ _ _ _ Hloop) as (v & s1 & _ & Hrow).
    destruct (for_each_Raise _ _ _ _ Hrow) as (w & s2 & _ & Hbody).
    destruct (get_item adj v) as [rv|] eqn:Hv; simpl in Hbody;
      [|unfold get_item in Hv; destruct (adj !! v); congruence].
    destruct (get_item adj w) as [rw|] eqn:Hw; simpl in Hbody;
      [|unfold get_item in Hw; destruct (adj !! w); congruence].
    destruct (get_item regions_label_list v) as [lv|] eqn:Hlv; simpl in Hbody;
      [|unfold get_item in Hlv; destruct (regions_label_list !! v); congruence].
    destruct (get_item regions_label_list w) as [lw|] eqn:Hlw; simpl in Hbody;
      [|unfold get_item in Hlw; destruct (regions_label_list !! w); congruence].
    unfold get_item2 in Hbody. rewrite Hv in Hbody. simpl in Hbody.
    destruct (get_item rv w) as [a|] eqn:Ha; simpl in Hbody; [discriminate|].
    unfold get_item in Ha. destruct (rv !! w); congruence.
Qed.

Lemma computeModularity_short_adjacency_witness :
  snd (computeModularity [[0; 1; 1]; [1; 0; 1]]%num [0; 0; 1]) = Raise IndexError.
Proof.
  apply (computeModularity_short_adjacency [[0; 1; 1]; [1; 0; 1]]%num [0; 0; 1]);
    simpl; lia.
Defined.

Lemma fill_diagonal_twice (a : matrix) (v w : num) :
  fill_diagonal (fill_diagonal a v) w = fill_diagonal a w.
Proof.
  apply list_eq. intros i. rewrite !fill_diagonal_lookup.
  destruct (a !! i) as [r|]; [simpl|reflexivity]. by rewrite list_insert_insert_eq.
Qed.

(** X12. The diagonal of the adjacency array has no influence: the outcome
    is the same for any other values on the diagonal, and it is the same
    when the function is called again on the array that its first call left
    behind. *)
Theorem computeModularity_ignores_diagonal (adjacency : matrix)
    (regions_label_list : list Z) :
  (forall val, computeModularity (fill_diagonal adjacency val) regions_label_list
               = computeModularity adjacency regions_label_list)
  /\ computeModularity (fst (computeModularity adjacency regions_label_list))
                       regions_label_list
     = computeModularity adjacency regions_label_list.
Proof.
  split.
  - intros val. unfold computeModularity. by rewrite fill_diagonal_twice.
  - unfold computeModularity at 2. cbn [fst].
    unfold computeModularity. by rewrite fill_diagonal_twice.
Qed.

(** ** The preprocessing functions: shapes and edge cases *)

Lemma hconcat_length (a b r : matrix) : hconcat a b = Ok r -> length r = length a.
Proof.
  unfold hconcat. destruct (Nat.eqb_spec (length a) (length b)); [|discriminate].
  intros [= <-]. rewrite length_zip_with. lia.
Qed.

Lemma preprocessTimeSeries_var_rows (da : list matrix) (n_regions n_components : nat)
    (m : matrix) :
  preprocessTimeSeries_var da n_regions n_components = Ok m -> length m = n_regions.
Proof.
  unfold preprocessTimeSeries_var.
  destruct (valid_component_ids _ _) as [ids|]; [simpl|discriminate].
  destruct (for_each _ ids _) as [mv|] eqn:Hloop; [simpl|discriminate].
  intros [= <-]. unfold delete_col0. rewrite length_map.
  apply (for_each_preserves (fun s : matrix => length s = n_regions) _ _ _ _ Hloop).
  - apply length_replicate.
  - intros comp_id s s1 _ Hs Hbody.
    destruct (get_item da comp_id); [simpl in Hbody|discriminate].
    destruct (matrix_MinMaxScaler _ _ _); [simpl in Hbody|discriminate].
    by rewrite (hconcat_length _ _ _ Hbody).
Qed.

Lemma map_result_Forall {A B} (P : B -> Prop) (f : A -> result B) (l : list A)
    (r : list B) :
  map_result f l = Ok r -> (forall a b, a ∈ l -> f a = Ok b -> P b) -> Forall P r.
Proof.
  revert r; induction l as [|a l IH]; intros r Hrun HP; simpl in Hrun.
  - injection Hrun as <-. constructor.
  - destruct (f a) as [b|] eqn:E; [simpl in Hrun|discriminate].
    destruct (map_result f l) as [r'|]; [simpl in Hrun|discriminate].
    injection Hrun as <-. constructor.
    + apply (HP a b); [by left|assumption].
    + apply IH; [reflexivity|]. intros a' b' Ha'. apply HP. by right.
Qed.

(** X13. The dictionary that [preprocessTimeSeries] returns has the keys of
    its argument, in the same order, and each of its matrices has
    [n_regions] rows. *)
Theorem preprocessTimeSeries_shape (vars_dict : list (string * list matrix))
    (n_regions n_components : nat) (ds_ts : ds_ts_t) :
  preprocessTimeSeries vars_dict n_regions n_components = Ok ds_ts ->
  map fst ds_ts = map fst vars_dict
  /\ Forall (fun p => length p.2 = n_regions) ds_ts.
Proof.
  intros Hrun. split.
  - by apply (map_result_keys
                (fun da => preprocessTimeSeries_var da n_regions n_components)).
  - apply (map_result_Forall _ _ _ _ Hrun). intros [var da] [var' m] _ Hvar.
    destruct (preprocessTimeSeries_var da n_regions n_components) as [m'|] eqn:E;
      [simpl in Hvar|discriminate].
    injection Hvar as _ <-. simpl. by apply (preprocessTimeSeries_var_rows _ _ _ _ E).
Qed.

Lemma preprocessTimeSeries_shape_witness :
  map fst [("demand"%string, [[0; frac 1 4; 1; frac 1 2]; [1; frac 1 2; 0; frac 1 4]]%num)]
  = map fst [("demand"%string,
              [[[0; frac 1 2]; [2; 1]]; [[NaN; NaN]; [NaN; NaN]]; [[frac 1 2; frac 1 4]; [0; frac 1 8]]]%num)]
  /\ Forall (fun p : string * matrix => length p.2 = 2%nat)
       [("demand"%string, [[0; frac 1 4; 1; frac 1 2]; [1; frac 1 2; 0; frac 1 4]]%num)].
Proof.
  apply (preprocessTimeSeries_shape
           [("demand"%string,
             [[[0; frac 1 2]; [2; 1]]; [[NaN; NaN]; [NaN; NaN]]; [[frac 1 2; frac 1 4]; [0; frac 1 8]]]%num)]
           2 3).
  by_compute.
Defined.






Lemma num_mul_one (v : num) : (v * 1)%num = v.
Proof.
  destruct v as [q| | |]; try reflexivity. simpl. apply (f_equal Fin). ring.
Qed.

Lemma scale_matrix_one (m : matrix) : scale_matrix m 1%num = m.
Proof.
  unfold scale_matrix. rewrite <- (map_id m) at 2. apply map_ext. intros r.
  rewrite <- (map_id r) at 2. apply map_ext. intros v. apply num_mul_one.
Qed.

Lemma zip_with_app_cons (z : num) (h m : matrix) :
  zip_with app (map (cons z) h) m = map (cons z) (zip_with app h m).
Proof.
  revert m; induction h as [|r h IH]; intros [|r' m]; simpl; try reflexivity.
  by rewrite IH.
Qed.

Lemma fromkeys_lookup_elem (vars_list : list string) (v : num) (var : string) :
  var ∈ vars_list -> lookup_weight (fromkeys vars_list v) var = Ok v.
Proof.
  intros Hin. unfold lookup_weight.
  destruct (fromkeys vars_list v !! var) as [w|] eqn:E.
  - by rewrite (fromkeys_lookup _ _ _ _ E).
  - unfold fromkeys in E. apply not_elem_of_list_to_map_2 in E. exfalso. apply E.
    change (map ?f ?l) with (f <$> l). rewrite <- list_fmap_compose.
    apply list_elem_of_fmap. by exists var.
Qed.

(** X15. With the default weights, the weighted concatenation of steps 4a
    and 4b of [preprocessDataset] is the plain concatenation of the
    preprocessed matrices, column block after column block. *)
Theorem concat_weighted_default (n_regions : nat) (ds : list (string * matrix))
    (vars_list : list string) :
  Forall (fun p => length p.2 = n_regions) ds ->
  (forall var, var ∈ map fst ds -> var ∈ vars_list) ->
  concat_weighted (default_weightings None vars_list) n_regions ds
  = Ok (hstack n_regions (map snd ds)).
Proof.
  intros Hrows Hkeys. unfold concat_weighted, hstack. simpl default_weightings.
  assert (np_zeros n_regions 1 = map (cons 0%num) (replicate n_regions [])) as ->.
  { unfold np_zeros. change (map ?f ?l) with (f <$> l). by rewrite fmap_replicate. }
  assert (Hloop : forall h, length h = n_regions ->
    for_each (fun '(var, var_matrix) m =>
        let* weight := lookup_weight (fromkeys vars_list 1%num) var in
        hconcat m (scale_matrix var_matrix weight)) ds (map (cons 0%num) h)
    = Ok (map (cons 0%num) (foldl (zip_with app) h (map snd ds)))).
  { induction ds as [|[var m] ds IH]; intros h Hh; simpl; [reflexivity|].
    apply Forall_cons in Hrows as [Hm Hrows]. simpl in Hm.
    rewrite fromkeys_lookup_elem by (apply Hkeys; simpl; left). simpl.
    rewrite scale_matrix_one. unfold hconcat. rewrite length_map, Hh, Hm, Nat.eqb_refl.
    simpl. rewrite zip_with_app_cons. apply IH.
    - assumption.
    - intros var' Hvar'. apply Hkeys. simpl. by right.
    - rewrite length_zip_with. lia. }
  rewrite Hloop by apply length_replicate. simpl. f_equal.
  unfold delete_col0. rewrite map_map. simpl. apply map_id.
Qed.

Lemma concat_weighted_default_witness :
  concat_weighted (default_weightings None ["demand"; "capacity"]%string) 2
    [("demand"%string, [[0; 1]; [1; 0]]%num); ("capacity"%string, [[frac 1 2]; [1]]%num)]
  = Ok (hstack 2 (map snd
     [("demand"%string, [[0; 1]; [1; 0]]%num); ("capacity"%string, [[frac 1 2]; [1]]%num)])).
Proof.
  apply (concat_weighted_default 2
    [("demand"%string, [[0; 1]; [1; 0]]%num); ("capacity"%string, [[frac 1 2]; [1]]%num)]
    ["demand"; "capacity"]%string).
  - repeat constructor.
  - intros var Hvar. exact Hvar.
Defined.

(** ** From the preprocessed dataset to the distance matrix *)

Lemma map_result_length {A B} (f : A -> result B) (l : list A) (r : list B) :
  map_result f l = Ok r -> length r = length l.
Proof.
  revert r; induction l as [|a l IH]; intros r Hrun; simpl in Hrun.
  - by injection Hrun as <-.
  - destruct (f a) as [b|]; [simpl in Hrun|discriminate].
    destruct (map_result f l) as [r'|]; [simpl in Hrun|discriminate].
    injection Hrun as <-. simpl. f_equal. by apply IH.
Qed.

Lemma take_rows_Forall {A} (P : A -> Prop) (a : list A) (ids : list nat) (r : list A) :
  take_rows a ids = Ok r -> Forall P a -> Forall P r.
Proof.
  intros Hrun Ha. apply (map_result_Forall P _ _ _ Hrun).
  intros i b _ Hb. unfold get_item in Hb.
  destruct (a !! i) as [x|] eqn:E; [|discriminate]. injection Hb as <-.
  by apply (Forall_lookup_1 _ _ _ _ Ha E).
Qed.

Lemma scale_feature_length (col : list num) : length (scale_feature col) = length col.
Proof. unfold scale_feature. apply length_map. Qed.

(** The scaler of sklearn returns an array of the shape of its argument. *)
Lemma fit_transform_rows (X m : matrix) :
  Forall (fun r => length r = ncols X) X ->
  MinMaxScaler_fit_transform X = Ok m -> length m = length X.
Proof.
  intros Hreg. unfold MinMaxScaler_fit_transform.
  destruct (_ || _); [discriminate|]. intros [= <-].
  apply transpose_length. apply Forall_map.
  eapply Forall_impl; [apply (transpose_rows_length (ncols X) X Hreg)|].
  intros col Hcol. simpl. by rewrite scale_feature_length.
Qed.

Lemma preprocess1dVariables_var_rows (da : matrix) (n_regions n_components : nat)
    (m : matrix) :
  Forall (fun row => length row = n_regions) da ->
  preprocess1dVariables_var da n_components = Ok m -> length m = n_regions.
Proof.
  intros Hda. unfold preprocess1dVariables_var.
  destruct (valid_component_ids _ _) as [ids|]; [simpl|discriminate].
  destruct (take_rows da ids) as [data|] eqn:Hdata; [simpl|discriminate].
  pose proof (take_rows_Forall _ _ _ _ Hdata Hda) as Hrows.
  destruct data as [|r data]; [discriminate|].
  unfold np_T at 1. rewrite (ncols_rows n_regions (r :: data)) by done.
  intros Hrun.
  pose proof (transpose_length n_regions (r :: data) Hrows) as Hlen.
  pose proof (transpose_rows_length n_regions (r :: data) Hrows) as Hcols.
  set (X := transpose n_regions (r :: data)) in *.
  rewrite (fit_transform_rows X m); [assumption| |assumption].
  destruct X as [|c X]; [constructor|]. simpl ncols.
  apply Forall_cons in Hcols as Hc. destruct Hc as [Hc _].
  eapply Forall_impl; [exact Hcols|]. intros col Hcol. simpl in *. congruence.
Qed.

Lemma upper_from_length {A} (n : nat) (m : list (list A)) (k : nat) :
  Forall (fun r => length r = n) m ->
  length (upper_from k m) = rows_offset n k (length m).
Proof.
  intros Hrows. revert k. induction Hrows as [|r m Hr _ IH]; intros k; [reflexivity|].
  rewrite upper_from_cons, length_app, length_drop, Hr, IH. reflexivity.
Qed.

Lemma rows_offset_all (n : nat) : rows_offset n 0 n = (n * (n - 1) / 2)%nat.
Proof.
  pose proof (rows_offset_closed n 0 n ltac:(lia)) as H.
  destruct n as [|n]; [reflexivity|].
  apply Nat2Z.inj. rewrite Nat2Z.inj_div, Nat2Z.inj_mul, Nat2Z.inj_sub by lia.
  apply Z.div_unique_exact; [lia|]. nia.
Qed.

Lemma is_square_rows {A} (m : list (list A)) :
  is_square m = true -> Forall (fun r => length r = length m) m.
Proof.
  unfold is_square. intros H. apply Forall_forall. intros r Hr.
  rewrite forallb_forall in H. apply Nat.eqb_eq, H. by apply list_elem_of_In.
Qed.

Lemma to_dissimilarity_length (data : matrix) (vec : list num) :
  to_dissimilarity data = Ok vec ->
  length vec = (length data * (length data - 1) / 2)%nat.
Proof.
  unfold to_dissimilarity, squareform.
  destruct (is_square data) eqn:Hsq; [simpl|discriminate]. intros [= <-].
  rewrite length_map. change (upper_triangle data) with (upper_from 0 data).
  rewrite (upper_from_length (length data)) by by apply is_square_rows.
  apply rows_offset_all.
Qed.

Lemma matrix_MinMaxScaler_length (m m' : matrix) (lo hi : num) :
  matrix_MinMaxScaler m lo hi = Ok m' -> length m' = length m.
Proof.
  unfold matrix_MinMaxScaler.
  destruct (np_max _); [simpl|discriminate]. destruct (np_min _); [simpl|discriminate].
  destruct (num_eqb _ _); intros [= <-]; [reflexivity|apply length_map].
Qed.

Lemma reorder_columns_length (space1 space2 : list string) (var_matr m : matrix) :
  reorder_columns space1 space2 var_matr = Ok m -> length m = length var_matr.
Proof.
  unfold reorder_columns. destruct (negb _); [discriminate|].
  destruct (map_result _ space1) as [cols|]; [simpl|discriminate].
  apply map_result_length.
Qed.

Lemma preprocess2dVariables_var_rows (da : DataArray2d) (n_regions n_components : nat)
    (var_dict : list (nat * matrix)) :
  Forall (fun c => length c = n_regions) (values_2d da) ->
  preprocess2dVariables_var da n_components = Ok var_dict ->
  Forall (fun q => length q.2 = n_regions) var_dict.
Proof.
  intros Hda. unfold preprocess2dVariables_var.
  destruct (valid_component_ids _ _) as [ids|]; [simpl|discriminate].
  intros Hrun. apply (map_result_Forall _ _ _ _ Hrun). intros comp_id [c scaled] _ Hbody.
  unfold get_item in Hbody.
  destruct (values_2d da !! comp_id) as [var_matr|] eqn:E; [simpl in Hbody|discriminate].
  destruct (reorder_columns _ _ _) as [df|] eqn:Hdf; [simpl in Hbody|discriminate].
  destruct (matrix_MinMaxScaler _ _ _) as [s|] eqn:Hs; [simpl in Hbody|discriminate].
  injection Hbody as _ <-. simpl.
  rewrite (matrix_MinMaxScaler_length _ _ _ _ Hs), (reorder_columns_length _ _ _ _ Hdf).
  by apply (Forall_lookup_1 _ _ _ _ Hda E).
Qed.

Lemma preprocess2dVariables_toDissimilarity_lengths
    (vars_dict : list (string * DataArray2d)) (n_regions n_components : nat)
    (ds_2d : ds_2d_t) :
  Forall (fun p => Forall (fun c => length c = n_regions) (values_2d p.2)) vars_dict ->
  preprocess2dVariables_toDissimilarity vars_dict n_components = Ok ds_2d ->
  Forall (fun p => Forall (fun q =>
      length q.2 = (n_regions * (n_regions - 1) / 2)%nat) p.2) ds_2d.
Proof.
  intros Hvars. unfold preprocess2dVariables_toDissimilarity.
  destruct (preprocess2dVariables_toAffinity _ _) as [aff|] eqn:Haff; [simpl|discriminate].
  assert (Hrows : Forall (fun p : string * list (nat * matrix) =>
                    Forall (fun q => length q.2 = n_regions) p.2) aff).
  { apply (map_result_Forall _ _ _ _ Haff). intros [var da] [var' var_dict] Hin Hbody.
    destruct (preprocess2dVariables_var da n_components) as [vd|] eqn:E;
      [simpl in Hbody|discriminate].
    injection Hbody as _ <-. simpl.
    apply (preprocess2dVariables_var_rows da n_regions n_components vd); [|assumption].
    by apply (proj1 (Forall_forall _ _) Hvars (var, da)). }
  intros Hrun. apply (map_result_Forall _ _ _ _ Hrun).
  intros [var var_dict] [var' vecs] Hin Hbody.
  destruct (map_result _ var_dict) as [vd|] eqn:E; [simpl in Hbody|discriminate].
  injection Hbody as _ <-. simpl.
  apply (map_result_Forall _ _ _ _ E). intros [comp data] [comp' vec] Hin' Hvec.
  destruct (to_dissimilarity data) as [v|] eqn:Hv; [simpl in Hvec|discriminate].
  injection Hvec as _ <-. simpl. rewrite (to_dissimilarity_length _ _ Hv).
  pose proof (proj1 (Forall_forall _ _) Hrows _ Hin) as Hdict. simpl in Hdict.
  pose proof (proj1 (Forall_forall _ _) Hdict _ Hin') as Hdata. simpl in Hdata.
  by rewrite Hdata.
Qed.

(** X16. For variables in the axis order that the preprocessing functions
    document, what [preprocessTimeSeries], [preprocess1dVariables] and
    [preprocess2dVariables] in mode toDissimilarity return is an input that
    [selfDistanceMatrix] accepts: every feature matrix has a row per
    region, every condensed vector an entry per pair of regions, and the
    distance matrix is computed without an exception. *)
Theorem preprocessed_variables_distance_matrix
    (vars_ts : list (string * list matrix)) (vars_1d : list (string * matrix))
    (vars_2d : list (string * DataArray2d)) (n_regions n_components : nat)
    (ds_ts : ds_ts_t) (ds_1d : ds_1d_t) (ds_2d : ds_2d_t) :
  Forall (fun p => Forall (fun row => length row = n_regions) p.2) vars_1d ->
  Forall (fun p => Forall (fun c => length c = n_regions) (values_2d p.2)) vars_2d ->
  preprocessTimeSeries vars_ts n_regions n_components = Ok ds_ts ->
  preprocess1dVariables vars_1d n_components = Ok ds_1d ->
  preprocess2dVariables_toDissimilarity vars_2d n_components = Ok ds_2d ->
  valid_input ds_ts ds_1d ds_2d n_regions None
  /\ exists distMatrix,
       selfDistanceMatrix ds_ts ds_1d ds_2d n_regions None = Ok distMatrix
       /\ square_of n_regions distMatrix.
Proof.
  intros H1d H2d Hts Hd1 Hd2. set (n := n_regions) in *.
  assert (Hvalid : valid_input ds_ts ds_1d ds_2d n None).
  { split; [|split; [|split]].
    - apply (map_result_Forall _ _ _ _ Hts). intros [var da] [var' m] _ Hvar.
      destruct (preprocessTimeSeries_var da n _) as [m'|] eqn:E;
        [simpl in Hvar|discriminate].
      injection Hvar as _ <-. simpl. by apply (preprocessTimeSeries_var_rows _ _ _ _ E).
    - apply (map_result_Forall _ _ _ _ Hd1). intros [var da] [var' m] Hin Hvar.
      destruct (preprocess1dVariables_var da _) as [m'|] eqn:E;
        [simpl in Hvar|discriminate].
      injection Hvar as _ <-. simpl.
      apply (preprocess1dVariables_var_rows da n n_components m'); [|assumption].
      by apply (proj1 (Forall_forall _ _) H1d (var, da)).
    - by apply (preprocess2dVariables_toDissimilarity_lengths _ n _ _ H2d Hd2).
    - apply weights_cover_None. }
  split; [assumption|]. unfold selfDistanceMatrix.
  destruct (pair_loop_invariant (upper_only n)
    (fun i j distMatrix =>
       let* d := selfDistance ds_ts ds_1d ds_2d n i j None None in
       set_item2 distMatrix i j d)
    n (np_zeros n n) (upper_only_zeros n))
    as (m & -> & Hm).
  - intros i j m Hij Hm.
    destruct (selfDistance_Ok ds_ts ds_1d ds_2d n i j None Hvalid Hij) as [d ->].
    simpl. by apply set_item2_upper_only.
  - simpl. eexists; split; [reflexivity|]. by apply reflect_upper_symmetric.
Qed.

(** A scalar variable with the components [0, 1/2, 1] and [1, 1, 0] on
    three regions, and a pairwise variable that connects the regions 0
    and 1. *)
Lemma preprocessed_variables_distance_matrix_witness :
  valid_input [] [("capacity"%string, [[0; 1]; [frac 1 2; 1]; [1; 0]]%num)]
              [("pipes"%string, [(0%nat, [0; 1; 1]%num)])] 3 None
  /\ exists distMatrix,
       selfDistanceMatrix [] [("capacity"%string, [[0; 1]; [frac 1 2; 1]; [1; 0]]%num)]
                          [("pipes"%string, [(0%nat, [0; 1; 1]%num)])] 3 None
       = Ok distMatrix
       /\ square_of 3 distMatrix.
Proof.
  apply (preprocessed_variables_distance_matrix
           []
           [("capacity"%string, [[0; frac 1 2; 1]; [1; 1; 0]]%num)]
           [("pipes"%string,
             {| space := ["r0"; "r1"; "r2"]%string;
                space_2 := ["r0"; "r1"; "r2"]%string;
                values_2d := [[[0; 1; 0]; [1; 0; 0]; [0; 0; 0]];
                              [[NaN; NaN; NaN]; [NaN; NaN; NaN]; [NaN; NaN; NaN]]]%num |})]
           3 2).
  - repeat constructor.
  - repeat constructor.
  - reflexivity.
  - by_compute.
  - by_compute.
Defined.

(** ** checkConnectivity and generateConnectivityMatrix *)

Lemma any_result_spec {A} (f : A -> result bool) (P : A -> Prop) (l : list A) :
  (forall a, a ∈ l -> exists b, f a = Ok b /\ (b = true <-> P a)) ->
  exists b, any_result f l = Ok b /\ (b = true <-> exists a, a ∈ l /\ P a).
Proof.
  induction l as [|a l IH]; intros Hf; simpl.
  - exists false. split; [reflexivity|]. split; [discriminate|].
    intros (a & Ha & _). by apply elem_of_nil in Ha.
  - destruct (Hf a) as (b & -> & Hb); [by left|]. simpl. destruct b.
    + exists true. split; [reflexivity|]. split; [|reflexivity].
      intros _. exists a. split; [by left|by apply Hb].
    + destruct IH as (b' & -> & Hb'); [intros a' Ha'; apply Hf; by right|].
      exists b'. split; [reflexivity|]. rewrite Hb'. split.
      * intros (a' & Ha' & HP). exists a'. split; [by right|assumption].
      * intros (a' & Ha' & HP). apply elem_of_cons in Ha' as [->|Ha'].
        -- apply Hb in HP. discriminate.
        -- by exists a'.
Qed.

Lemma entry_get_item2 (m : matrix) (i j : nat) (v : num) :
  get_item2 m i j = Ok v -> entry m i j = Some v.
Proof.
  unfold entry, get_item2, get_item. destruct (m !! i) as [r|]; [simpl|discriminate].
  destruct (r !! j); [|discriminate]. by intros [= ->].
Qed.

(** X17. When every array of a connecting component has an entry at
    (x, y), [checkConnectivity] returns, and it returns True exactly when
    one of these entries is not equal to 0.  The arrays of the other
    components are not read. *)
Theorem checkConnectivity_spec (region_index_x region_index_y : nat)
    (ds_2d : list (string * list (nat * matrix))) (connect_components : list nat) :
  (forall var var_dict c data,
      (var, var_dict) ∈ ds_2d -> (c, data) ∈ var_dict -> c ∈ connect_components ->
      is_Some (entry data region_index_x region_index_y)) ->
  exists b,
    checkConnectivity region_index_x region_index_y ds_2d connect_components = Ok b
    /\ (b = true
        <-> connected_by region_index_x region_index_y ds_2d connect_components).
Proof.
  intros Hread. unfold checkConnectivity.
  destruct (any_result_spec
    (fun '(_, var_dict) =>
       any_result (fun '(c, data) =>
           if bool_decide (c ∈ connect_components)
           then let* v := get_item2 data region_index_x region_index_y in
                Ok (negb (num_eqb v 0%num))
           else Ok false) var_dict)
    (fun p : string * list (nat * matrix) =>
       exists q : nat * matrix, q ∈ p.2 /\ q.1 ∈ connect_components
         /\ exists v, entry q.2 region_index_x region_index_y = Some v
                      /\ num_eqb v 0%num = false)
    ds_2d) as (b & Hb & Hiff).
  - intros [var var_dict] Hvar. simpl.
    apply (any_result_spec _
      (fun q : nat * matrix => q.1 ∈ connect_components
         /\ exists v, entry q.2 region_index_x region_index_y = Some v
                      /\ num_eqb v 0%num = false)).
    intros [c data] Hc. simpl. case_bool_decide as Hin.
    + destruct (Hread var var_dict c data Hvar Hc Hin) as [v Hv].
      rewrite (get_item2_entry _ _ _ _ Hv). simpl. eexists; split; [reflexivity|].
      rewrite negb_true_iff. split.
      * intros Hne. split; [assumption|]. by exists v.
      * intros (_ & v' & Hv' & Hne). congruence.
    + exists false. split; [reflexivity|]. split; [discriminate|]. by intros [? _].
  - exists b. split; [exact Hb|]. rewrite Hiff. unfold connected_by. split.
    + intros ([var var_dict] & Hvar & [c data] & Hc & Hin & v & Hv & Hne).
      by exists var, var_dict, c, data, v.
    + intros (var & var_dict & c & data & v & Hvar & Hc & Hin & Hv & Hne).
      exists (var, var_dict). split; [assumption|].
      exists (c, data). split; [assumption|]. split; [assumption|]. by exists v.
Qed.

(** The component 1 is no connecting component; its array has no rows. *)
Lemma checkConnectivity_spec_witness :
  exists b,
    checkConnectivity 0 1
      [("capacity_2d"%string, [(0%nat, [[0; frac 1 2]; [frac 1 2; 0]]%num); (1%nat, [])])]
      [0%nat]
    = Ok b
    /\ (b = true
        <-> connected_by 0 1
              [("capacity_2d"%string,
                [(0%nat, [[0; frac 1 2]; [frac 1 2; 0]]%num); (1%nat, [])])]
              [0%nat]).
Proof.
  apply (checkConnectivity_spec 0 1
    [("capacity_2d"%string, [(0%nat, [[0; frac 1 2]; [frac 1 2; 0]]%num); (1%nat, [])])]
    [0%nat]).
  intros var var_dict c data Hvar Hc Hin.
  apply list_elem_of_singleton in Hvar. injection Hvar as -> ->.
  apply list_elem_of_singleton in Hin. subst c.
  apply elem_of_cons in Hc as [Hc|Hc].
  - injection Hc as ->. by eexists.
  - apply list_elem_of_singleton in Hc. discriminate.
Defined.

(** A loop that writes [v] at the places [(i, j)] of one row for which
    [f j] holds. *)
Lemma mark_row (f : nat -> result bool) (v : num) (i : nat) (js : list nat)
    (m m' : matrix) :
  for_each (fun j m => let* c := f j in if c then set_item2 m i j v else Ok m) js m
  = Ok m' ->
  (forall j, j ∈ js ->
     exists c, f j = Ok c /\ entry m' i j = if c then Some v else entry m i j)
  /\ (forall a b, a <> i -> entry m' a b = entry m a b)
  /\ (forall b, b ∉ js -> entry m' i b = entry m i b).
Proof.
  revert m; induction js as [|j js IH]; intros m Hrun; simpl in Hrun.
  - injection Hrun as <-. split; [|done]. intros j Hj. by apply elem_of_nil in Hj.
  - destruct (f j) as [c|] eqn:Hc; [simpl in Hrun|discriminate].
    destruct (if c then set_item2 m i j v else Ok m) as [m1|] eqn:Hset;
      [simpl in Hrun|discriminate].
    destruct (IH m1 Hrun) as (Hin & Hrows & Hout).
    assert (Hm1 : (if c then entry m1 i j = Some v else m1 = m)
                  /\ (forall a b, a <> i -> entry m1 a b = entry m a b)
                  /\ (forall b, b <> j -> entry m1 i b = entry m i b)).
    { destruct c; [|injection Hset as <-; done].
      destruct (set_item2_entries _ _ _ _ _ Hset) as [Hij Hother].
      split; [assumption|]. split; [assumption|]. intros b Hb.
      unfold set_item2, get_item in Hset.
      destruct (m !! i) as [r|] eqn:Hr; [simpl in Hset|discriminate].
      destruct (r !! j) as [x|] eqn:Hx; [simpl in Hset|discriminate].
      injection Hset as <-. unfold entry.
      rewrite list_lookup_insert_eq by by eapply lookup_lt_Some. rewrite Hr. simpl.
      by apply list_lookup_insert_ne. }
    destruct Hm1 as (Hij & Hother & Hrow).
    split; [|split].
    + intros j' Hj'. destruct (decide (j' = j)) as [->|Hne].
      * exists c. split; [assumption|].
        destruct (decide (j ∈ js)) as [Hjs|Hjs].
        -- destruct (Hin j Hjs) as (c' & Hc' & Hentry). rewrite Hc in Hc'.
           injection Hc' as <-. rewrite Hentry. destruct c; [reflexivity|by rewrite Hij].
        -- rewrite (Hout j Hjs). destruct c; [assumption|by rewrite Hij].
      * apply elem_of_cons in Hj' as [?|Hj']; [done|].
        destruct (Hin j' Hj') as (c' & Hc' & Hentry). exists c'. split; [assumption|].
        rewrite Hentry. destruct c'; [reflexivity|by apply Hrow].
    + intros a b Hne. rewrite (Hrows a b Hne). by apply Hother.
    + intros b Hb. apply not_elem_of_cons in Hb as [Hne Hb]. rewrite (Hout b Hb).
      by apply Hrow.
Qed.

Lemma mark_rows (f : nat -> nat -> result bool) (v : num) (js : nat -> list nat)
    (rows : list nat) (m m' : matrix) :
  for_each (fun i m =>
      for_each (fun j m => let* c := f i j in if c then set_item2 m i j v else Ok m)
               (js i) m) rows m = Ok m' ->
  forall i j, i ∈ rows -> j ∈ js i ->
    exists c, f i j = Ok c /\ entry m' i j = if c then Some v else entry m i j.
Proof.
  intros Hrun.
  enough (H : (forall i j, i ∈ rows -> j ∈ js i ->
                 exists c, f i j = Ok c
                           /\ entry m' i j = if c then Some v else entry m i j)
              /\ (forall a b, a ∉ rows -> entry m' a b = entry m a b)) by apply H.
  revert m Hrun; induction rows as [|i rows IH]; intros m Hrun; simpl in Hrun.
  - injection Hrun as <-. split; [|done]. intros i j Hi. by apply elem_of_nil in Hi.
  - destruct (for_each _ (js i) m) as [m1|] eqn:Hrow; [simpl in Hrun|discriminate].
    destruct (IH m1 Hrun) as (Hin & Hout).
    destruct (mark_row (f i) v i (js i) m m1 Hrow) as (Hrow_in & Hrow_other & _).
    split.
    + intros i' j Hi' Hj. destruct (decide (i' ∈ rows)) as [Hrows|Hrows].
      * destruct (Hin i' j Hrows Hj) as (c & Hc & Hentry).
        exists c. split; [assumption|]. rewrite Hentry. destruct c; [reflexivity|].
        destruct (decide (i' = i)) as [->|Hne]; [|by apply Hrow_other].
        destruct (Hrow_in j Hj) as (c' & Hc' & Hentry'). rewrite Hc in Hc'.
        by injection Hc' as <-.
      * apply elem_of_cons in Hi' as [->|Hi']; [|done].
        destruct (Hrow_in j Hj) as (c & Hc & Hentry).
        exists c. split; [assumption|]. by rewrite (Hout i j Hrows).
    + intros a b Ha. apply not_elem_of_cons in Ha as [Hne Ha].
      rewrite (Hout a b Ha). by apply Hrow_other.
Qed.

Lemma fill_diagonal_entry (m : matrix) (val : num) (i j : nat) :
  i <> j -> entry (fill_diagonal m val) i j = entry m i j.
Proof.
  intros Hne. unfold entry. rewrite fill_diagonal_lookup.
  destruct (m !! i) as [r|]; [simpl|reflexivity]. by apply list_lookup_insert_ne.
Qed.

Lemma fill_diagonal_entry_diag (n : nat) (m : matrix) (val : num) (i : nat) :
  square_of n m -> (i < n)%nat -> entry (fill_diagonal m val) i i = Some val.
Proof.
  intros Hsq Hi. unfold entry. rewrite fill_diagonal_lookup.
  destruct (square_of_get_item2 n m i i Hsq Hi Hi) as (r & x & -> & Hx & _). simpl.
  apply list_lookup_insert_eq. by eapply lookup_lt_Some.
Qed.

(** X18. The matrix that [generateConnectivityMatrix] returns is an
    (n x n) array with 1 on its diagonal; for i < j its entries at (i, j)
    and at (j, i) are both 1 when [checkConnectivity] holds for (i, j) on
    the preprocessed pairwise variables, and both 0 when it does not. *)
Theorem generateConnectivityMatrix_entries (sds : Dataset) (adjacencyMatrix : matrix) :
  generateConnectivityMatrix sds = Ok adjacencyMatrix ->
  exists ds_2d,
    preprocess2dVariables_toAffinity (vars_2d_of sds) (length (component sds)) = Ok ds_2d
    /\ square_of (length (space_coord sds)) adjacencyMatrix
    /\ (forall i, (i < length (space_coord sds))%nat ->
          get_item2 adjacencyMatrix i i = Ok 1%num)
    /\ (forall i j, (i < j < length (space_coord sds))%nat ->
          exists c,
            checkConnectivity i j ds_2d (connect_components_of (component sds)) = Ok c
            /\ get_item2 adjacencyMatrix i j = Ok (if c then 1%num else 0%num)
            /\ get_item2 adjacencyMatrix j i = Ok (if c then 1%num else 0%num)).
Proof.
  intros Hrun. unfold generateConnectivityMatrix in Hrun.
  set (n := length (space_coord sds)) in *.
  destruct (preprocess2dVariables_toAffinity _ _) as [ds_2d|]; [simpl in Hrun|discriminate].
  set (cc := connect_components_of (component sds)) in *.
  destruct (for_each _ _ _) as [m|] eqn:Hloop; [simpl in Hrun|discriminate].
  injection Hrun as <-. exists ds_2d. split; [reflexivity|].
  assert (Hup : upper_only n m).
  { apply (pair_loop_preserves (upper_only n) _ _ _ _ Hloop); [apply upper_only_zeros|].
    intros v w s s1 Hvw Hs Hbody.
    destruct (checkConnectivity v w ds_2d cc) as [[|]|]; simpl in Hbody;
      [|by injection Hbody as <-|discriminate].
    destruct (set_item2_upper_only n s v w 1%num Hs Hvw) as (s2 & Hs2 & Hup).
    rewrite Hs2 in Hbody. by injection Hbody as <-. }
  pose proof (mark_rows (fun i j => checkConnectivity i j ds_2d cc) 1%num
                (fun i => range (i + 1) n) _ _ _ Hloop) as Hin.
  destruct Hup as [Hsq Hlow].
  assert (Hdiag : forall i r, m !! i = Some r -> r !! i = Some 0%num).
  { intros a r Hr. pose proof (lookup_lt_Some _ _ _ Hr) as Ha.
    destruct Hsq as [Hlen _]. specialize (Hlow a a (Nat.le_refl a) ltac:(lia)).
    unfold entry in Hlow. by rewrite Hr in Hlow. }
  pose proof (reflect_upper_square n m Hsq Hdiag) as Hrsq.
  split; [by apply fill_diagonal_square|]. split.
  - intros i Hi. by apply get_item2_entry, (fill_diagonal_entry_diag n).
  - intros i j Hij.
    destruct (Hin i j) as (c & Hc & Hentry); [apply elem_of_range; lia..|].
    rewrite entry_np_zeros in Hentry by lia.
    assert (Hm : entry m i j = Some (if c then 1%num else 0%num)) by by destruct c.
    pose proof (Hlow j i ltac:(lia) ltac:(lia)) as Hji.
    exists c. split; [assumption|].
    split; apply get_item2_entry; rewrite fill_diagonal_entry by lia.
    + replace (Some (if c then 1%num else 0%num))
        with (Some ((if c then 1 else 0) + (0 - 0))%num)
        by (by rewrite num_add_zero_diff).
      apply (reflect_upper_entry n m i j _ 0%num); try assumption; lia.
    + replace (Some (if c then 1%num else 0%num))
        with (Some (0 + ((if c then 1 else 0) - 0))%num)
        by (by rewrite <- num_reflect, num_add_zero_diff).
      apply (reflect_upper_entry n m j i 0%num _); try assumption; lia.
Qed.

Lemma generateConnectivityMatrix_entries_witness :
  exists ds_2d,
    preprocess2dVariables_toAffinity (vars_2d_of pairwise_example)
                                     (length (component pairwise_example)) = Ok ds_2d
    /\ square_of (length (space_coord pairwise_example))
                 [[1; 0; 0; 1]; [0; 1; 0; 0]; [0; 0; 1; 1]; [1; 0; 1; 1]]%num
    /\ (forall i, (i < length (space_coord pairwise_example))%nat ->
          get_item2 [[1; 0; 0; 1]; [0; 1; 0; 0]; [0; 0; 1; 1]; [1; 0; 1; 1]]%num i i
          = Ok 1%num)
    /\ (forall i j, (i < j < length (space_coord pairwise_example))%nat ->
          exists c,
            checkConnectivity i j ds_2d (connect_components_of (component pairwise_example))
            = Ok c
            /\ get_item2 [[1; 0; 0; 1]; [0; 1; 0; 0]; [0; 0; 1; 1]; [1; 0; 1; 1]]%num i j
               = Ok (if c then 1%num else 0%num)
            /\ get_item2 [[1; 0; 0; 1]; [0; 1; 0; 0]; [0; 0; 1; 1]; [1; 0; 1; 1]]%num j i
               = Ok (if c then 1%num else 0%num)).
Proof.
  apply (generateConnectivityMatrix_entries pairwise_example
           [[1; 0; 0; 1]; [0; 1; 0; 0]; [0; 0; 1; 1]; [1; 0; 1; 1]]%num).
  by_compute.
Defined.

(** ** computeSilhouetteCoefficient *)

Lemma py_set_item_length {A} (l l' : list A) (i : Z) (v : A) :
  py_set_item l i v = Ok l' -> length l' = length l.
Proof.
  unfold py_set_item. destruct (_ && _); [|discriminate].
  intros [= <-]. apply length_insert.
Qed.

(** X19. The list of scores that [computeSilhouetteCoefficient] returns has
    one place for each number of groups from 2 to n_regions - 1, whatever
    levels the aggregation dictionary holds. *)
Theorem computeSilhouetteCoefficient_length
    (silhouette_score : matrix -> list Z -> result num)
    (regions_list : list string) (distanceMatrix : matrix)
    (aggregation_dict : list (Z * list (string * list string)))
    (scores : list num) :
  computeSilhouetteCoefficient silhouette_score regions_list distanceMatrix
                               aggregation_dict = Ok scores ->
  length scores = (length regions_list - 2)%nat.
Proof.
  unfold computeSilhouetteCoefficient.
  destruct (for_each _ aggregation_dict _) as [[scores' labels]|] eqn:Hloop;
    [simpl|discriminate].
  intros [= <-].
  apply (for_each_preserves
           (fun s : list num * list Z => length s.1 = (length regions_list - 2)%nat)
           _ _ _ _ Hloop).
  - simpl. rewrite length_map. unfold range. rewrite length_seq. lia.
  - intros [k regions_dict] [s l] [s1 l1] _ Hs Hbody. simpl in *.
    destruct (_ || _); [by injection Hbody as <- _|].
    destruct (assign_labels _ _ _); [simpl in Hbody|discriminate].
    destruct (silhouette_score _ _); [simpl in Hbody|discriminate].
    destruct (py_set_item s _ _) as [s2|] eqn:Hset; [simpl in Hbody|discriminate].
    injection Hbody as <- _. by rewrite (py_set_item_length _ _ _ _ Hset).
Qed.

Lemma computeSilhouetteCoefficient_length_witness :
  length [frac 1 2] = (length ["r0"; "r1"; "r2"]%string - 2)%nat.
Proof.
  apply (computeSilhouetteCoefficient_length (fun _ _ => Ok (frac 1 2))
           ["r0"; "r1"; "r2"]%string
           [[0; 1; 2]; [1; 0; 1]; [2; 1; 0]]%num
           [(3, [("r0", ["r0"]); ("r1", ["r1"]); ("r2", ["r2"])]);
            (2, [("r0_r1", ["r0"; "r1"]); ("r2", ["r2"])]);
            (1, [("r0_r1_r2", ["r0"; "r1"; "r2"])])]%string
           [frac 1 2]).
  by_compute.
Defined.

(** X20. The levels 1 and n_regions of the aggregation dictionary are
    passed over: leaving them out of the dictionary changes nothing, and
    for them neither are the labels assigned nor is the score computed. *)
Theorem computeSilhouetteCoefficient_skips_ends
    (silhouette_score : matrix -> list Z -> result num)
    (regions_list : list string) (distanceMatrix : matrix)
    (aggregation_dict : list (Z * list (string * list string))) :
  computeSilhouetteCoefficient silhouette_score regions_list distanceMatrix
    (filter (fun p => p.1 <> 1 /\ p.1 <> Z.of_nat (length regions_list))
            aggregation_dict)
  = computeSilhouetteCoefficient silhouette_score regions_list distanceMatrix
                                 aggregation_dict.
Proof.
  unfold computeSilhouetteCoefficient. f_equal.
  generalize (map (fun _ : nat => 0%num) (range 1 (length regions_list - 1)),
              map (fun _ : nat => 0) (range 0 (length regions_list))).
  induction aggregation_dict as [|[k regions_dict] l IH]; intros st; [reflexivity|].
  destruct (decide (k <> 1 /\ k <> Z.of_nat (length regions_list))) as [Hk|Hk].
  - rewrite filter_cons_True by exact Hk. simpl.
    destruct (let '(scores, labels) := st in _) as [st'|]; [simpl|reflexivity].
    apply IH.
  - rewrite filter_cons_False by exact Hk. simpl. rewrite IH.
    destruct st as [scores labels].
    assert ((k =? 1) || (k =? Z.of_nat (length regions_list)) = true) as ->; [|reflexivity].
    apply orb_true_iff. rewrite !Z.eqb_eq. lia.
Qed.

Lemma list_index_lookup (l : list string) (x : string) (i : nat) :
  list_index l x = Ok i -> l !! i = Some x.
Proof.
  unfold list_index. destruct (list_find _ l) as [[j y]|] eqn:E; [|discriminate].
  intros [= <-]. apply list_find_Some in E as (Hj & -> & _). exact Hj.
Qed.

(** The loop over the regions of one group. *)
Lemma label_group (regions_list sub : list string) (label : Z) (labels labels' : list Z) :
  for_each (fun region labels =>
      let* ind := list_index regions_list region in
      Ok (<[ind := label]> labels)) sub labels = Ok labels' ->
  length labels' = length labels
  /\ forall r ind, list_index regions_list r = Ok ind -> (ind < length labels)%nat ->
       (r ∈ sub -> labels' !! ind = Some label)
       /\ (r ∉ sub -> labels' !! ind = labels !! ind).
Proof.
  revert labels; induction sub as [|r0 sub IH]; intros labels Hrun; simpl in Hrun.
  - injection Hrun as <-. split; [reflexivity|]. intros r ind _ _. split; [|done].
    intros Hr. by apply elem_of_nil in Hr.
  - destruct (list_index regions_list r0) as [i0|] eqn:Hi0; [simpl in Hrun|discriminate].
    destruct (IH _ Hrun) as [Hlen Hlab]. rewrite length_insert in Hlen.
    split; [assumption|]. intros r ind Hind Hlt.
    destruct (Hlab r ind Hind) as [Hin Hout]; [by rewrite length_insert|].
    split.
    + intros Hr. destruct (decide (r ∈ sub)) as [Hsub|Hsub]; [by apply Hin|].
      apply elem_of_cons in Hr as [->|Hr]; [|done].
      rewrite (Hout Hsub). rewrite Hi0 in Hind. injection Hind as <-.
      by apply list_lookup_insert_eq.
    + intros Hr. apply not_elem_of_cons in Hr as [Hne Hr]. rewrite (Hout Hr).
      apply list_lookup_insert_ne. intros <-.
      apply list_index_lookup in Hi0, Hind. congruence.
Qed.

(** The loop over the groups, started with the label [k]. *)
Lemma label_groups (regions_list : list string)
    (regions_dict : list (string * list string)) (labels labels' : list Z) (k k' : Z) :
  for_each (fun '(_, sub_regions_list) '(labels, label) =>
      let* labels :=
        for_each (fun region labels =>
            let* ind := list_index regions_list region in
            Ok (<[ind := label]> labels)) sub_regions_list labels in
      Ok (labels, label + 1))
    regions_dict (labels, k) = Ok (labels', k') ->
  length labels' = length labels
  /\ forall r ind, list_index regions_list r = Ok ind -> (ind < length labels)%nat ->
       (forall g name sub, regions_dict !! g = Some (name, sub) -> r ∈ sub ->
          (forall g' name' sub', regions_dict !! g' = Some (name', sub') ->
             r ∈ sub' -> g' = g) ->
          labels' !! ind = Some (k + Z.of_nat g))
       /\ ((forall g name sub, regions_dict !! g = Some (name, sub) -> r ∉ sub) ->
           labels' !! ind = labels !! ind).
Proof.
  revert labels k; induction regions_dict as [|[name0 sub0] groups IH];
    intros labels k Hrun; simpl in Hrun.
  - injection Hrun as <- <-. split; [reflexivity|]. intros r ind _ _. split; [|done].
    intros g name sub Hg. discriminate.
  - destruct (for_each _ sub0 labels) as [labels1|] eqn:Hgrp; [simpl in Hrun|discriminate].
    destruct (label_group _ _ _ _ _ Hgrp) as [Hlen1 Hlab1].
    destruct (IH _ _ Hrun) as [Hlen Hlab]. split; [congruence|].
    intros r ind Hind Hlt.
    destruct (Hlab1 r ind Hind Hlt) as [Hin1 Hout1].
    destruct (Hlab r ind Hind) as [Hin Hout]; [congruence|].
    split.
    + intros g name sub Hg Hr Huniq. destruct g as [|g]; simpl in Hg.
      * injection Hg as <- <-. rewrite Hout.
        -- rewrite (Hin1 Hr). f_equal. lia.
        -- intros g' name' sub' Hg' Hr'.
           specialize (Huniq (S g') name' sub' Hg' Hr'). discriminate.
      * replace (k + Z.of_nat (S g)) with (k + 1 + Z.of_nat g) by lia.
        apply (Hin g name sub Hg Hr). intros g' name' sub' Hg' Hr'.
        specialize (Huniq (S g') name' sub' Hg' Hr'). lia.
    + intros Hnone. rewrite Hout.
      * apply Hout1. by apply (Hnone 0%nat name0 sub0).
      * intros g name sub Hg. by apply (Hnone (S g) name sub).
Qed.

(** X21. Step 2 of [computeSilhouetteCoefficient] labels the regions by the
    position of their group: a region that belongs to the group at position
    g, and to no other group, has the label g at its index in
    [regions_list]; a region that belongs to no group keeps the label it
    had. *)
Theorem assign_labels_spec (regions_list : list string)
    (regions_dict : list (string * list string)) (labels labels' : list Z)
    (r : string) (ind : nat) :
  assign_labels regions_list regions_dict labels = Ok labels' ->
  length labels = length regions_list ->
  list_index regions_list r = Ok ind ->
  (forall g name sub, regions_dict !! g = Some (name, sub) -> r ∈ sub ->
     (forall g' name' sub', regions_dict !! g' = Some (name', sub') ->
        r ∈ sub' -> g' = g) ->
     labels' !! ind = Some (Z.of_nat g))
  /\ ((forall g name sub, regions_dict !! g = Some (name, sub) -> r ∉ sub) ->
      labels' !! ind = labels !! ind).
Proof.
  intros Hrun Hlen Hind. unfold assign_labels in Hrun.
  destruct (for_each _ regions_dict (labels, 0)) as [[l k']|] eqn:Hloop;
    [simpl in Hrun|discriminate].
  injection Hrun as <-.
  destruct (label_groups _ _ _ _ _ _ Hloop) as [_ Hlab].
  apply Hlab; [assumption|]. rewrite Hlen.
  apply list_index_lookup in Hind. by eapply lookup_lt_Some.
Qed.

Lemma assign_labels_spec_witness :
  (forall g name sub,
      [("r0_r2", ["r0"; "r2"]); ("r1", ["r1"])]%string !! g = Some (name, sub) ->
      "r1"%string ∈ sub ->
      (forall g' name' sub',
          [("r0_r2", ["r0"; "r2"]); ("r1", ["r1"])]%string !! g' = Some (name', sub') ->
          "r1"%string ∈ sub' -> g' = g) ->
      [0; 1; 0] !! 1%nat = Some (Z.of_nat g))
  /\ ((forall g name sub,
         [("r0_r2", ["r0"; "r2"]); ("r1", ["r1"])]%string !! g = Some (name, sub) ->
         "r1"%string ∉ sub) ->
      [0; 1; 0] !! 1%nat = [0; 0; 0] !! 1%nat).
Proof.
  apply (assign_labels_spec ["r0"; "r1"; "r2"]%string
           [("r0_r2", ["r0"; "r2"]); ("r1", ["r1"])]%string [0; 0; 0] [0; 1; 0]
           "r1"%string 1%nat).
  - by_compute.
  - reflexivity.
  - by_compute.
Defined.

(** ** preprocess2dVariables: the order of the second axis *)

Lemma take_rows_seq {A} (r : list A) (k n : nat) :
  (k + n <= length r)%nat -> take_rows r (seq k n) = Ok (take n (drop k r)).
Proof.
  unfold take_rows. revert k; induction n as [|n IH]; intros k Hle; simpl.
  - by rewrite take_0.
  - destruct (get_item_lt r k) as (a & Ha & ->); [lia|]. simpl.
    rewrite IH by lia. simpl. f_equal.
    rewrite (drop_S r a k Ha). simpl. reflexivity.
Qed.

Lemma find_positions (sp pre post : list string) :
  NoDup sp -> sp = pre ++ post ->
  map_result (fun l =>
      match list_find (fun l' => l' = l) sp with
      | Some (j, _) => Ok j
      | None => Raise KeyError
      end) post
  = Ok (seq (length pre) (length post)).
Proof.
  intros Hnd. revert pre; induction post as [|l post IH]; intros pre Hsp; simpl;
    [reflexivity|].
  assert (Hl : sp !! length pre = Some l).
  { rewrite Hsp. by rewrite lookup_app_r, Nat.sub_diag by lia. }
  assert (list_find (fun l' => l' = l) sp = Some (length pre, l)) as ->.
  { apply list_find_Some. split; [assumption|]. split; [reflexivity|].
    intros j y Hj Hlt ->. pose proof (NoDup_lookup _ _ _ _ Hnd Hj Hl). lia. }
  simpl. rewrite (IH (pre ++ [l])) by (by rewrite <- app_assoc).
  rewrite length_app. simpl. by rewrite Nat.add_1_r.
Qed.

Lemma missing_position (space1 space2 : list string) (l : string) :
  l ∈ space1 -> l ∉ space2 ->
  map_result (fun l =>
      match list_find (fun l' => l' = l) space2 with
      | Some (j, _) => Ok j
      | None => Raise KeyError
      end) space1
  = Raise KeyError.
Proof.
  intros Hin Hout. induction space1 as [|a space1 IH]; [by apply elem_of_nil in Hin|].
  simpl. destruct (list_find (fun l' => l' = a) space2) as [[j y]|] eqn:E; simpl;
    [|reflexivity].
  apply elem_of_cons in Hin as [->|Hin].
  - apply list_find_Some in E as (Hj & -> & _). exfalso. apply Hout.
    by eapply list_elem_of_lookup_2.
  - by rewrite IH.
Qed.

(** X22. Step 2a of [preprocess2dVariables] brings the columns into the
    order of the first axis.  When both axes carry the same labels in the
    same order the array is left as it is; a label of the first axis that
    the second axis does not have raises KeyError. *)
Theorem reorder_columns_spec (space1 space2 : list string) (var_matr : matrix) :
  Forall (fun r => length r = length space2) var_matr ->
  (NoDup space2 -> space1 = space2 ->
   reorder_columns space1 space2 var_matr = Ok var_matr)
  /\ ((exists l, l ∈ space1 /\ l ∉ space2) ->
      reorder_columns space1 space2 var_matr = Raise KeyError).
Proof.
  intros Hrows. unfold reorder_columns.
  assert (forallb (fun r => (length r =? length space2)%nat) var_matr = true) as ->.
  { apply forallb_forall. intros r Hr. apply Nat.eqb_eq.
    apply list_elem_of_In in Hr. by apply (proj1 (Forall_forall _ _) Hrows). }
  simpl. split.
  - intros Hnd ->. rewrite (find_positions space2 [] space2 Hnd eq_refl). simpl.
    induction Hrows as [|r m Hr _ IH]; simpl; [reflexivity|].
    rewrite take_rows_seq by lia. simpl. rewrite IH. simpl. rewrite drop_0.
    by rewrite <- Hr, firstn_all.
  - intros (l & Hin & Hout). by rewrite (missing_position space1 space2 l Hin Hout).
Qed.

Lemma reorder_columns_spec_witness :
  reorder_columns ["r0"; "r1"]%string ["r0"; "r1"]%string [[0; 1]; [1; 0]]%num
  = Ok [[0; 1]; [1; 0]]%num
  /\ reorder_columns ["r0"; "r2"]%string ["r0"; "r1"]%string [[0; 1]; [1; 0]]%num
     = Raise KeyError.
Proof.
  split.
  - apply (reorder_columns_spec ["r0"; "r1"]%string ["r0"; "r1"]%string
             [[0; 1]; [1; 0]]%num); [repeat constructor|by_compute|reflexivity].
  - apply (reorder_columns_spec ["r0"; "r2"]%string ["r0"; "r1"]%string
             [[0; 1]; [1; 0]]%num); [repeat constructor|].
    exists "r2"%string. split; by_compute.
Defined.

(** ** generateConnectivityMatrix: the connecting components *)

Lemma elem_of_zip_range {A} (l : list A) (i : nat) (a : A) :
  (i, a) ∈ zip (range 0 (length l)) l <-> l !! i = Some a.
Proof.
  unfold range. rewrite Nat.sub_0_r, elem_of_lookup_zip_with. split.
  - intros (j & x & y & [= -> ->] & Hx & Hy).
    apply lookup_seq in Hx as [-> _]. exact Hy.
  - intros Ha. exists i, i, a. split; [reflexivity|]. split; [|assumption].
    apply lookup_seq. split; [reflexivity|]. by eapply lookup_lt_Some.
Qed.

(** X23. Steps 2 and 3 of [generateConnectivityMatrix]: the connecting
    components are the positions of the component names that contain
    'pipeline' in any mix of upper and lower case; when no name does, they
    are the positions of all components. *)
Theorem connect_components_of_spec (component_list : list string) (i : nat) :
  i ∈ connect_components_of component_list
  <-> exists name, component_list !! i = Some name
        /\ (contains "pipeline" (lower name) = true
            \/ Forall (fun nm => contains "pipeline" (lower nm) <> true) component_list).
Proof.
  unfold connect_components_of.
  set (P := fun p : nat * string => contains "pipeline" (lower p.2) = true).
  assert (Hmem : forall i, i ∈ map fst (filter P (zip (range 0 (length component_list))
                                                      component_list))
                   <-> exists name, component_list !! i = Some name
                                    /\ contains "pipeline" (lower name) = true).
  { intros k. change (map ?f ?l) with (f <$> l). rewrite list_elem_of_fmap. split.
    - intros ([k' name] & -> & Hin). apply list_elem_of_filter in Hin as [HP Hin].
      apply elem_of_zip_range in Hin. by exists name.
    - intros (name & Hname & HP). exists (k, name). split; [reflexivity|].
      apply list_elem_of_filter. split; [exact HP|]. by apply elem_of_zip_range. }
  destruct (map fst (filter P _)) as [|c0 cs] eqn:E.
  - rewrite elem_of_range. split.
    + intros [_ Hi]. destruct (lookup_lt_is_Some_2 component_list i Hi) as [name Hname].
      exists name. split; [assumption|]. right. apply Forall_lookup_2.
      intros k nm Hnm HP.
      assert (Hk : k ∈ @nil nat) by (apply Hmem; by exists nm).
      by apply elem_of_nil in Hk.
    + intros (name & Hname & _). split; [lia|by eapply lookup_lt_Some].
  - rewrite Hmem. split.
    + intros (name & Hname & HP). exists name. split; [assumption|by left].
    + intros (name & Hname & [HP|Hnone]); [by exists name|].
      assert (Hc0 : c0 ∈ c0 :: cs) by by left.
      apply Hmem in Hc0 as (nm & Hnm & HP).
      by destruct (Forall_lookup_1 _ _ _ _ Hnone Hnm).
Qed.

(** ** matrix_MinMaxScaler: empty and constant arrays *)

Lemma foldl_max2_const (v : num) (l : list num) :
  Forall (fun x => x = v) l -> foldl max2 v l = v.
Proof.
  induction 1 as [|x l -> _ IH]; simpl; [reflexivity|].
  replace (max2 v v) with v; [exact IH|]. unfold max2. by destruct (isnan v), (num_ltb v v).
Qed.

Lemma foldl_min2_const (v : num) (l : list num) :
  Forall (fun x => x = v) l -> foldl min2 v l = v.
Proof.
  induction 1 as [|x l -> _ IH]; simpl; [reflexivity|].
  replace (min2 v v) with v; [exact IH|]. unfold min2. by destruct (isnan v), (num_ltb v v).
Qed.

(** X24. An array without entries makes [matrix_MinMaxScaler] raise
    ValueError.  An array whose entries are all the same number is returned
    as it is, whatever the target range, also when the number lies outside
    of the range. *)
Theorem matrix_MinMaxScaler_edge_cases (m : matrix) (scaled_min scaled_max : num) :
  (concat m = [] -> matrix_MinMaxScaler m scaled_min scaled_max = Raise ValueError)
  /\ (forall v, isnan v = false -> v ∈ concat m ->
        Forall (fun x => x = v) (concat m) ->
        matrix_MinMaxScaler m scaled_min scaled_max = Ok m).
Proof.
  unfold matrix_MinMaxScaler. split.
  - intros ->. reflexivity.
  - intros v Hv Hin Hconst. destruct (concat m) as [|a l]; [by apply elem_of_nil in Hin|].
    apply Forall_cons in Hconst as [-> Hconst]. simpl.
    rewrite (foldl_max2_const v l Hconst), (foldl_min2_const v l Hconst).
    assert (num_eqb v v = true) as ->; [|reflexivity].
    destruct v; try reflexivity; [|discriminate]. simpl. by apply bool_decide_eq_true.
Qed.

Lemma matrix_MinMaxScaler_edge_cases_witness :
  matrix_MinMaxScaler [[]; []] 0%num 1%num = Raise ValueError
  /\ matrix_MinMaxScaler [[2; 2]; [2; 2]]%num 0%num 1%num = Ok [[2; 2]; [2; 2]]%num.
Proof.
  split.
  - by apply (proj1 (matrix_MinMaxScaler_edge_cases [[]; []] 0%num 1%num)).
  - apply (proj2 (matrix_MinMaxScaler_edge_cases [[2; 2]; [2; 2]]%num 0%num 1%num) 2%num);
      [reflexivity|by left|repeat constructor].
Defined.

(** ** preprocessDataset in mode toAffinity: the shapes *)

Lemma concat_weighted_rows (w : gmap string num) (n_regions : nat)
    (ds : list (string * matrix)) (m : matrix) :
  concat_weighted w n_regions ds = Ok m -> length m = n_regions.
Proof.
  unfold concat_weighted.
  destruct (for_each _ ds _) as [mv|] eqn:Hloop; [simpl|discriminate].
  intros [= <-]. unfold delete_col0. rewrite length_map.
  apply (for_each_preserves (fun s : matrix => length s = n_regions) _ _ _ _ Hloop).
  - apply length_replicate.
  - intros [var var_matrix] s s1 _ Hs Hbody.
    destruct (lookup_weight w var); [simpl in Hbody|discriminate].
    by rewrite (hconcat_length _ _ _ Hbody).
Qed.

Lemma matrix_add_square (n : nat) (a b r : matrix) :
  square_of n a -> matrix_add a b = Ok r -> square_of n r.
Proof.
  intros [Hlen Hrows]. unfold matrix_add.
  destruct (Nat.eqb_spec (length a) (length b)) as [Hab|]; [simpl|discriminate].
  destruct (forallb _ (zip a b)) eqn:Hall; [|discriminate]. intros [= <-].
  split; [rewrite length_zip_with; lia|].
  apply Forall_lookup_2. intros i row Hrow.
  apply lookup_zip_with_Some in Hrow as (ra & rb & -> & Ha & Hb).
  rewrite forallb_forall in Hall. specialize (Hall (ra, rb)). simpl in Hall.
  rewrite length_zip_with.
  pose proof (Forall_lookup_1 _ _ _ _ Hrows Ha) as Hra. simpl in Hra.
  assert ((length ra =? length rb)%nat = true) as Heq%Nat.eqb_eq; [|lia].
  apply Hall, list_elem_of_In, elem_of_lookup_zip_with. by exists i, ra, rb.
Qed.

(** X25. In mode toAffinity [preprocessDataset] returns two feature
    matrices with a row per region and a square matrix with a row and a
    column per region. *)
Theorem preprocessDataset_toAffinity_shape (sds : Dataset)
    (var_weightings : option (gmap string num)) (matrix_ts matrix_1d matrix_2d : matrix) :
  preprocessDataset_toAffinity sds var_weightings = Ok (matrix_ts, matrix_1d, matrix_2d) ->
  length matrix_ts = length (space_coord sds)
  /\ length matrix_1d = length (space_coord sds)
  /\ square_of (length (space_coord sds)) matrix_2d.
Proof.
  unfold preprocessDataset_toAffinity. set (n := length (space_coord sds)).
  destruct (preprocessTimeSeries _ _ _) as [ts|]; [simpl|discriminate].
  destruct (preprocess1dVariables _ _) as [d1|]; [simpl|discriminate].
  set (w := default_weightings _ _).
  destruct (concat_weighted w n ts) as [mts|] eqn:Hts; [simpl|discriminate].
  destruct (concat_weighted w n d1) as [m1d|] eqn:H1d; [simpl|discriminate].
  destruct (preprocess2dVariables_toAffinity _ _) as [d2|]; [simpl|discriminate].
  destruct (for_each _ d2 _) as [m2d|] eqn:Hloop; [simpl|discriminate].
  intros [= <- <- <-].
  split; [by apply (concat_weighted_rows w n ts)|].
  split; [by apply (concat_weighted_rows w n d1)|].
  apply (for_each_preserves (square_of n) _ _ _ _ Hloop).
  - apply upper_only_zeros.
  - intros [var var_dict] s s1 _ Hs Hbody.
    destruct (lookup_weight w var) as [weight|]; [simpl in Hbody|discriminate].
    apply (for_each_preserves (square_of n) _ _ _ _ Hbody); [assumption|].
    intros [c data] s2 s3 _ Hs2 Hadd.
    by apply (matrix_add_square n s2 (scale_matrix data weight) s3).
Qed.

Lemma preprocessDataset_toAffinity_shape_witness :
  length (replicate 4 (@nil num)) = length (space_coord pairwise_example)
  /\ length (replicate 4 (@nil num)) = length (space_coord pairwise_example)
  /\ square_of (length (space_coord pairwise_example))
               [[0; 0; 0; 1]; [0; 0; 0; 0]; [0; 0; 0; 1]; [1; 0; 1; 0]]%num.
Proof.
  apply (preprocessDataset_toAffinity_shape pairwise_example None
           (replicate 4 []) (replicate 4 [])
           [[0; 0; 0; 1]; [0; 0; 0; 0]; [0; 0; 0; 1]; [1; 0; 1; 0]]%num).
  by_compute.
Defined.

(** ** preprocess2dVariables: the condensed vectors *)

Lemma py_index_map {A B} (f : A -> B) (l : list A) (k : Z) (v : A) :
  py_index l k = Ok v -> py_index (map f l) k = Ok (f v).
Proof.
  unfold py_index. rewrite length_map.
  destruct (_ && _); [|discriminate].
  change (map f l) with (f <$> l). rewrite list_lookup_fmap.
  destruct (l !! _); [|discriminate]. by intros [= ->].
Qed.

(** X26. Step 4 of [preprocess2dVariables] keeps, for every pair of regions
    x < y, the value 1 - a, where a is the entry (x, y) of the scaled
    array; it stands in the vector at the position x * n - x * (x + 1) / 2
    + (y - x - 1). *)
Theorem to_dissimilarity_entry (data : matrix) (vec : list num) (x y : nat) (a : num) :
  to_dissimilarity data = Ok vec ->
  (x < y < length data)%nat ->
  entry data x y = Some a ->
  py_index vec (squareform_pos (Z.of_nat (length data)) (Z.of_nat x) (Z.of_nat y))
  = Ok (1 - a)%num.
Proof.
  unfold to_dissimilarity. intros Hrun Hxy Ha.
  destruct (squareform data) as [vec0|] eqn:Hsq; [simpl in Hrun|discriminate].
  injection Hrun as <-. apply (py_index_map (fun v => (1 - v)%num)).
  apply (squareform_lookup (length data) data vec0 x y a); try done.
  apply is_square_rows. unfold squareform in Hsq. by destruct (is_square data).
Qed.

Lemma to_dissimilarity_entry_witness :
  py_index [1; frac 1 2; 0]%num
           (squareform_pos (Z.of_nat (length [[0; 0; frac 1 2]; [0; 0; 1]; [frac 1 2; 1; 0]]%num))
                           (Z.of_nat 1) (Z.of_nat 2))
  = Ok (1 - 1)%num.
Proof.
  apply (to_dissimilarity_entry [[0; 0; frac 1 2]; [0; 0; 1]; [frac 1 2; 1; 0]]%num
           [1; frac 1 2; 0]%num 1 2 1%num).
  - by_compute.
  - simpl. lia.
  - reflexivity.
Defined.

(** ** preprocess1dVariables: one component at a time *)










